(** * Computation cache and diagram context of the systems framework

    A shallow embedding of [drake/systems/framework]: the dependency-tracked
    [Cache] exercised by [test/cache_test.cc], the time-keeping part of
    [ContextBase] ([context_base.h]) and the composite [DiagramContext]
    ([diagram_context.h]), followed by the properties established for them. *)

From stdpp Require Import gmap list sorting.
From Stdlib Require Import ZArith Lia.

Local Open Scope Z_scope.

(** ** Part I: definitions *)

(** *** The cache *)

Module Cache.

(** A ticket is a dense index into the entry table. *)
Abbreviation CacheTicket := nat (only parsing).

(** The address of a value box in the free store. *)
Abbreviation loc := nat (only parsing).

(** Failure of a cache operation. *)
Inductive error := UnknownTicket.

Inductive result (A : Type) :=
| Ok (a : A)
| Err (e : error).
Arguments Ok {A} a.
Arguments Err {A} e.

Definition rbind {A B} (r : result A) (k : A -> result B) : result B :=
  match r with Ok a => k a | Err e => Err e end.

(** Modelled from the spec: the cache entry of [cache.h], which is not
    among the sources.  An entry is valid or invalid, keeps the box it was
    last given (invalidation does not release it), and records its
    prerequisites and the reverse edges to its dependents. *)
Record CacheEntry := mkEntry {
  is_valid : bool;
  value : option loc;
  prerequisites : list CacheTicket;
  dependents : list CacheTicket
}.

(** Modelled from the spec: the [Cache] class of [cache.h]/[cache.cc], a
    table of entries indexed by ticket. *)
Abbreviation t := (list CacheEntry).

Section cache.
Context {V : Type}.

(** Modelled from the spec: the storage of the type-erased values, which
    the spec leaves to the language.  Value boxes live in a free store;
    [next] is the bump pointer of the allocator; a released box is
    removed from [cells] and its address is not handed out again. *)
Record Heap := mkHeap { cells : gmap loc V; next : loc }.

(** A cache without tickets. *)
Definition empty : t := [].

(** Reading through a borrow, allocating a box and releasing one. *)
Definition deref (h : Heap) (p : loc) : option V := cells h !! p.

Definition alloc (h : Heap) (v : V) : loc * Heap :=
  (next h, mkHeap (<[next h := v]> (cells h)) (S (next h))).

Definition release (h : Heap) (o : option loc) : Heap :=
  match o with
  | Some l => mkHeap (delete l (cells h)) (next h)
  | None => h
  end.

(** The tickets the cache has issued. *)
Definition known (c : t) (ticket : CacheTicket) : bool :=
  bool_decide (ticket < length c)%nat.

(** The reverse edges from every prerequisite to a new ticket. *)
Definition add_dependent (ticket : CacheTicket) (e : CacheEntry) : CacheEntry :=
  mkEntry (is_valid e) (value e) (prerequisites e) (dependents e ++ [ticket]).

Definition add_edges (ticket : CacheTicket) (prereqs : list CacheTicket) (c : t) : t :=
  foldl (fun acc p => alter (add_dependent ticket) p acc) c prereqs.

(** Modelled from the spec: [make_ticket] ([MakeCacheTicket] in the test)
    allocates the next ticket, records its prerequisites and adds the
    reverse edge at each of them; it fails when a prerequisite is
    unknown. *)
Definition make_ticket (c : t) (prereqs : list CacheTicket)
  : result (CacheTicket * t) :=
  if forallb (known c) prereqs then
    let ticket := length c in
    Ok (ticket, add_edges ticket prereqs c ++ [mkEntry false None prereqs []])
  else Err UnknownTicket.

(** Modelled from the spec: [get] returns a borrow of the stored value
    when the entry is valid and the absent marker otherwise. *)
Definition get (c : t) (ticket : CacheTicket) : result (option loc) :=
  match c !! ticket with
  | Some e => Ok (if is_valid e then value e else None)
  | None => Err UnknownTicket
  end.

(** Modelled from the spec: [set] stores the value in a new box,
    releases the box the entry held before, marks the entry valid and
    returns a borrow of the new box.  Dependents are left alone. *)
Definition set (h : Heap) (c : t) (ticket : CacheTicket) (v : V)
  : result (loc * Heap * t) :=
  match c !! ticket with
  | Some e =>
      let '(p, h') := alloc (release h (value e)) v in
      Ok (p, h', <[ticket := mkEntry true (Some p) (prerequisites e) (dependents e)]> c)
  | None => Err UnknownTicket
  end.

(** Modelled from the spec: [swap] exchanges the box of the entry for a
    new one and hands the previous box, if any, to the caller; nothing
    is released and dependents are left alone. *)
Definition swap (h : Heap) (c : t) (ticket : CacheTicket) (v : V)
  : result (option loc * Heap * t) :=
  match c !! ticket with
  | Some e =>
      let '(p, h') := alloc h v in
      Ok (value e, h', <[ticket := mkEntry true (Some p) (prerequisites e) (dependents e)]> c)
  | None => Err UnknownTicket
  end.

Definition mark_invalid (e : CacheEntry) : CacheEntry :=
  mkEntry false (value e) (prerequisites e) (dependents e).

Definition dependents_of (c : t) (ticket : CacheTicket) : list CacheTicket :=
  match c !! ticket with
  | Some e => dependents e
  | None => []
  end.

(** Modelled from the spec: recursive invalidation.  Every ticket of
    [to_invalidate] is marked invalid, whatever its state, and the walk
    continues into its dependents.  [fuel] bounds the depth of the
    walk; the table size is enough because edges lead to later
    tickets. *)
Fixpoint invalidate_recursively (fuel : nat) (to_invalidate : list CacheTicket)
         (c : t) : t :=
  match fuel with
  | O => c
  | S fuel' =>
      foldl (fun acc ticket =>
               invalidate_recursively fuel' (dependents_of acc ticket)
                 (alter mark_invalid ticket acc))
            c to_invalidate
  end.

(** Modelled from the spec: [invalidate] marks the ticket and, recursively,
    every transitive dependent invalid; it fails on an unknown ticket. *)
Definition invalidate (c : t) (ticket : CacheTicket) : result t :=
  if known c ticket
  then Ok (invalidate_recursively (length c) [ticket] c)
  else Err UnknownTicket.

(** Modelled from the spec: [clone] is a deep copy; every box is
    copied into a new one, validity and both edge lists are kept. *)
Definition clone_entry (h : Heap) (e : CacheEntry) : CacheEntry * Heap :=
  match value e ≫= deref h with
  | Some v =>
      let '(p, h') := alloc h v in
      (mkEntry (is_valid e) (Some p) (prerequisites e) (dependents e), h')
  | None => (mkEntry (is_valid e) None (prerequisites e) (dependents e), h)
  end.

Fixpoint clone_entries (h : Heap) (c : t) : t * Heap :=
  match c with
  | [] => ([], h)
  | e :: c' =>
      let '(e', h1) := clone_entry h e in
      let '(c'', h2) := clone_entries h1 c' in
      (e' :: c'', h2)
  end.

(** Modelled from the spec: [clone], the deep copy of the whole table. *)
Definition clone (h : Heap) (c : t) : t * Heap := clone_entries h c.

(** The forward edges of the whole table. *)
Definition edges (c : t) : list (list CacheTicket) := dependents <$> c.

(** Forward edges lead to later tickets of the table. *)
Definition dag (c : t) : Prop :=
  forall ticket e, c !! ticket = Some e ->
    Forall (fun d => ticket < d < length c)%nat (dependents e).

(** [reach c a b]: [b] is [a] or a transitive dependent of [a]. *)
Inductive reach (c : t) : CacheTicket -> CacheTicket -> Prop :=
| reach_refl ticket : reach c ticket ticket
| reach_step ticket d ticket' :
    d ∈ dependents_of c ticket -> reach c d ticket' -> reach c ticket ticket'.

(** [invalidated e e']: [e'] is [e], possibly marked invalid. *)
Definition invalidated (e e' : CacheEntry) : Prop :=
  e' = e \/ e' = mark_invalid e.

(** The entry of [ticket] exists and is invalid. *)
Definition invalid_at (c : t) (ticket : CacheTicket) : Prop :=
  exists e, c !! ticket = Some e /\ is_valid e = false.

(** [held_at c ticket l]: the entry of [ticket] holds the box [l]. *)
Definition held_at (c : t) (ticket : CacheTicket) (l : loc) : Prop :=
  exists e, c !! ticket = Some e /\ value e = Some l.

(** Exclusive ownership: the boxes a cache holds were handed out by the
    allocator, and no box is held by two entries. *)
Definition wf (h : Heap) (c : t) : Prop :=
  (forall ticket l, held_at c ticket l -> (l < next h)%nat) /\
  (forall ticket1 ticket2 l,
      held_at c ticket1 l -> held_at c ticket2 l -> ticket1 = ticket2).

(** Two caches that share no box. *)
Definition share_no_box (c1 c2 : t) : Prop :=
  forall ticket1 ticket2 l, held_at c1 ticket1 l -> ~ held_at c2 ticket2 l.

(** What a client can observe of a cache: per ticket its validity, the
    value [get] leads to, and its edges. *)
Definition observe_entry (h : Heap) (e : CacheEntry)
  : bool * option V * list CacheTicket * list CacheTicket :=
  (is_valid e, (if is_valid e then value e else None) ≫= deref h,
   prerequisites e, dependents e).

Definition observe (h : Heap) (c : t) := observe_entry h <$> c.

(** The operations of a client on one cache; one that fails leaves
    everything as it was. *)
Inductive op :=
| OpMakeTicket (prereqs : list CacheTicket)
| OpSet (ticket : CacheTicket) (v : V)
| OpSwap (ticket : CacheTicket) (v : V)
| OpGet (ticket : CacheTicket)
| OpInvalidate (ticket : CacheTicket).

Definition step (s : Heap * t) (o : op) : Heap * t :=
  match o with
  | OpMakeTicket prereqs =>
      match make_ticket s.2 prereqs with Ok r => (s.1, r.2) | Err _ => s end
  | OpSet ticket v =>
      match set s.1 s.2 ticket v with Ok r => (r.1.2, r.2) | Err _ => s end
  | OpSwap ticket v =>
      match swap s.1 s.2 ticket v with Ok r => (r.1.2, r.2) | Err _ => s end
  | OpGet ticket => s
  | OpInvalidate ticket =>
      match invalidate s.2 ticket with Ok c' => (s.1, c') | Err _ => s end
  end.

Definition run (ops : list op) (s : Heap * t) : Heap * t := foldl step s ops.

(** The fixture of [cache_test.cc]: three tickets, the second depending
    on the first and the third on both, and a value at each. *)
Record fixture := mkFixture {
  heap_ : Heap;
  cache_ : t;
  ticket0_ : CacheTicket;
  ticket1_ : CacheTicket;
  ticket2_ : CacheTicket
}.

Definition SetUp (h : Heap) (c : t) (v0 v1 v2 : V) : result fixture :=
  rbind (make_ticket c []) (fun r0 =>
  rbind (make_ticket r0.2 [r0.1]) (fun r1 =>
  rbind (make_ticket r1.2 [r0.1; r1.1]) (fun r2 =>
  rbind (set h r2.2 r0.1 v0) (fun s0 =>
  rbind (set s0.1.2 s0.2 r1.1 v1) (fun s1 =>
  rbind (set s1.1.2 s1.2 r2.1 v2) (fun s2 =>
  Ok (mkFixture s2.1.2 s2.2 r0.1 r1.1 r2.1))))))).

(** [get] followed by a read through the borrow it returns. *)
Definition get_value (h : Heap) (c : t) (ticket : CacheTicket) : result (option V) :=
  rbind (get c ticket) (fun p => Ok (p ≫= deref h)).

(** The operation is a [set] on [ticket]. *)
Definition sets_ticket (ticket : CacheTicket) (o : op) : Prop :=
  match o with OpSet ticket' _ => ticket' = ticket | _ => False end.

End cache.
Arguments Heap V : clear implicits.
Arguments op V : clear implicits.
End Cache.

(** *** Outcomes and the state monad of the context operations *)

(** An operation runs on an object of type [S].  It completes with a result,
    stops at a failed [DRAKE_DEMAND] (the object is given as it was at that
    moment), or has undefined behaviour. *)
Inductive outcome (S A : Type) : Type :=
| Done (a : A) (s : S)
| Aborted (s : S)
| Undefined.
Arguments Done {S A} a s.
Arguments Aborted {S A} s.
Arguments Undefined {S A}.

Definition M (S A : Type) : Type := S -> outcome S A.

Definition ret {S A} (a : A) : M S A := fun s => Done a s.

Definition bind {S A B} (m : M S A) (k : A -> M S B) : M S B :=
  fun s =>
    match m s with
    | Done a s' => k a s'
    | Aborted s' => Aborted s'
    | Undefined => Undefined
    end.

Declare Scope ctx_scope.
Delimit Scope ctx_scope with ctx.
Notation "x <- m ;; k" := (bind m (fun x => k))
  (at level 100, m at next level, right associativity) : ctx_scope.
Notation "m ;;; k" := (bind m (fun _ => k))
  (at level 100, right associativity) : ctx_scope.

Definition gets {S A} (f : S -> A) : M S A := fun s => Done (f s) s.
Definition modify {S} (f : S -> S) : M S unit := fun s => Done tt (f s).

Definition DRAKE_DEMAND {S} (condition : bool) : M S unit :=
  fun s => if condition then Done tt s else Aborted s.

(** Reading a pointer that may not be dereferenced. *)
Definition defined {S A} (o : option A) : M S A :=
  fun s => match o with Some a => Done a s | None => Undefined end.

(** [std::vector::operator[]] with an [int] index: no bounds check. *)
Definition vec_at {A} (v : list A) (i : Z) : option A :=
  if 0 <=? i then v !! Z.to_nat i else None.

Definition vec_set {A} (i : Z) (x : A) (v : list A) : list A :=
  if 0 <=? i then <[Z.to_nat i := x]> v else v.

Fixpoint fold_M {S A B} (f : B -> A -> M S B) (b : B) (l : list A) : M S B :=
  match l with
  | [] => ret b
  | a :: l' => bind (f b a) (fun b' => fold_M f b' l')
  end.

Fixpoint map_M {S A B} (f : A -> M S B) (l : list A) : M S (list B) :=
  match l with
  | [] => ret []
  | a :: l' => bind (f a) (fun b => bind (map_M f l') (fun bs => ret (b :: bs)))
  end.

(** Runs an operation on a local object [x] from within an operation on [S]. *)
Definition run_on {S X A} (x : X) (m : M X A) : M S (A * X) :=
  fun s =>
    match m x with
    | Done a x' => Done (a, x') s
    | Aborted _ => Aborted s
    | Undefined => Undefined
    end.

Definition is_nullptr {A} (p : option A) : bool :=
  match p with None => true | Some _ => false end.

(** A pointer that [DRAKE_DEMAND] requires to be non-null. *)
Definition DRAKE_DEMAND_nonnull {S A} (p : option A) : M S A :=
  fun s => match p with Some a => Done a s | None => Aborted s end.

(** *** Ports and identifiers *)

Abbreviation SystemIndex := Z (only parsing).
Abbreviation PortIndex := Z (only parsing).
Abbreviation PortIdentifier := (Z * Z)%type (only parsing).

(** The address of a context object. *)
Abbreviation addr := nat (only parsing).

(** A pointer to an output port: the port [ptr_port] of the output set that
    the diagram context at [ptr_owner] holds for subsystem [ptr_system]. *)
Record OutputPortPtr := mkOutputPortPtr {
  ptr_owner : addr;
  ptr_system : SystemIndex;
  ptr_port : PortIndex
}.

(** The scalar type [T] of a context, with its value-initialised element. *)
Class Scalar (T : Type) := { scalar_zero : T }.

Section ports.
Context {V : Type}.

(** Modelled from the spec: an output slot of [system_output.h], holding a
    value.  The freshness flag of the slot and the input ports that
    depend on it are not represented. *)
Record OutputPort := mkOutputPort { port_data : V }.

(** Modelled from the spec: [SystemOutput] of [system_output.h], an
    ordered sequence of output slots. *)
Definition SystemOutput := list OutputPort.

(** Modelled from the spec: [num_ports] and [clone] of the output set. *)
Definition get_num_ports (o : SystemOutput) : Z := Z.of_nat (length o).

Definition SystemOutput_Clone (o : SystemOutput) : SystemOutput := o.

(** Modelled from the spec: the two kinds of input port of
    [system_input.h]. *)
Inductive InputPort :=
| FreestandingInputPort (data : V)
| DependentInputPort (output_port : OutputPortPtr).

(** What dereferencing an output port pointer yields, if anything. *)
Definition resolver := OutputPortPtr -> option V.

(** The free store as seen by [Clone]: the next free object address and
    the store of cached value boxes. *)
Record Mem := mkMem { next_object : addr; boxes : Cache.Heap V }.

Definition new_object : M Mem addr :=
  fun m => Done (next_object m) (mkMem (S (next_object m)) (boxes m)).
End ports.
Arguments OutputPort V : clear implicits.
Arguments SystemOutput V : clear implicits.
Arguments InputPort V : clear implicits.
Arguments resolver V : clear implicits.
Arguments Mem V : clear implicits.

(** *** The operations a diagram context calls on its subsystem contexts *)

Module Virtual.
(** The part of the interface of [Context<T>] that [DiagramContext] uses
    through a pointer to a subsystem context.  [context.h] is not among
    the sources, so a diagram context is defined over any type [C] of
    subsystem contexts with these operations; leaf contexts and diagram
    contexts are instances.  [Clone] is given what the output port
    pointers of its input ports refer to. *)
Class Context (T V : Type) (C : Type) := {
  get_time : C -> T;
  set_time : T -> C -> C;
  get_num_input_ports : C -> Z;
  SetInputPort : Z -> InputPort V -> M C unit;
  set_parent_and_index : addr -> SystemIndex -> C -> C;
  get_parent : C -> option (addr * SystemIndex);
  get_mutable_state : C -> C;
  Clone : resolver V -> C -> M (Mem V) C
}.

(** What the diagram context relies on: time and back-pointer are read
    back as they were written. *)
Class Lawful {T V C : Type} (ops : Context T V C) : Prop := {
  get_time_set_time : forall time_sec c, get_time (set_time time_sec c) = time_sec;
  get_parent_set_parent_and_index :
    forall parent index c, get_parent (set_parent_and_index parent index c)
                           = Some (parent, index)
}.
End Virtual.

(** *** [ContextBase] and the leaf context *)

Module Context.
Section context.
Context {T : Type} `{Scalar T} {V : Type}.

(** [StepInfo] of [context_base.h]. *)
Record StepInfo := mkStepInfo { time_sec : T }.

(** Modelled from the spec: the fields of [Context<T>] ([context.h] is
    not among the sources) around the [step_info_] of [ContextBase]. *)
Record t := mk {
  step_info_ : StepInfo;
  inputs_ : list (option (InputPort V));
  cache_ : Cache.t;
  time_ticket_ : Cache.CacheTicket;
  state_ticket_ : Cache.CacheTicket;
  input_tickets_ : list Cache.CacheTicket;
  parent_ : option (addr * SystemIndex)
}.

Definition with_step_info (x : StepInfo) (c : t) : t :=
  mk x (inputs_ c) (cache_ c) (time_ticket_ c) (state_ticket_ c)
     (input_tickets_ c) (parent_ c).
Definition with_inputs (x : list (option (InputPort V))) (c : t) : t :=
  mk (step_info_ c) x (cache_ c) (time_ticket_ c) (state_ticket_ c)
     (input_tickets_ c) (parent_ c).
Definition with_cache (x : Cache.t) (c : t) : t :=
  mk (step_info_ c) (inputs_ c) x (time_ticket_ c) (state_ticket_ c)
     (input_tickets_ c) (parent_ c).
Definition with_parent (x : option (addr * SystemIndex)) (c : t) : t :=
  mk (step_info_ c) (inputs_ c) (cache_ c) (time_ticket_ c) (state_ticket_ c)
     (input_tickets_ c) x.

(** Modelled from the spec: the three invalidation hooks declared pure
    virtual in [ContextBase]; each invalidates the ticket recorded for
    its root by [BuildCacheTickets]. *)
Definition invalidate_ticket (ticket : Cache.CacheTicket) (c : t) : t :=
  match Cache.invalidate (cache_ c) ticket with
  | Cache.Ok cache' => with_cache cache' c
  | Cache.Err _ => c
  end.

Definition InvalidateTime (c : t) : t := invalidate_ticket (time_ticket_ c) c.

Definition InvalidateState (c : t) : t := invalidate_ticket (state_ticket_ c) c.

Definition InvalidateInputPort (index : Z) (c : t) : t :=
  match vec_at (input_tickets_ c) index with
  | Some ticket => invalidate_ticket ticket c
  | None => c
  end.

(** [ContextBase::get_step_info], [get_time] and [set_time]. *)
Definition get_step_info (c : t) : StepInfo := step_info_ c.

Definition get_time (c : t) : T := time_sec (get_step_info c).

Definition set_time (time_sec : T) (c : t) : t :=
  with_step_info (mkStepInfo time_sec) (InvalidateTime c).

(** Modelled from the spec: the number of inputs of a leaf context. *)
Definition get_num_input_ports (c : t) : Z := Z.of_nat (length (inputs_ c)).

(** Modelled from the spec: [SetInputPort] replaces input [index] and
    invalidates what depends on it; an index out of range is a
    precondition violation. *)
Definition SetInputPort (index : Z) (port : InputPort V) : M t unit :=
  (n <- gets get_num_input_ports ;;
   DRAKE_DEMAND ((0 <=? index) && (index <? n)) ;;;
   modify (fun c => with_inputs (vec_set index (Some port) (inputs_ c)) c) ;;;
   modify (InvalidateInputPort index))%ctx.

(** Modelled from the spec: the back-pointer from a subsystem context to
    its diagram and its index there. *)
Definition set_parent_and_index (parent : addr) (index : SystemIndex) (c : t) : t :=
  with_parent (Some (parent, index)) c.

(** Modelled from the spec: obtaining mutable state invalidates the
    cache entries that depend on state. *)
Definition get_mutable_state (c : t) : t := InvalidateState c.

(** A ticket without prerequisites, and [n] of them. *)
Definition make_root (c : Cache.t) : Cache.CacheTicket * Cache.t :=
  match Cache.make_ticket c [] with
  | Cache.Ok r => r
  | Cache.Err _ => (length c, c)
  end.

Fixpoint make_roots (n : nat) (c : Cache.t) : list Cache.CacheTicket * Cache.t :=
  match n with
  | O => ([], c)
  | S n' =>
      let '(ticket, c1) := make_root c in
      let '(tickets, c2) := make_roots n' c1 in
      (ticket :: tickets, c2)
  end.

(** Modelled from the spec: a context with [num_input_ports] unconnected
    inputs whose cache holds the well-known tickets of
    [BuildCacheTickets]: time, state, and one per input port. *)
Definition create (num_input_ports : nat) : t :=
  let '(time_ticket, c1) := make_root Cache.empty in
  let '(state_ticket, c2) := make_root c1 in
  let '(input_tickets, c3) := make_roots num_input_ports c2 in
  mk (mkStepInfo scalar_zero) (replicate num_input_ports None) c3
     time_ticket state_ticket input_tickets None.

(** Modelled from the spec: cloning a leaf copies time and cache and
    turns every dependent input port into a freestanding snapshot of
    what it refers to. *)
Definition snapshot (env : resolver V) (port : option (InputPort V))
  : M (Mem V) (option (InputPort V)) :=
  match port with
  | None => ret None
  | Some (FreestandingInputPort data) => ret (Some (FreestandingInputPort data))
  | Some (DependentInputPort p) =>
      (data <- defined (env p) ;; ret (Some (FreestandingInputPort data)))%ctx
  end.

Definition clone_cache (c : Cache.t) : M (Mem V) Cache.t :=
  fun m =>
    let '(c', h') := Cache.clone (boxes m) c in
    Done c' (mkMem (next_object m) h').

Definition DoClone (env : resolver V) (c : t) : M (Mem V) t :=
  (inputs' <- map_M (snapshot env) (inputs_ c) ;;
   cache' <- clone_cache (cache_ c) ;;
   ret (mk (step_info_ c) inputs' cache' (time_ticket_ c) (state_ticket_ c)
           (input_tickets_ c) None))%ctx.

End context.
Arguments StepInfo T : clear implicits.
Arguments t T V : clear implicits.

#[global] Instance virtual {T} `{Scalar T} {V} : Virtual.Context T V (t T V) := {
  Virtual.get_time := get_time;
  Virtual.set_time := set_time;
  Virtual.get_num_input_ports := get_num_input_ports;
  Virtual.SetInputPort := SetInputPort;
  Virtual.set_parent_and_index := set_parent_and_index;
  Virtual.get_parent := parent_;
  Virtual.get_mutable_state := get_mutable_state;
  Virtual.Clone := DoClone
}.
End Context.

(** *** The diagram context *)

Module DiagramContext.
Section diagram.
Context {T : Type} `{Scalar T} {V : Type}.
Context {C : Type} `{Virtual.Context T V C}.

(** The members of [DiagramContext<T>].  [super] is the [Context<T>]
    base object, [this] the address of the object, and [state_] the
    private member that [get_state] returns; its content is not
    represented beyond the subsystems it refers to. *)
Record t := mk {
  super : Context.t T V;
  this : addr;
  input_ids_ : list PortIdentifier;
  output_ids_ : list PortIdentifier;
  outputs_ : list (option (SystemOutput V));
  contexts_ : list (option C);
  dependency_graph_ : gmap PortIdentifier PortIdentifier;
  inverse_dependency_graph_ : gmap PortIdentifier (list PortIdentifier);
  state_ : list SystemIndex
}.

Definition with_super (x : Context.t T V) (d : t) : t :=
  mk x (this d) (input_ids_ d) (output_ids_ d) (outputs_ d) (contexts_ d)
     (dependency_graph_ d) (inverse_dependency_graph_ d) (state_ d).
Definition with_input_ids (x : list PortIdentifier) (d : t) : t :=
  mk (super d) (this d) x (output_ids_ d) (outputs_ d) (contexts_ d)
     (dependency_graph_ d) (inverse_dependency_graph_ d) (state_ d).
Definition with_output_ids (x : list PortIdentifier) (d : t) : t :=
  mk (super d) (this d) (input_ids_ d) x (outputs_ d) (contexts_ d)
     (dependency_graph_ d) (inverse_dependency_graph_ d) (state_ d).
Definition with_outputs (x : list (option (SystemOutput V))) (d : t) : t :=
  mk (super d) (this d) (input_ids_ d) (output_ids_ d) x (contexts_ d)
     (dependency_graph_ d) (inverse_dependency_graph_ d) (state_ d).
Definition with_contexts (x : list (option C)) (d : t) : t :=
  mk (super d) (this d) (input_ids_ d) (output_ids_ d) (outputs_ d) x
     (dependency_graph_ d) (inverse_dependency_graph_ d) (state_ d).
Definition with_dependency_graph (x : gmap PortIdentifier PortIdentifier) (d : t) : t :=
  mk (super d) (this d) (input_ids_ d) (output_ids_ d) (outputs_ d) (contexts_ d)
     x (inverse_dependency_graph_ d) (state_ d).
Definition with_inverse_dependency_graph
           (x : gmap PortIdentifier (list PortIdentifier)) (d : t) : t :=
  mk (super d) (this d) (input_ids_ d) (output_ids_ d) (outputs_ d) (contexts_ d)
     (dependency_graph_ d) x (state_ d).
(** The constructor: [num_subsystems] null slots in both vectors, and
    the well-known tickets built in the base object. *)
Definition create (self : addr) (num_subsystems : Z) : t :=
  mk (Context.create 0) self [] []
     (replicate (Z.to_nat num_subsystems) None)
     (replicate (Z.to_nat num_subsystems) None)
     ∅ ∅ [].

(** [static_cast<int>(contexts_.size())]; the size is the [int] given to
    the constructor. *)
Definition num_subsystems (d : t) : Z := Z.of_nat (length (contexts_ d)).

(** The class invariant: [outputs_] runs parallel to [contexts_], with
    the same slots filled. *)
Definition parallel (d : t) : Prop :=
  Forall2 (fun c o => is_nullptr c = is_nullptr o) (contexts_ d) (outputs_ d).

(** A subsystem is installed at [index]. *)
Definition installed (d : t) (index : SystemIndex) : Prop :=
  exists c, vec_at (contexts_ d) index = Some (Some c).

(** No slot of [contexts_] is null. *)
Definition all_installed (d : t) : Prop :=
  Forall (fun c => is_nullptr c = false) (contexts_ d).

(** The identity and the wiring of a diagram context: everything but the
    subsystems, their output sets and the state. *)
Definition wiring (d : t) :=
  (this d, input_ids_ d, output_ids_ d, dependency_graph_ d, inverse_dependency_graph_ d).

(** The two graphs are transposes of each other: [dest] is listed
    under [src] exactly when [dest] is mapped to [src]. *)
Definition transposed (d : t) : Prop :=
  forall src dest : PortIdentifier,
    dest ∈ default [] (inverse_dependency_graph_ d !! src) <->
    dependency_graph_ d !! dest = Some src.

(** Reading an element of [contexts_] or [outputs_] by [operator[]]. *)
Definition contexts_at (index : Z) : M t (option C) :=
  fun d => defined (vec_at (contexts_ d) index) d.

Definition outputs_at (index : Z) : M t (option (SystemOutput V)) :=
  fun d => defined (vec_at (outputs_ d) index) d.

Definition AddSystem (index : SystemIndex) (context : C) (output : SystemOutput V)
  : M t unit :=
  (n <- gets num_subsystems ;;
   DRAKE_DEMAND ((0 <=? index) && (index <? n)) ;;;
   c <- contexts_at index ;;
   DRAKE_DEMAND (is_nullptr c) ;;;
   o <- outputs_at index ;;
   DRAKE_DEMAND (is_nullptr o) ;;;
   self <- gets this ;;
   let context := Virtual.set_parent_and_index self index context in
   modify (fun d => with_contexts (vec_set index (Some context) (contexts_ d)) d) ;;;
   modify (fun d => with_outputs (vec_set index (Some output) (outputs_ d)) d))%ctx.

Definition ExportInput (id : PortIdentifier) : M t unit :=
  (let system_index := id.1 in
   c <- contexts_at system_index ;;
   DRAKE_DEMAND (negb (is_nullptr c)) ;;;
   modify (fun d => with_input_ids (input_ids_ d ++ [id]) d))%ctx.

Definition ExportOutput (id : PortIdentifier) : M t unit :=
  (let system_index := id.1 in
   c <- contexts_at system_index ;;
   DRAKE_DEMAND (negb (is_nullptr c)) ;;;
   modify (fun d => with_output_ids (output_ids_ d ++ [id]) d))%ctx.

Definition GetSubsystemOutput (index : SystemIndex) : M t (SystemOutput V) :=
  (n <- gets num_subsystems ;;
   DRAKE_DEMAND ((0 <=? index) && (index <? n)) ;;;
   o <- outputs_at index ;;
   DRAKE_DEMAND_nonnull o)%ctx.

Definition GetSubsystemContext (index : SystemIndex) : M t C :=
  (n <- gets num_subsystems ;;
   DRAKE_DEMAND ((0 <=? index) && (index <? n)) ;;;
   c <- contexts_at index ;;
   DRAKE_DEMAND_nonnull c)%ctx.

Definition GetMutableSubsystemContext (index : SystemIndex) : M t C :=
  (n <- gets num_subsystems ;;
   DRAKE_DEMAND ((0 <=? index) && (index <? n)) ;;;
   c <- contexts_at index ;;
   DRAKE_DEMAND_nonnull c)%ctx.

(** A call through the pointer to the subsystem context at [index]:
    the operation runs on that context in place. *)
Definition call_subsystem {A} (index : SystemIndex) (m : M C A) : M t A :=
  fun d =>
    match vec_at (contexts_ d) index with
    | Some (Some c) =>
        match m c with
        | Done a c' => Done a (with_contexts (vec_set index (Some c') (contexts_ d)) d)
        | Aborted c' => Aborted (with_contexts (vec_set index (Some c') (contexts_ d)) d)
        | Undefined => Undefined
        end
    | _ => Undefined
    end.

Definition Connect (src dest : PortIdentifier) : M t unit :=
  ((* Identify and validate the source port. *)
   let src_system_index := src.1 in
   let src_port_index := src.2 in
   src_ports <- GetSubsystemOutput src_system_index ;;
   DRAKE_DEMAND (0 <=? src_port_index) ;;;
   DRAKE_DEMAND (src_port_index <? get_num_ports src_ports) ;;;
   self <- gets this ;;
   let output_port := mkOutputPortPtr self src_system_index src_port_index in
   (* Identify and validate the destination port. *)
   let dest_system_index := dest.1 in
   let dest_port_index := dest.2 in
   dest_context <- GetMutableSubsystemContext dest_system_index ;;
   DRAKE_DEMAND (0 <=? dest_port_index) ;;;
   DRAKE_DEMAND (dest_port_index <? Virtual.get_num_input_ports dest_context) ;;;
   (* Construct and install the destination port. *)
   let input_port := DependentInputPort output_port in
   call_subsystem dest_system_index
     (Virtual.SetInputPort dest_port_index input_port) ;;;
   (* Remember the graph structure. *)
   modify (fun d => with_dependency_graph (<[dest := src]> (dependency_graph_ d)) d) ;;;
   modify (fun d =>
             with_inverse_dependency_graph
               (<[src := default [] (inverse_dependency_graph_ d !! src) ++ [dest]]>
                  (inverse_dependency_graph_ d)) d))%ctx.

(** The three accessors [MakeState] calls on a subsystem context. *)
Definition collect_state (c : C) : C :=
  Virtual.get_mutable_state (Virtual.get_mutable_state (Virtual.get_mutable_state c)).

(** [MakeState] goes through every element of [contexts_] and
    dereferences it to call its three mutable state accessors.  The
    wrappers it builds over what they return, and the three setters
    inherited from [Context<T>] that install the wrappers in the base
    object, are left out: [state.h], [diagram_continuous_state.h] and
    [context.h] are not among the sources.  No statement of the header
    assigns [state_]. *)
Definition MakeState : M t unit :=
  (cs <- gets contexts_ ;;
   cs' <- map_M (fun c : option C => c' <- defined c ;; ret (Some (collect_state c'))) cs ;;
   modify (with_contexts cs'))%ctx.

Definition set_time (time_sec : T) (d : t) : t :=
  let d' := with_super (Context.set_time time_sec (super d)) d in
  with_contexts
    (map (fun subcontext : option C =>
            match subcontext with
            | Some c => Some (Virtual.set_time time_sec c)
            | None => None
            end) (contexts_ d')) d'.

Definition get_time (d : t) : T := Context.get_time (super d).

Definition PropagateInvalidOutputs (system_index port_index : Z) : M t unit :=
  ret tt.

Definition get_num_input_ports (d : t) : Z := Z.of_nat (length (input_ids_ d)).

Definition get_num_output_ports (d : t) : Z := Z.of_nat (length (output_ids_ d)).

Definition DoSetInputPort (index : Z) (port : InputPort V) : M t unit :=
  (id <- (fun d => defined (vec_at (input_ids_ d) index) d) ;;
   let system_index := id.1 in
   let port_index := id.2 in
   _ <- GetMutableSubsystemContext system_index ;;
   call_subsystem system_index (Virtual.SetInputPort port_index port))%ctx.

(** Modelled from the spec: [SetInputPort] inherited from [Context<T>];
    it validates the index and dispatches to [DoSetInputPort]. *)
Definition SetInputPort (index : Z) (port : InputPort V) : M t unit :=
  (n <- gets get_num_input_ports ;;
   DRAKE_DEMAND ((0 <=? index) && (index <? n)) ;;;
   DoSetInputPort index port)%ctx.

(** Modelled from the spec: the back-pointer and the mutable state
    accessors that a diagram context inherits from [Context<T>]. *)
Definition set_parent_and_index (parent : addr) (index : SystemIndex) (d : t) : t :=
  with_super (Context.set_parent_and_index parent index (super d)) d.

Definition get_mutable_state (d : t) : t :=
  with_super (Context.get_mutable_state (super d)) d.

(** Order of [std::pair<int, int>], the key order of [std::map]. *)
Definition PortIdentifier_le (a b : PortIdentifier) : Prop :=
  a.1 < b.1 \/ (a.1 = b.1 /\ a.2 <= b.2).

#[local] Instance PortIdentifier_le_dec a b : Decision (PortIdentifier_le a b).
Proof. unfold PortIdentifier_le. apply _. Defined.

(** The connections of [dependency_graph_] in iteration order. *)
Definition connections (d : t) : list (PortIdentifier * PortIdentifier) :=
  merge_sort (fun x y => PortIdentifier_le x.1 y.1) (map_to_list (dependency_graph_ d)).

(** What a pointer held by a subsystem of [d] refers to: a port of one
    of the output sets of [d], or something outside of [d]. *)
Definition resolve (env : resolver V) (d : t) : resolver V :=
  fun p =>
    if bool_decide (ptr_owner p = this d) then
      match vec_at (outputs_ d) (ptr_system p) with
      | Some (Some o) => port_data <$> vec_at o (ptr_port p)
      | _ => None
      end
    else env p.

(** One round of the first loop of [DoClone]. *)
Definition clone_subsystem (env : resolver V) (d : t) (clone : t) (i : Z)
  : M (Mem V) t :=
  (c <- defined (vec_at (contexts_ d) i) ;;
   c <- DRAKE_DEMAND_nonnull c ;;
   o <- defined (vec_at (outputs_ d) i) ;;
   o <- DRAKE_DEMAND_nonnull o ;;
   c' <- Virtual.Clone (resolve env d) c ;;
   r <- run_on clone (AddSystem i c' (SystemOutput_Clone o)) ;;
   ret r.2)%ctx.

Definition DoClone (env : resolver V) (d : t) : M (Mem V) t :=
  (self <- new_object ;;
   let clone := create self (num_subsystems d) in
   (* Clone all the subsystem contexts and outputs. *)
   clone <- fold_M (clone_subsystem env d) clone (seqZ 0 (num_subsystems d)) ;;
   (* Build a superstate over the subsystem contexts. *)
   r <- run_on clone MakeState ;;
   (* Clone the internal graph structure. *)
   clone <- fold_M (fun clone connection =>
                     let src := connection.2 in
                     let dest := connection.1 in
                     r <- run_on clone (Connect src dest) ;; ret r.2)
                  r.2 (connections d) ;;
   (* Clone the external input structure. *)
   clone <- fold_M (fun clone id => r <- run_on clone (ExportInput id) ;; ret r.2)
                  clone (input_ids_ d) ;;
   ret clone)%ctx.

End diagram.
Arguments t T V C : clear implicits.

#[global] Instance virtual {T} `{Scalar T} {V} {C} `{Virtual.Context T V C}
  : Virtual.Context T V (t T V C) := {
  Virtual.get_time := get_time;
  Virtual.set_time := set_time;
  Virtual.get_num_input_ports := get_num_input_ports;
  Virtual.SetInputPort := SetInputPort;
  Virtual.set_parent_and_index := set_parent_and_index;
  Virtual.get_parent := fun d => Context.parent_ (super d);
  Virtual.get_mutable_state := get_mutable_state;
  Virtual.Clone := DoClone
}.
End DiagramContext.

(** *** Output freshness and input ports of a diagram context *)

(** [DRAKE_ASSERT] is a [DRAKE_DEMAND] in builds where assertions are armed
    and is not evaluated otherwise. *)
Definition DRAKE_ASSERT {S} (armed : bool) (condition : bool) : M S unit :=
  if armed then DRAKE_DEMAND condition else ret tt.

Module Observers.
(** The freshness operations of [Context<T>] that [DiagramContext] calls
    through a pointer to a subsystem context.  [context.h] is not among
    the sources, so they are taken as operations of the type of subsystem
    contexts. *)
Class Context (C : Type) := {
  MarkOutputPortFresh : Z -> M C unit;
  IsOutputPortFresh : Z -> M C bool
}.

(** The two operations on all output ports at once, which
    [DiagramContext] calls but does not override. *)
Class Evaluation (C : Type) := {
  AreOutputPortsFresh : M C bool;
  MarkOutputPortsFresh : M C unit
}.
End Observers.

Module Inputs.
(** [Context<T>::GetInputPort], the read access to an input port of a
    subsystem context, taken as an operation of the type of subsystem
    contexts for the same reason. *)
Class Context (V : Type) (C : Type) := {
  GetInputPort : Z -> M C (option (InputPort V))
}.
End Inputs.

Module DiagramContextPorts.
Section ports.
Context {T : Type} `{Scalar T} {V : Type}.
Context {C : Type} `{Virtual.Context T V C}.
Context `{Observers.Context C} `{Observers.Evaluation C} `{Inputs.Context V C}.

(** Whether [DRAKE_ASSERT] is armed in this build. *)
Variable armed : bool.

Abbreviation t := (DiagramContext.t T V C).

Definition output_ids_at (index : Z) : M t PortIdentifier :=
  fun d => defined (vec_at (DiagramContext.output_ids_ d) index) d.

Definition input_ids_at (index : Z) : M t PortIdentifier :=
  fun d => defined (vec_at (DiagramContext.input_ids_ d) index) d.

Definition MarkOutputPortFresh (port_index : Z) : M t unit :=
  (n <- gets DiagramContext.get_num_output_ports ;;
   DRAKE_ASSERT armed ((0 <=? port_index) && (port_index <? n)) ;;;
   id <- output_ids_at port_index ;;
   let subsystem_index := id.1 in
   let subsystem_port_index := id.2 in
   DiagramContext.call_subsystem subsystem_index
     (Observers.MarkOutputPortFresh subsystem_port_index))%ctx.

(** The message written to the log is left out. *)
Definition IsOutputPortFresh (port_index : Z) : M t bool :=
  (n <- gets DiagramContext.get_num_output_ports ;;
   DRAKE_ASSERT armed ((0 <=? port_index) && (port_index <? n)) ;;;
   id <- output_ids_at port_index ;;
   let subsystem_index := id.1 in
   let subsystem_port_index := id.2 in
   DiagramContext.call_subsystem subsystem_index
     (Observers.IsOutputPortFresh subsystem_port_index))%ctx.

Definition IsEvaluationFresh (index : SystemIndex) : M t bool :=
  (n <- gets DiagramContext.num_subsystems ;;
   DRAKE_ASSERT armed ((0 <=? index) && (index <? n)) ;;;
   _ <- DiagramContext.GetSubsystemContext index ;;
   DiagramContext.call_subsystem index Observers.AreOutputPortsFresh)%ctx.

Definition MarkEvaluationFresh (index : SystemIndex) : M t unit :=
  (n <- gets DiagramContext.num_subsystems ;;
   DRAKE_ASSERT armed ((0 <=? index) && (index <? n)) ;;;
   _ <- DiagramContext.GetSubsystemContext index ;;
   DiagramContext.call_subsystem index Observers.MarkOutputPortsFresh)%ctx.

Definition GetInputPort (index : Z) : M t (option (InputPort V)) :=
  (n <- gets DiagramContext.get_num_input_ports ;;
   DRAKE_ASSERT armed ((0 <=? index) && (index <? n)) ;;;
   id <- input_ids_at index ;;
   let system_index := id.1 in
   let port_index := id.2 in
   _ <- DiagramContext.GetSubsystemContext system_index ;;
   DiagramContext.call_subsystem system_index (Inputs.GetInputPort port_index))%ctx.

(** The freshness operations of a diagram context that is itself a
    subsystem: the two overrides above. *)
Definition observers : Observers.Context t := {|
  Observers.MarkOutputPortFresh := MarkOutputPortFresh;
  Observers.IsOutputPortFresh := IsOutputPortFresh
|}.

End ports.
End DiagramContextPorts.

(** *** Input ports of a leaf context *)

Module ContextPorts.
Section leaf.
Context {T : Type} `{Scalar T} {V : Type}.

(** Modelled from the spec: the input port of a leaf context at [index],
    null when nothing is connected there; a port that does not exist is
    a precondition violation. *)
Definition GetInputPort (index : Z) : M (Context.t T V) (option (InputPort V)) :=
  (n <- gets Context.get_num_input_ports ;;
   DRAKE_DEMAND ((0 <=? index) && (index <? n)) ;;;
   (fun c => defined (vec_at (Context.inputs_ c) index) c))%ctx.

End leaf.

#[global] Instance inputs {T} `{Scalar T} {V} : Inputs.Context V (Context.t T V) := {
  Inputs.GetInputPort := GetInputPort
}.
End ContextPorts.

(** *** Concrete contexts and caches *)

#[global] Instance Z_scalar : Scalar Z := {| scalar_zero := 0 |}.

Module Scenario.

Definition heap0 : Cache.Heap Z := Cache.mkHeap ∅ 0%nat.

Definition mem0 : Mem Z := mkMem 100%nat heap0.

(** The cache of the fixture of [cache_test.cc], with values 0, 1, 2. *)
Definition fixture : Cache.fixture (V := Z) :=
  match Cache.SetUp heap0 Cache.empty 0 1 2 with
  | Cache.Ok f => f
  | Cache.Err _ => Cache.mkFixture heap0 Cache.empty 0%nat 0%nat 0%nat
  end.

(** A leaf context with two inputs, and an output set with two ports. *)
Definition leaf : Context.t Z Z := Context.create 2.

Definition outputs : SystemOutput Z := [mkOutputPort 10; mkOutputPort 11].

(** A diagram context of two leaves: output 1 of subsystem 0 feeds input
    0 of subsystem 1; input 0 of subsystem 0 and output 1 of subsystem 1
    are exported. *)
Definition build_exported : M (DiagramContext.t Z Z (Context.t Z Z)) unit :=
  (DiagramContext.AddSystem 0 leaf outputs ;;;
   DiagramContext.AddSystem 1 leaf outputs ;;;
   DiagramContext.Connect (0, 1) (1, 0) ;;;
   DiagramContext.ExportInput (0, 0) ;;;
   DiagramContext.ExportOutput (1, 1))%ctx.

Definition exported : DiagramContext.t Z Z (Context.t Z Z) :=
  match build_exported (DiagramContext.create 7%nat 2) with
  | Done _ d => d
  | _ => DiagramContext.create 7%nat 2
  end.

(** A diagram context of two diagram contexts of two leaves each. *)
Definition inner (self : nat) : DiagramContext.t Z Z (Context.t Z Z) :=
  match (DiagramContext.AddSystem 0 leaf outputs ;;;
         DiagramContext.AddSystem 1 leaf outputs)%ctx (DiagramContext.create self 2) with
  | Done _ d => d
  | _ => DiagramContext.create self 2
  end.

Definition nested : DiagramContext.t Z Z (DiagramContext.t Z Z (Context.t Z Z)) :=
  match (DiagramContext.AddSystem 0 (inner 8) [] ;;;
         DiagramContext.AddSystem 1 (inner 9) [])%ctx (DiagramContext.create 7%nat 2) with
  | Done _ d => d
  | _ => DiagramContext.create 7%nat 2
  end.

(** A leaf with one input and a cache ticket that depends on the ticket
    of that input. *)
Definition user_ticket : nat := 3%nat.

Definition consumer : Context.t Z Z :=
  let c := Context.create 1 in
  match Cache.make_ticket (Context.cache_ c) (Context.input_tickets_ c) with
  | Cache.Ok r => Context.with_cache r.2 c
  | Cache.Err _ => c
  end.

(** The computation of the consumer: it stores a value at its ticket. *)
Definition compute (c : Context.t Z Z) : Context.t Z Z :=
  match Cache.set heap0 (Context.cache_ c) user_ticket 5 with
  | Cache.Ok r => Context.with_cache r.2 c
  | Cache.Err _ => c
  end.

(** A diagram context in which output 0 of subsystem 0 feeds input 0 of
    the consumer, after the consumer has computed. *)
Definition build_wired : M (DiagramContext.t Z Z (Context.t Z Z)) unit :=
  (DiagramContext.AddSystem 0 leaf outputs ;;;
   DiagramContext.AddSystem 1 consumer outputs ;;;
   DiagramContext.Connect (0, 0) (1, 0) ;;;
   DiagramContext.call_subsystem 1 (modify compute))%ctx.

Definition wired : DiagramContext.t Z Z (Context.t Z Z) :=
  match build_wired (DiagramContext.create 7%nat 2) with
  | Done _ d => d
  | _ => DiagramContext.create 7%nat 2
  end.

End Scenario.

(** The state and the value an operation ends with. *)
Definition state_of {S A} (default : S) (o : outcome S A) : S :=
  match o with
  | Done _ s => s
  | Aborted s => s
  | Undefined => default
  end.

Definition value_of {S A} (default : A) (o : outcome S A) : A :=
  match o with
  | Done a _ => a
  | _ => default
  end.

Module Construction.

(** A diagram context with three slots of which only slot 0 is filled. *)
Definition partial : DiagramContext.t Z Z (Context.t Z Z) :=
  state_of (DiagramContext.create 7%nat 3)
    (DiagramContext.AddSystem 0 Scenario.leaf Scenario.outputs (DiagramContext.create 7%nat 3)).

(** A diagram context that exports input 99 of its only leaf, which has
    two inputs. *)
Definition misexported : DiagramContext.t Z Z (Context.t Z Z) :=
  state_of (DiagramContext.create 9%nat 1)
    ((DiagramContext.AddSystem 0 Scenario.leaf Scenario.outputs ;;;
      DiagramContext.ExportInput (0, 99))%ctx (DiagramContext.create 9%nat 1)).

(** A diagram context of two diagram contexts, [Scenario.inner] and
    [misexported]. *)
Definition outer : DiagramContext.t Z Z (DiagramContext.t Z Z (Context.t Z Z)) :=
  state_of (DiagramContext.create 7%nat 2)
    ((DiagramContext.AddSystem 0 (Scenario.inner 8) Scenario.outputs ;;;
      DiagramContext.AddSystem 1 misexported Scenario.outputs)%ctx
       (DiagramContext.create 7%nat 2)).

End Construction.

Module Nested.

(** With no leaf system at hand, the subsystems of an innermost diagram
    context range over the empty type, and its slots stay free. *)
#[global] Instance no_leaf {T V : Type} : Virtual.Context T V Empty_set := {
  Virtual.get_time := fun c => match c return T with end;
  Virtual.set_time := fun _ c => c;
  Virtual.get_num_input_ports := fun c => match c return Z with end;
  Virtual.SetInputPort := fun _ _ c => match c return outcome Empty_set unit with end;
  Virtual.set_parent_and_index := fun _ _ c => c;
  Virtual.get_parent := fun c => match c return option (addr * Z) with end;
  Virtual.get_mutable_state := fun c => c;
  Virtual.Clone := fun _ c => match c return M (Mem V) Empty_set with end
}.

#[global] Instance no_leaf_observers : Observers.Context Empty_set := {
  Observers.MarkOutputPortFresh := fun _ c => match c return outcome Empty_set unit with end;
  Observers.IsOutputPortFresh := fun _ c => match c return outcome Empty_set bool with end
}.

#[global] Instance no_leaf_evaluation : Observers.Evaluation Empty_set := {
  Observers.AreOutputPortsFresh := fun c => match c return outcome Empty_set bool with end;
  Observers.MarkOutputPortsFresh := fun c => match c return outcome Empty_set unit with end
}.

(** A diagram context as a subsystem, in a build with armed
    assertions. *)
#[global] Instance observers {T} `{Scalar T} {V C} `{Virtual.Context T V C}
  `{Observers.Context C} : Observers.Context (DiagramContext.t T V C) :=
  DiagramContextPorts.observers true.

(** A diagram context with three free slots. *)
Definition hollow : DiagramContext.t Z Z Empty_set := DiagramContext.create 7%nat 3.

(** A diagram context without subsystems. *)
Definition inner (self : nat) : DiagramContext.t Z Z Empty_set :=
  DiagramContext.create self 0.

(** A diagram context of two such diagram contexts that exports output 1
    of subsystem 1. *)
Definition exported : DiagramContext.t Z Z (DiagramContext.t Z Z Empty_set) :=
  state_of (DiagramContext.create 7%nat 2)
    ((DiagramContext.AddSystem 0 (inner 8) Scenario.outputs ;;;
      DiagramContext.AddSystem 1 (inner 9) Scenario.outputs ;;;
      DiagramContext.ExportOutput (1, 1))%ctx (DiagramContext.create 7%nat 2)).

End Nested.

(** ** Part II: properties *)

(** *** The cache *)

Section cache_facts.
Context {V : Type}.
Implicit Types (c : Cache.t) (h : Cache.Heap V) (e : Cache.CacheEntry).
Implicit Types (ticket d : Cache.CacheTicket) (l : nat).

Lemma invalidated_refl e : Cache.invalidated e e.
Proof. by left. Qed.

Lemma invalidated_trans e1 e2 e3 :
  Cache.invalidated e1 e2 -> Cache.invalidated e2 e3 -> Cache.invalidated e1 e3.
Proof.
  intros [->| ->] [->| ->]; unfold Cache.invalidated; auto.
Qed.

Lemma invalidated_dependents e e' :
  Cache.invalidated e e' -> Cache.dependents e' = Cache.dependents e.
Proof. by intros [->| ->]. Qed.

Lemma Forall2_invalidated_refl c : Forall2 Cache.invalidated c c.
Proof. apply Forall2_same_length_lookup_2; [done|]. intros i x y ? ?. simplify_eq. by left. Qed.

Lemma Forall2_invalidated_trans c1 c2 c3 :
  Forall2 Cache.invalidated c1 c2 -> Forall2 Cache.invalidated c2 c3 ->
  Forall2 Cache.invalidated c1 c3.
Proof.
  intros H12 H23. eapply Forall2_trans; [|done..].
  intros x y z; apply invalidated_trans.
Qed.

Lemma alter_mark_invalidated c ticket :
  Forall2 Cache.invalidated c (alter Cache.mark_invalid ticket c).
Proof.
  apply Forall2_same_length_lookup_2; [by rewrite length_alter|].
  intros i x y Hx Hy. destruct (decide (ticket = i)) as [->|Hne].
  - rewrite list_lookup_alter_eq, Hx in Hy. simplify_eq/=. by right.
  - rewrite list_lookup_alter_ne in Hy by done. simplify_eq. by left.
Qed.

Lemma invalidate_recursively_invalidated fuel :
  forall ts c, Forall2 Cache.invalidated c (Cache.invalidate_recursively fuel ts c).
Proof.
  induction fuel as [|fuel IH]; intros ts c; simpl.
  - apply Forall2_invalidated_refl.
  - revert c. induction ts as [|a ts IHts]; intros c; simpl.
    + apply Forall2_invalidated_refl.
    + eapply Forall2_invalidated_trans; [|apply IHts].
      eapply Forall2_invalidated_trans; [apply alter_mark_invalidated|apply IH].
Qed.

Lemma invalidated_dependents_of c c' ticket :
  Forall2 Cache.invalidated c c' -> Cache.dependents_of c' ticket = Cache.dependents_of c ticket.
Proof.
  intros HF. unfold Cache.dependents_of.
  destruct (c !! ticket) as [e|] eqn:He.
  - destruct (Forall2_lookup_l _ _ _ _ _ HF He) as (e' & -> & Hi).
    by apply invalidated_dependents.
  - apply lookup_ge_None in He. rewrite (Forall2_length _ _ _ HF) in He.
    apply lookup_ge_None in He. by rewrite He.
Qed.

Lemma invalidated_reach c c' a b :
  Forall2 Cache.invalidated c c' -> Cache.reach c a b -> Cache.reach c' a b.
Proof.
  intros HF. induction 1 as [|a d b Hd _ IH]; [constructor|].
  eapply Cache.reach_step; [|done]. by rewrite (invalidated_dependents_of c c').
Qed.

Lemma invalidated_reach_inv c c' a b :
  Forall2 Cache.invalidated c c' -> Cache.reach c' a b -> Cache.reach c a b.
Proof.
  intros HF. induction 1 as [|a d b Hd _ IH]; [constructor|].
  eapply Cache.reach_step; [|done]. by rewrite <-(invalidated_dependents_of c c').
Qed.

Lemma invalidated_dag c c' :
  Forall2 Cache.invalidated c c' -> Cache.dag c -> Cache.dag c'.
Proof.
  intros HF Hd ticket e' He'.
  destruct (Forall2_lookup_r _ _ _ _ _ HF He') as (e & He & Hi).
  rewrite (invalidated_dependents _ _ Hi), <-(Forall2_length _ _ _ HF). eauto.
Qed.

Lemma invalidated_invalid_at c c' ticket :
  Forall2 Cache.invalidated c c' -> Cache.invalid_at c ticket -> Cache.invalid_at c' ticket.
Proof.
  intros HF (e & He & Hv).
  destruct (Forall2_lookup_l _ _ _ _ _ HF He) as (e' & He' & [->| ->]);
    (eexists; split; [done|done]).
Qed.

Lemma dependents_of_bound c ticket d :
  Cache.dag c -> d ∈ Cache.dependents_of c ticket -> (ticket < d < length c)%nat.
Proof.
  intros Hd. unfold Cache.dependents_of.
  destruct (c !! ticket) as [e|] eqn:He; [|by intros ?%elem_of_nil].
  intros Hin. specialize (Hd _ _ He). rewrite Forall_forall in Hd. by apply Hd.
Qed.

(** Every ticket reachable from one of [ts] is invalid after the walk,
    given fuel for the longest path. *)
Lemma invalidate_recursively_sound fuel :
  forall ts c b,
    Cache.dag c ->
    (forall a, a ∈ ts -> (a < length c /\ length c - a <= fuel)%nat) ->
    (exists a, a ∈ ts /\ Cache.reach c a b) ->
    Cache.invalid_at (Cache.invalidate_recursively fuel ts c) b.
Proof.
  induction fuel as [|fuel IH]; intros ts c b Hdag Hts (a & Ha & Hr).
  { destruct (Hts a Ha). lia. }
  simpl. revert c Hdag Hts a Ha Hr.
  induction ts as [|x ts IHts]; intros c Hdag Hts a Ha Hr; [by apply elem_of_nil in Ha|].
  simpl.
  set (c1 := alter Cache.mark_invalid x c).
  set (c2 := Cache.invalidate_recursively fuel (Cache.dependents_of c x) c1).
  assert (H1 : Forall2 Cache.invalidated c c1) by apply alter_mark_invalidated.
  assert (H2 : Forall2 Cache.invalidated c1 c2) by apply invalidate_recursively_invalidated.
  assert (H12 : Forall2 Cache.invalidated c c2) by (by eapply Forall2_invalidated_trans).
  assert (Hrest : forall y, Cache.invalid_at c2 y ->
            Cache.invalid_at
              (foldl (fun acc ticket =>
                 Cache.invalidate_recursively fuel (Cache.dependents_of acc ticket)
                   (alter Cache.mark_invalid ticket acc)) c2 ts) y).
  { intros y. apply invalidated_invalid_at.
    apply (invalidate_recursively_invalidated (S fuel) ts c2). }
  apply elem_of_cons in Ha as [->|Ha].
  - apply Hrest. destruct (Hts x) as [Hx Hfx]; [by left|].
    inversion Hr as [|? d ? Hd Hr']; subst.
    + apply (invalidated_invalid_at c1); [done|].
      destruct (lookup_lt_is_Some_2 c b Hx) as [e He].
      exists (Cache.mark_invalid e). split; [|done].
      unfold c1. by rewrite list_lookup_alter_eq, He.
    + apply IH.
      * by apply (invalidated_dag c).
      * intros y Hy. apply dependents_of_bound in Hy; [|done].
        unfold c1. rewrite length_alter. lia.
      * exists d. split; [done|].
        by apply (invalidated_reach c).
  - apply (IHts c2) with (a := a).
    + by apply (invalidated_dag c).
    + intros y Hy. rewrite <-(Forall2_length _ _ _ H12). apply Hts. by right.
    + done.
    + by apply (invalidated_reach c).
Qed.

(** A ticket that no member of [ts] reaches keeps its entry. *)
Lemma invalidate_recursively_frame fuel :
  forall ts c b,
    (forall a, a ∈ ts -> ~ Cache.reach c a b) ->
    Cache.invalidate_recursively fuel ts c !! b = c !! b.
Proof.
  induction fuel as [|fuel IH]; intros ts c b Hts; [done|].
  simpl. revert c Hts.
  induction ts as [|x ts IHts]; intros c Hts; [done|].
  simpl.
  set (c1 := alter Cache.mark_invalid x c).
  set (c2 := Cache.invalidate_recursively fuel (Cache.dependents_of c x) c1).
  assert (H1 : Forall2 Cache.invalidated c c1) by apply alter_mark_invalidated.
  assert (H2 : Forall2 Cache.invalidated c1 c2) by apply invalidate_recursively_invalidated.
  assert (H12 : Forall2 Cache.invalidated c c2) by (by eapply Forall2_invalidated_trans).
  rewrite IHts.
  - unfold c2. rewrite IH.
    + unfold c1. apply list_lookup_alter_ne. intros ->.
      apply (Hts b); [by left|constructor].
    + intros a Ha Hr. apply (Hts x); [by left|].
      eapply Cache.reach_step; [|by apply (invalidated_reach_inv c c1)]. done.
  - intros a Ha Hr. apply (Hts a); [by right|].
    by apply (invalidated_reach_inv c c2).
Qed.

Lemma dependents_of_edges c ticket :
  Cache.dependents_of c ticket = default [] (Cache.edges c !! ticket).
Proof.
  unfold Cache.dependents_of, Cache.edges. rewrite list_lookup_fmap.
  by destruct (c !! ticket).
Qed.

Lemma edges_reach c c' a b :
  Cache.edges c = Cache.edges c' -> Cache.reach c a b -> Cache.reach c' a b.
Proof.
  intros HE. induction 1 as [|a d b Hd _ IH]; [constructor|].
  eapply Cache.reach_step; [|done].
  by rewrite dependents_of_edges, <-HE, <-dependents_of_edges.
Qed.

Lemma edges_dag c c' :
  Cache.edges c = Cache.edges c' -> Cache.dag c -> Cache.dag c'.
Proof.
  intros HE Hd ticket e' He'.
  assert (Hl : length c = length c').
  { apply (f_equal length) in HE. unfold Cache.edges in HE.
    by rewrite !length_fmap in HE. }
  assert (Cache.edges c' !! ticket = Some (Cache.dependents e')) as Hk.
  { unfold Cache.edges. by rewrite list_lookup_fmap, He'. }
  rewrite <-HE in Hk. unfold Cache.edges in Hk.
  rewrite list_lookup_fmap in Hk.
  destruct (c !! ticket) as [e|] eqn:He; [|done].
  injection Hk as Hk. rewrite <-Hl, <-Hk. eauto.
Qed.

Lemma edges_insert c ticket e e' :
  c !! ticket = Some e -> Cache.dependents e' = Cache.dependents e ->
  Cache.edges (<[ticket := e']> c) = Cache.edges c.
Proof.
  intros He Hd. unfold Cache.edges. rewrite list_fmap_insert, Hd.
  apply list_insert_id. by rewrite list_lookup_fmap, He.
Qed.

Lemma edges_invalidated c c' :
  Forall2 Cache.invalidated c c' -> Cache.edges c' = Cache.edges c.
Proof.
  unfold Cache.edges. induction 1 as [|e e' c c' Hi _ IH]; [done|].
  by rewrite !fmap_cons, IH, (invalidated_dependents _ _ Hi).
Qed.

Lemma reach_le c a b : Cache.dag c -> Cache.reach c a b -> (a <= b)%nat.
Proof.
  intros Hd. induction 1 as [|a d b Hin _ IH]; [done|].
  apply dependents_of_bound in Hin; [lia|done].
Qed.

Lemma invalid_at_get c ticket : Cache.invalid_at c ticket -> Cache.get c ticket = Cache.Ok None.
Proof. intros (e & He & Hv). unfold Cache.get. by rewrite He, Hv. Qed.

(** [invalidate] succeeds on a known ticket and leaves every ticket
    reachable from it invalid. *)
Lemma invalidate_sound c a :
  Cache.dag c -> (a < length c)%nat ->
  exists c', Cache.invalidate c a = Cache.Ok c' /\
    Forall2 Cache.invalidated c c' /\
    (forall b, Cache.reach c a b -> Cache.get c' b = Cache.Ok None) /\
    (forall b, ~ Cache.reach c a b -> c' !! b = c !! b).
Proof.
  intros Hd Ha. unfold Cache.invalidate, Cache.known.
  rewrite bool_decide_eq_true_2 by done. eexists. split; [done|].
  split; [apply invalidate_recursively_invalidated|]. split.
  - intros b Hr. apply invalid_at_get, invalidate_recursively_sound; [done|..].
    + intros x ->%list_elem_of_singleton. lia.
    + exists a. split; [by left|done].
  - intros b Hr. apply invalidate_recursively_frame.
    by intros x ->%list_elem_of_singleton.
Qed.

Lemma make_ticket_Ok c prereqs :
  Forall (fun p => p < length c)%nat prereqs ->
  Cache.make_ticket c prereqs =
    Cache.Ok (length c, Cache.add_edges (length c) prereqs c
                        ++ [Cache.mkEntry false None prereqs []]).
Proof.
  intros Hp. unfold Cache.make_ticket.
  assert (forallb (Cache.known c) prereqs = true) as ->; [|done].
  apply forallb_forall. intros p Hin. apply bool_decide_eq_true_2.
  rewrite Forall_forall in Hp. apply Hp. by apply list_elem_of_In.
Qed.

Lemma set_Ok h c ticket e v :
  c !! ticket = Some e ->
  Cache.set h c ticket v =
    Cache.Ok (Cache.next h,
              Cache.mkHeap (<[Cache.next h := v]> (Cache.cells (Cache.release h (Cache.value e))))
                           (S (Cache.next h)),
              <[ticket := Cache.mkEntry true (Some (Cache.next h))
                            (Cache.prerequisites e) (Cache.dependents e)]> c).
Proof.
  intros He. unfold Cache.set. rewrite He. unfold Cache.alloc.
  by destruct (Cache.value e).
Qed.

Lemma alter_fixture {A} (f1 f2 f3 : A -> A) (x y z : A) (l : list A) :
  alter f3 (S (length l))
    (alter f2 (length l) (alter f1 (length l) (l ++ [x]) ++ [y])) ++ [z]
  = l ++ [f2 (f1 x); f3 y; z].
Proof. induction l as [|a l IH]; [done|]. simpl. f_equal. apply IH. Qed.

Lemma lookup_app_0 {A} (l k : list A) x : (l ++ x :: k) !! length l = Some x.
Proof. by induction l. Qed.

Lemma lookup_app_1 {A} (l k : list A) x y : (l ++ x :: y :: k) !! S (length l) = Some y.
Proof. by induction l. Qed.

Lemma lookup_app_2 {A} (l k : list A) x y z :
  (l ++ x :: y :: z :: k) !! S (S (length l)) = Some z.
Proof. by induction l. Qed.

Lemma insert_app_0 {A} (l k : list A) x x' :
  <[length l := x']> (l ++ x :: k) = l ++ x' :: k.
Proof. induction l; [done|]. simpl. by f_equal. Qed.

Lemma insert_app_1 {A} (l k : list A) x y y' :
  <[S (length l) := y']> (l ++ x :: y :: k) = l ++ x :: y' :: k.
Proof. induction l; [done|]. simpl. by f_equal. Qed.

Lemma insert_app_2 {A} (l k : list A) x y z z' :
  <[S (S (length l)) := z']> (l ++ x :: y :: z :: k) = l ++ x :: y :: z' :: k.
Proof. induction l; [done|]. simpl. by f_equal. Qed.

(** The fixture, spelled out: the three new entries follow the entries
    the cache had, and the three values are in new boxes. *)
Lemma SetUp_Ok h c v0 v1 v2 :
  let n := length c in
  let l := Cache.next h in
  Cache.SetUp h c v0 v1 v2 =
    Cache.Ok (Cache.mkFixture
      (Cache.mkHeap (<[S (S l) := v2]> (<[S l := v1]> (<[l := v0]> (Cache.cells h))))
                    (S (S (S l))))
      (c ++ [Cache.mkEntry true (Some l) [] [S n; S (S n)];
             Cache.mkEntry true (Some (S l)) [n] [S (S n)];
             Cache.mkEntry true (Some (S (S l))) [n; S n] []])
      n (S n) (S (S n))).
Proof.
  intros n l. unfold Cache.SetUp.
  rewrite make_ticket_Ok by constructor. cbn [Cache.rbind fst snd Cache.add_edges foldl].
  rewrite make_ticket_Ok by (repeat constructor; rewrite length_app; simpl; lia).
  cbn [Cache.rbind fst snd Cache.add_edges foldl].
  rewrite make_ticket_Ok
    by (repeat constructor; rewrite !length_app, ?length_alter, ?length_app; simpl; lia).
  cbn [Cache.rbind fst snd Cache.add_edges foldl].
  rewrite !length_app, !length_alter, !length_app. cbn [length].
  replace (length c + 1)%nat with (S n) by (unfold n; lia).
  replace (S n + 1)%nat with (S (S n)) by lia.
  subst n l. rewrite alter_fixture. cbn [Cache.add_dependent Cache.is_valid
    Cache.value Cache.prerequisites Cache.dependents app].
  erewrite set_Ok by apply lookup_app_0.
  cbn [Cache.rbind fst snd Cache.release Cache.value Cache.prerequisites Cache.dependents
       Cache.next Cache.cells].
  erewrite set_Ok by (rewrite insert_app_0; apply lookup_app_1).
  cbn [Cache.rbind fst snd Cache.release Cache.value Cache.prerequisites Cache.dependents
       Cache.next Cache.cells].
  erewrite set_Ok by (rewrite insert_app_0, insert_app_1; apply lookup_app_2).
  cbn [Cache.rbind fst snd Cache.release Cache.value Cache.prerequisites Cache.dependents
       Cache.next Cache.cells].
  by rewrite insert_app_0, insert_app_1, insert_app_2.
Qed.

Lemma dag_fixture c e0 e1 e2 :
  Cache.dag c ->
  Forall (fun d => length c < d < length c + 3)%nat (Cache.dependents e0) ->
  Forall (fun d => S (length c) < d < length c + 3)%nat (Cache.dependents e1) ->
  Cache.dependents e2 = [] ->
  Cache.dag (c ++ [e0; e1; e2]).
Proof.
  intros Hd H0 H1 H2 ticket e He. rewrite length_app. cbn [length].
  destruct (decide (ticket < length c)%nat) as [Hlt|Hge].
  - rewrite lookup_app_l in He by done.
    eapply Forall_impl; [by eapply Hd|]. intros d ?; simpl in *. lia.
  - rewrite lookup_app_r in He by lia.
    destruct (ticket - length c)%nat as [|[|[|k]]] eqn:Hk; simplify_eq/=.
    + replace ticket with (length c) by lia. done.
    + replace ticket with (S (length c)) by lia. done.
    + rewrite H2. constructor.
Qed.

Lemma get_value_Some h c ticket e p v :
  c !! ticket = Some e -> Cache.is_valid e = true -> Cache.value e = Some p ->
  Cache.cells h !! p = Some v ->
  Cache.get_value h c ticket = Cache.Ok (Some v).
Proof.
  intros He Hv Hp Hc. unfold Cache.get_value, Cache.get.
  rewrite He, Hv, Hp. simpl. unfold Cache.deref. by rewrite Hc.
Qed.

(** C1. On the fixture built over any well-formed cache: invalidating the
    middle ticket makes [get] absent at every ticket reachable from it,
    the last ticket among them, while the first ticket keeps its value;
    and after the last ticket is set again, a second invalidation of the
    middle ticket makes it absent again. *)
Theorem invalidation_is_recursive h c (v0 v1 v2 v : V) :
  Cache.dag c ->
  exists f c1,
    Cache.SetUp h c v0 v1 v2 = Cache.Ok f /\
    Cache.invalidate (Cache.cache_ f) (Cache.ticket1_ f) = Cache.Ok c1 /\
    Cache.get_value (Cache.heap_ f) c1 (Cache.ticket0_ f) = Cache.Ok (Some v0) /\
    Cache.get c1 (Cache.ticket1_ f) = Cache.Ok None /\
    Cache.reach (Cache.cache_ f) (Cache.ticket1_ f) (Cache.ticket2_ f) /\
    (forall ticket, Cache.reach (Cache.cache_ f) (Cache.ticket1_ f) ticket ->
                    Cache.get c1 ticket = Cache.Ok None) /\
    exists p h2 c2 c3,
      Cache.set (Cache.heap_ f) c1 (Cache.ticket2_ f) v = Cache.Ok (p, h2, c2) /\
      Cache.get_value h2 c2 (Cache.ticket2_ f) = Cache.Ok (Some v) /\
      Cache.invalidate c2 (Cache.ticket1_ f) = Cache.Ok c3 /\
      Cache.get c3 (Cache.ticket2_ f) = Cache.Ok None.
Proof.
  intros Hd. pose proof (SetUp_Ok h c v0 v1 v2) as Hs. cbv zeta in Hs.
  set (n := length c) in *. set (l := Cache.next h) in *.
  match type of Hs with _ = Cache.Ok (Cache.mkFixture ?hx ?cx _ _ _) =>
    set (c0 := cx) in *; set (h0 := hx) in * end.
  assert (Hd0 : Cache.dag c0).
  { apply dag_fixture; [done|..|done]; simpl; repeat constructor; lia. }
  assert (Hlen : length c0 = (n + 3)%nat) by (unfold c0; by rewrite length_app).
  assert (Hr12 : Cache.reach c0 (S n) (S (S n))).
  { eapply Cache.reach_step; [|constructor]. unfold Cache.dependents_of, c0, n.
    rewrite lookup_app_1. simpl. by left. }
  destruct (invalidate_sound c0 (S n) Hd0 ltac:(lia)) as (c1 & Hi1 & Hinv1 & Hs1 & Hf1).
  eexists _, c1. split; [exact Hs|].
  cbn [Cache.cache_ Cache.heap_ Cache.ticket0_ Cache.ticket1_ Cache.ticket2_].
  split; [done|]. split.
  { eapply get_value_Some; [| | |].
    - rewrite Hf1; [unfold c0, n; apply lookup_app_0|].
      intros Hr. apply (reach_le _ _ _ Hd0) in Hr. lia.
    - done.
    - done.
    - simpl. rewrite !lookup_insert_ne by lia. apply lookup_insert_eq. }
  split; [apply Hs1; constructor|]. split; [done|]. split; [done|].
  assert (He2 : exists e2, c1 !! S (S n) = Some e2 /\ Cache.dependents e2 = []) .
  { destruct (Forall2_lookup_l _ _ _ (S (S n)) _ Hinv1 (lookup_app_2 _ _ _ _ _))
      as (e2 & He2 & Hi2).
    exists e2. split; [done|]. by rewrite (invalidated_dependents _ _ Hi2). }
  destruct He2 as (e2 & He2 & Hdep2).
  eexists _, _, _. rewrite (set_Ok _ _ _ _ _ He2).
  set (c2 := <[S (S n) := _]> c1).
  assert (HE2 : Cache.edges c2 = Cache.edges c0).
  { unfold c2. rewrite (edges_insert _ _ e2) by done. by apply edges_invalidated. }
  assert (Hd2 : Cache.dag c2) by (by apply (edges_dag c0)).
  assert (Hlen2 : length c2 = (n + 3)%nat).
  { unfold c2. by rewrite length_insert, <-(Forall2_length _ _ _ Hinv1). }
  destruct (invalidate_sound c2 (S n) Hd2 ltac:(lia)) as (c3 & Hi3 & _ & Hs3 & _).
  exists c3. split; [done|]. split.
  { eapply get_value_Some; [| | |].
    - unfold c2. apply list_lookup_insert_eq.
      rewrite <-(Forall2_length _ _ _ Hinv1). lia.
    - done.
    - done.
    - simpl. apply lookup_insert_eq. }
  split; [done|]. apply Hs3. by apply (edges_reach c0).
Qed.

Lemma swap_Ok h c ticket e v :
  c !! ticket = Some e ->
  Cache.swap h c ticket v =
    Cache.Ok (Cache.value e,
              Cache.mkHeap (<[Cache.next h := v]> (Cache.cells h)) (S (Cache.next h)),
              <[ticket := Cache.mkEntry true (Some (Cache.next h))
                            (Cache.prerequisites e) (Cache.dependents e)]> c).
Proof. intros He. unfold Cache.swap. by rewrite He. Qed.

(** C7. On any cache, for a ticket made without prerequisites: [set]
    stores the value and returns a borrow of it, [get] then leads to that
    value; [swap] hands the box with the previous value to the caller,
    leaves every other entry and every edge as they were, and [get] then
    leads to the new value. *)
Theorem set_get_swap h c (v w : V) :
  exists ticket c1 p h1 c2 q h2 c3,
    Cache.make_ticket c [] = Cache.Ok (ticket, c1) /\
    Cache.set h c1 ticket v = Cache.Ok (p, h1, c2) /\
    Cache.deref h1 p = Some v /\
    Cache.get c2 ticket = Cache.Ok (Some p) /\
    Cache.get_value h1 c2 ticket = Cache.Ok (Some v) /\
    Cache.swap h1 c2 ticket w = Cache.Ok (Some q, h2, c3) /\
    Cache.deref h2 q = Some v /\
    Cache.get c3 ticket <> Cache.Ok (Some q) /\
    Cache.get_value h2 c3 ticket = Cache.Ok (Some w) /\
    (forall ticket', ticket' <> ticket -> c3 !! ticket' = c2 !! ticket') /\
    Cache.edges c3 = Cache.edges c2.
Proof.
  set (l := Cache.next h).
  set (h1 := Cache.mkHeap (<[l := v]> (Cache.cells h)) (S l)).
  set (h2 := Cache.mkHeap (<[S l := w]> (Cache.cells h1)) (S (S l))).
  exists (length c), (c ++ [Cache.mkEntry false None [] []]),
    l, h1, (c ++ [Cache.mkEntry true (Some l) [] []]),
    l, h2, (c ++ [Cache.mkEntry true (Some (S l)) [] []]).
  split; [by apply make_ticket_Ok|].
  split.
  { erewrite set_Ok by apply lookup_app_0. by rewrite insert_app_0. }
  split; [apply lookup_insert_eq|].
  split; [unfold Cache.get; by rewrite lookup_app_0|].
  split.
  { eapply get_value_Some; [apply lookup_app_0|done|done|apply lookup_insert_eq]. }
  split.
  { erewrite swap_Ok by apply lookup_app_0. by rewrite insert_app_0. }
  split.
  { unfold Cache.deref; simpl. rewrite lookup_insert_ne by lia. apply lookup_insert_eq. }
  split; [unfold Cache.get; rewrite lookup_app_0; simpl; intros [=]; lia|].
  split.
  { eapply get_value_Some; [apply lookup_app_0|done|done|apply lookup_insert_eq]. }
  split.
  - intros ticket' Hne.
    destruct (decide (ticket' < length c)%nat).
    + by rewrite !lookup_app_l by done.
    + rewrite !lookup_app_r by lia.
      destruct (ticket' - length c)%nat eqn:?; [lia|done].
  - unfold Cache.edges. by rewrite !fmap_app.
Qed.

(** Invalidation keeps, ticket by ticket, the box an entry holds. *)
Lemma invalidated_held_at c c' ticket l :
  Forall2 Cache.invalidated c c' -> Cache.held_at c' ticket l <-> Cache.held_at c ticket l.
Proof.
  intros HF. split; intros (e & He & Hv).
  - destruct (Forall2_lookup_r _ _ _ _ _ HF He) as (e0 & He0 & [->| ->]); by exists e0.
  - destruct (Forall2_lookup_l _ _ _ _ _ HF He) as (e0 & He0 & [->| ->]); by eexists.
Qed.

Lemma add_edges_value ticket prereqs :
  forall c, Forall2 (fun e e' => Cache.value e' = Cache.value e /\
                                 Cache.is_valid e' = Cache.is_valid e /\
                                 Cache.prerequisites e' = Cache.prerequisites e)
                    c (Cache.add_edges ticket prereqs c).
Proof.
  set (R := fun e e' => _).
  induction prereqs as [|p ps IH]; intros c; simpl.
  - apply Forall2_same_length_lookup_2; [done|]. intros i x y ? ?. by simplify_eq.
  - apply (Forall2_trans R R R) with (k := alter (Cache.add_dependent ticket) p c);
      [|  |apply IH].
    { intros x y z (?&?&?) (?&?&?). repeat split; congruence. }
    apply Forall2_same_length_lookup_2; [by rewrite length_alter|].
    intros i x y Hx Hy. destruct (decide (p = i)) as [->|Hne].
    + rewrite list_lookup_alter_eq, Hx in Hy. by simplify_eq/=.
    + rewrite list_lookup_alter_ne in Hy by done. by simplify_eq.
Qed.

Lemma make_ticket_held_at c prereqs ticket c' ticket' l :
  Cache.make_ticket c prereqs = Cache.Ok (ticket, c') ->
  Cache.held_at c' ticket' l <-> Cache.held_at c ticket' l.
Proof.
  unfold Cache.make_ticket. destruct (forallb _ _); [|done]. intros [= <- <-].
  pose proof (add_edges_value (length c) prereqs c) as HF.
  pose proof (Forall2_length _ _ _ HF) as Hlen.
  split; intros (e & He & Hv).
  - destruct (decide (ticket' < length c)%nat) as [Hlt|Hge].
    + rewrite lookup_app_l in He by lia.
      destruct (Forall2_lookup_r _ _ _ _ _ HF He) as (e0 & He0 & Hv0 & _).
      exists e0. split; [done|congruence].
    + rewrite lookup_app_r in He by lia.
      destruct (ticket' - _)%nat; simplify_eq/=.
  - destruct (Forall2_lookup_l _ _ _ _ _ HF He) as (e0 & He0 & Hv0 & _).
    exists e0. split; [|congruence].
    rewrite lookup_app_l; [done|]. by eapply lookup_lt_Some.
Qed.

Lemma insert_held_at c ticket e0 l0 ticket' l :
  (ticket < length c)%nat -> Cache.value e0 = Some l0 ->
  Cache.held_at (<[ticket := e0]> c) ticket' l <->
    (ticket' = ticket /\ l = l0) \/ (ticket' <> ticket /\ Cache.held_at c ticket' l).
Proof.
  intros Hlt Hv0. unfold Cache.held_at. destruct (decide (ticket = ticket')) as [<-|Hne].
  - rewrite list_lookup_insert_eq by done. split.
    + intros (e & [= <-] & Hv). left. split; [done|congruence].
    + intros [[_ ->]|[? _]]; [|done]. by exists e0.
  - rewrite list_lookup_insert_ne by done. split; [|intros [[? _]|[_ ?]]; done].
    intros ?. right. by split.
Qed.

Lemma wf_held_lt h c ticket l : Cache.wf h c -> Cache.held_at c ticket l -> (l < Cache.next h)%nat.
Proof. intros [H1 _]. apply H1. Qed.

Lemma wf_insert h c ticket e0 :
  (ticket < length c)%nat -> Cache.value e0 = Some (Cache.next h) -> Cache.wf h c ->
  forall cells' : gmap nat V, Cache.wf (Cache.mkHeap cells' (S (Cache.next h))) (<[ticket := e0]> c).
Proof.
  intros Hlt Hv0 [Hb Hi] cells'. split; cbn [Cache.next].
  - intros ticket' l. rewrite insert_held_at by done.
    intros [[_ ->]|[_ Hh]]; [lia|]. apply Hb in Hh. lia.
  - intros t1 t2 l. rewrite !insert_held_at by done.
    intros [[-> ->]|[? H1]] [[-> ?]|[? H2]]; try done.
    + apply Hb in H2. lia.
    + apply Hb in H1. lia.
    + by eapply Hi.
Qed.

Lemma wf_held_at_iff h c c' :
  (forall ticket l, Cache.held_at c' ticket l <-> Cache.held_at c ticket l) ->
  Cache.wf h c -> Cache.wf h c'.
Proof.
  intros Hiff [Hb Hi]. split.
  - intros ticket l ?%Hiff. eauto.
  - intros t1 t2 l ?%Hiff ?%Hiff. eauto.
Qed.

Local Ltac same_state :=
  split; [done|]; split; [by auto|]; split; [by auto|]; intros ?; split; [done|by auto].

(** What one operation does to the store and to the boxes a cache holds. *)
Lemma step_spec o h c h' c' :
  Cache.step (h, c) o = (h', c') ->
  (Cache.next h <= Cache.next h')%nat /\
  (forall ticket l, Cache.held_at c' ticket l ->
                    Cache.held_at c ticket l \/ l = Cache.next h /\ (l < Cache.next h')%nat) /\
  (forall l, (l < Cache.next h)%nat -> (forall ticket, ~ Cache.held_at c ticket l) ->
             Cache.cells h' !! l = Cache.cells h !! l) /\
  (Cache.wf h c ->
   Cache.wf h' c' /\
   forall ticket l, Cache.held_at c ticket l -> ~ Cache.sets_ticket ticket o ->
                    Cache.cells h' !! l = Cache.cells h !! l).
Proof.
  destruct o as [prereqs|ticket v|ticket v|ticket|ticket]; cbn [Cache.step fst snd].
  - destruct (Cache.make_ticket c prereqs) as [[tk c1]|] eqn:Hm; intros [= <- <-];
      [|by same_state].
    repeat split; auto.
    + intros ticket l. rewrite (make_ticket_held_at _ _ _ _ _ _ Hm). auto.
    + intros ticket l ?%(make_ticket_held_at _ _ _ _ _ _ Hm). by eapply wf_held_lt.
    + intros t1 t2 l ?%(make_ticket_held_at _ _ _ _ _ _ Hm)
        ?%(make_ticket_held_at _ _ _ _ _ _ Hm). destruct H as [_ Hi]. eauto.
  - destruct (c !! ticket) as [e|] eqn:He.
    + rewrite (set_Ok _ _ _ _ _ He). cbn [fst snd]. intros [= <- <-].
      cbn [Cache.next Cache.cells].
      assert (Hlt : (ticket < length c)%nat) by (by eapply lookup_lt_Some).
      split; [lia|]. split; [|split].
      * intros ticket' l. rewrite insert_held_at by done. intros [[_ ->]|[_ ?]]; auto.
      * intros l Hl Hnh. rewrite lookup_insert_ne by lia.
        destruct (Cache.value e) as [l0|] eqn:Hv; [|done]. simpl.
        apply lookup_delete_ne. intros ->. apply (Hnh ticket). by exists e.
      * intros Hwf. split; [by apply wf_insert|].
        intros ticket' l Hh Hns.
        pose proof (wf_held_lt _ _ _ _ Hwf Hh).
        rewrite lookup_insert_ne by lia.
        destruct (Cache.value e) as [l0|] eqn:Hv; [|done]. simpl.
        apply lookup_delete_ne. intros ->. apply Hns. simpl.
        destruct Hwf as [_ Hi]. apply (Hi ticket ticket' l); [by exists e|done].
    + unfold Cache.set. rewrite He. intros [= <- <-]. by same_state.
  - destruct (c !! ticket) as [e|] eqn:He.
    + rewrite (swap_Ok _ _ _ _ _ He). cbn [fst snd]. intros [= <- <-].
      cbn [Cache.next Cache.cells].
      assert (Hlt : (ticket < length c)%nat) by (by eapply lookup_lt_Some).
      split; [lia|]. split; [|split].
      * intros ticket' l. rewrite insert_held_at by done. intros [[_ ->]|[_ ?]]; auto.
      * intros l Hl Hnh. by rewrite lookup_insert_ne by lia.
      * intros Hwf. split; [by apply wf_insert|].
        intros ticket' l Hh Hns.
        pose proof (wf_held_lt _ _ _ _ Hwf Hh).
        by rewrite lookup_insert_ne by lia.
    + unfold Cache.swap. rewrite He. intros [= <- <-]. by same_state.
  - intros [= <- <-]. by same_state.
  - unfold Cache.invalidate. destruct (Cache.known c ticket); intros [= <- <-];
      [|by same_state].
    pose proof (invalidate_recursively_invalidated (length c) [ticket] c) as HF.
    repeat split; auto.
    + intros ticket' l. rewrite (invalidated_held_at _ _ _ _ HF). auto.
    + intros ticket' l ?%(invalidated_held_at _ _ _ _ HF). by eapply wf_held_lt.
    + intros t1 t2 l ?%(invalidated_held_at _ _ _ _ HF) ?%(invalidated_held_at _ _ _ _ HF).
      destruct H as [_ Hi]. eauto.
Qed.

Lemma held_at_dec c ticket l : Cache.held_at c ticket l \/ ~ Cache.held_at c ticket l.
Proof.
  unfold Cache.held_at. destruct (c !! ticket) as [e|]; [|right; by intros (?&?&?)].
  destruct (decide (Cache.value e = Some l)); [left; by exists e|right].
  intros (?&[= <-]&?). done.
Qed.

Lemma invalidate_self c ticket :
  (ticket < length c)%nat ->
  exists c', Cache.invalidate c ticket = Cache.Ok c' /\
             Forall2 Cache.invalidated c c' /\ Cache.get c' ticket = Cache.Ok None.
Proof.
  intros Hlt. unfold Cache.invalidate, Cache.known.
  rewrite bool_decide_eq_true_2 by done. eexists. split; [done|].
  split; [apply invalidate_recursively_invalidated|].
  apply invalid_at_get. destruct (length c) as [|fuel] eqn:Hlen; [lia|].
  simpl. eapply invalidated_invalid_at; [apply invalidate_recursively_invalidated|].
  destruct (lookup_lt_is_Some_2 c ticket) as [e He]; [lia|].
  exists (Cache.mark_invalid e). by rewrite list_lookup_alter_eq, He.
Qed.

(** A live box that the cache holds at most at [ticket] stays as it is
    under operations that do not set [ticket]. *)
Lemma run_keeps_box ticket p (v : V) ops :
  forall h c,
    Cache.wf h c -> (p < Cache.next h)%nat -> Cache.cells h !! p = Some v ->
    (forall ticket', Cache.held_at c ticket' p -> ticket' = ticket) ->
    Forall (fun o => ~ Cache.sets_ticket ticket o) ops ->
    Cache.cells (Cache.run ops (h, c)).1 !! p = Some v.
Proof.
  induction ops as [|o ops IH]; intros h c Hwf Hp Hv Hat Hops; [done|].
  apply Forall_cons in Hops as [Ho Hops]. unfold Cache.run. simpl.
  destruct (Cache.step (h, c) o) as [h' c'] eqn:Hs.
  destruct (step_spec _ _ _ _ _ Hs) as (Hn & Hheld & Hframe & Hwf').
  destruct (Hwf' Hwf) as [Hwf1 Hkeep].
  apply IH; [done|lia| |  |done].
  - destruct (held_at_dec c ticket p) as [Hh|Hnh].
    + by rewrite (Hkeep ticket p).
    + rewrite Hframe; [done..|]. intros ticket' Hh. by rewrite (Hat _ Hh) in Hh.
  - intros ticket' [Hh|[-> _]]%Hheld; [auto|lia].
Qed.

(** C6. A borrow taken by [get] before the invalidation of its ticket
    still leads to the value it led to, after the invalidation and after
    any further operations on the cache other than [set] on that ticket,
    although [get] is absent right after the invalidation. *)
Theorem invalidation_is_not_deletion h c ticket p (v : V) ops :
  Cache.wf h c ->
  Cache.get c ticket = Cache.Ok (Some p) ->
  Cache.deref h p = Some v ->
  Forall (fun o => ~ Cache.sets_ticket ticket o) ops ->
  exists c1,
    Cache.invalidate c ticket = Cache.Ok c1 /\
    Cache.get c1 ticket = Cache.Ok None /\
    Cache.deref h p = Some v /\
    Cache.deref (Cache.run ops (h, c1)).1 p = Some v.
Proof.
  intros Hwf Hget Hv Hops.
  assert (Hh : Cache.held_at c ticket p).
  { unfold Cache.get in Hget. destruct (c !! ticket) as [e|] eqn:He; [|done].
    exists e. split; [done|]. by destruct (Cache.is_valid e); simplify_eq. }
  assert (Hlt : (ticket < length c)%nat).
  { destruct Hh as (e & He & _). by eapply lookup_lt_Some. }
  destruct (invalidate_self c ticket Hlt) as (c1 & Hi & HF & Hg).
  exists c1. split; [done|]. split; [done|]. split; [done|].
  unfold Cache.deref. apply (run_keeps_box ticket).
  - eapply wf_held_at_iff; [|done]. intros. by apply invalidated_held_at.
  - by eapply wf_held_lt.
  - done.
  - intros ticket' Hh'%(invalidated_held_at _ _ _ _ HF).
    destruct Hwf as [_ Hinj]. by eapply Hinj.
  - done.
Qed.

Lemma held_at_cons_0 e c l : Cache.held_at (e :: c) 0 l <-> Cache.value e = Some l.
Proof. unfold Cache.held_at. simpl. split; [by intros (?&[= <-]&?)|by exists e]. Qed.

Lemma held_at_cons_S e c ticket l :
  Cache.held_at (e :: c) (S ticket) l <-> Cache.held_at c ticket l.
Proof. done. Qed.

Lemma observe_ext h h' c :
  (forall ticket l, Cache.held_at c ticket l -> Cache.cells h' !! l = Cache.cells h !! l) ->
  Cache.observe h' c = Cache.observe h c.
Proof.
  intros Hc. unfold Cache.observe. apply list_eq. intros i.
  rewrite !list_lookup_fmap. destruct (c !! i) as [e|] eqn:He; [|done]. simpl.
  f_equal. unfold Cache.observe_entry. do 3 f_equal.
  destruct (Cache.is_valid e); [|done].
  destruct (Cache.value e) as [l|] eqn:Hv; [|done]. simpl.
  apply (Hc i). by exists e.
Qed.

(** Cloning leaves the boxes handed out before as they are, puts the
    copies in new boxes, each held once, and yields a table that looks
    to a client like the original. *)
Lemma clone_entries_spec c :
  forall h,
    (forall ticket l, Cache.held_at c ticket l -> (l < Cache.next h)%nat) ->
    (Cache.next h <= Cache.next (Cache.clone_entries h c).2)%nat /\
    (forall l, (l < Cache.next h)%nat ->
               Cache.cells (Cache.clone_entries h c).2 !! l = Cache.cells h !! l) /\
    Cache.observe (Cache.clone_entries h c).2 (Cache.clone_entries h c).1
      = Cache.observe h c /\
    (forall ticket l, Cache.held_at (Cache.clone_entries h c).1 ticket l ->
                      (Cache.next h <= l < Cache.next (Cache.clone_entries h c).2)%nat) /\
    (forall ticket1 ticket2 l,
        Cache.held_at (Cache.clone_entries h c).1 ticket1 l ->
        Cache.held_at (Cache.clone_entries h c).1 ticket2 l -> ticket1 = ticket2).
Proof.
  induction c as [|e c IH]; intros h Hb.
  { simpl. split; [done|]. split; [done|]. split; [done|].
    split; [by intros ? ? (?&?&?)|by intros ? ? ? (?&?&?)]. }
  simpl.
  destruct (Cache.clone_entry h e) as [e' h1] eqn:He.
  assert (Hb1 : forall ticket l, Cache.held_at c ticket l -> (l < Cache.next h)%nat).
  { intros ticket l Hh. apply (Hb (S ticket)). by apply held_at_cons_S. }
  assert (H1 : (Cache.next h <= Cache.next h1)%nat /\
               (forall l, (l < Cache.next h)%nat ->
                          Cache.cells h1 !! l = Cache.cells h !! l) /\
               (forall l, Cache.value e' = Some l ->
                          l = Cache.next h /\ (l < Cache.next h1)%nat) /\
               Cache.is_valid e' = Cache.is_valid e /\
               Cache.prerequisites e' = Cache.prerequisites e /\
               Cache.dependents e' = Cache.dependents e /\
               Cache.value e' ≫= Cache.deref h1 = Cache.value e ≫= Cache.deref h).
  { unfold Cache.clone_entry in He.
    destruct (Cache.value e ≫= Cache.deref h) as [v|] eqn:Hv;
      simpl in He; injection He as <- <-; simpl.
    - split; [lia|]. split; [intros l ?; by rewrite lookup_insert_ne by lia|].
      split; [intros l [= <-]; lia|]. repeat split; try done.
      unfold Cache.deref. simpl. by rewrite lookup_insert_eq.
    - repeat split; done. }
  destruct H1 as (Hn1 & Hf1 & Hv1 & Hval & Hpre & Hdep & Hobs).
  assert (Hb2 : forall ticket l, Cache.held_at c ticket l -> (l < Cache.next h1)%nat).
  { intros ticket l Hh. apply Hb1 in Hh. lia. }
  specialize (IH h1 Hb2).
  destruct (Cache.clone_entries h1 c) as [c' h2] eqn:Hc. simpl in *.
  destruct IH as (Hn2 & Hf2 & HF & Hh2 & Hinj).
  split; [lia|]. split; [|split; [|split]].
  - intros l Hl. rewrite Hf2 by lia. by apply Hf1.
  - unfold Cache.observe in *. f_equal.
    + unfold Cache.observe_entry. rewrite Hval, Hpre, Hdep. do 3 f_equal.
      destruct (Cache.is_valid e); [|done]. rewrite <-Hobs.
      destruct (Cache.value e') as [l|] eqn:Hl; [|done]. simpl.
      destruct (Hv1 l eq_refl) as [-> ?]. unfold Cache.deref. by apply Hf2.
    + rewrite HF. apply observe_ext. intros ticket l Hh. apply Hf1. eauto.
  - intros [|ticket] l.
    + rewrite held_at_cons_0. intros [-> ?]%Hv1. lia.
    + rewrite held_at_cons_S. intros ?%Hh2. lia.
  - intros [|t1] [|t2] l; rewrite ?held_at_cons_0, ?held_at_cons_S; try done.
    + intros [-> ?]%Hv1 ?%Hh2. lia.
    + intros ?%Hh2 [-> ?]%Hv1. lia.
    + intros. f_equal. by eapply Hinj.
Qed.

(** Operations on one cache leave what a client observes of another
    cache that shares no box with it. *)
Lemma run_frame ops :
  forall h c c_other,
    Cache.wf h c ->
    (forall ticket l, Cache.held_at c_other ticket l -> (l < Cache.next h)%nat) ->
    Cache.share_no_box c c_other ->
    Cache.observe (Cache.run ops (h, c)).1 c_other = Cache.observe h c_other.
Proof.
  induction ops as [|o ops IH]; intros h c c_other Hwf Hb Hsep; [done|].
  unfold Cache.run. simpl.
  destruct (Cache.step (h, c) o) as [h' c'] eqn:Hs.
  destruct (step_spec _ _ _ _ _ Hs) as (Hn & Hheld & Hframe & Hwf').
  destruct (Hwf' Hwf) as [Hwf1 _].
  fold (Cache.run ops (h', c')). rewrite IH; [|done|..].
  - apply observe_ext. intros ticket l Hh. apply Hframe; [by eapply Hb|].
    intros ticket' Hh'. by apply (Hsep _ _ _ Hh' Hh).
  - intros ticket l Hh. apply Hb in Hh. lia.
  - intros t1 t2 l [Hh|[-> _]]%Hheld Hh2; [by apply (Hsep _ _ _ Hh Hh2)|].
    apply Hb in Hh2. lia.
Qed.

(** C5. The clone of a cache has the same tickets, edges, validity and
    values as the original, and from then on no sequence of operations
    on the clone changes what is observed of the original, nor the other
    way round. *)
Theorem clone_independence h c :
  Cache.wf h c ->
  Cache.observe (Cache.clone h c).2 (Cache.clone h c).1 = Cache.observe h c /\
  Cache.observe (Cache.clone h c).2 c = Cache.observe h c /\
  (forall ops,
      Cache.observe (Cache.run ops ((Cache.clone h c).2, (Cache.clone h c).1)).1 c
      = Cache.observe h c) /\
  (forall ops,
      Cache.observe (Cache.run ops ((Cache.clone h c).2, c)).1 (Cache.clone h c).1
      = Cache.observe h c).
Proof.
  intros Hwf. unfold Cache.clone.
  destruct (clone_entries_spec c h (fun ticket l => wf_held_lt h c ticket l Hwf))
    as (Hn & Hf & Hobs & Hh & Hinj).
  destruct (Cache.clone_entries h c) as [c' h'] eqn:Hc. simpl in *.
  assert (Hsame : Cache.observe h' c = Cache.observe h c).
  { apply observe_ext. intros ticket l Hl. apply Hf. by eapply wf_held_lt. }
  assert (Hsep : Cache.share_no_box c' c).
  { intros t1 t2 l H1%Hh H2%(wf_held_lt _ _ _ _ Hwf). lia. }
  split; [done|]. split; [done|]. split; intros ops.
  - rewrite run_frame; [done| |  |done].
    + split; [|done]. intros ticket l ?%Hh. lia.
    + intros ticket l ?%(wf_held_lt _ _ _ _ Hwf). lia.
  - rewrite run_frame; [done| | |].
    + destruct Hwf as [Hb Hi]. split; [|done]. intros ticket l ?%Hb. lia.
    + intros ticket l ?%Hh. lia.
    + intros t1 t2 l H1 H2. by apply (Hsep _ _ _ H2 H1).
Qed.

End cache_facts.

Section cache_invariants.
Context {V : Type}.
Implicit Types (c : Cache.t) (h : Cache.Heap V) (e : Cache.CacheEntry).
Implicit Types (ticket d : Cache.CacheTicket) (l : nat).

(** Both well-formedness conditions hold of the empty cache and are kept
    by every operation, so they hold of every cache a client can build. *)
Lemma dag_empty : Cache.dag Cache.empty.
Proof. intros ticket e He. inversion He. Qed.

Lemma wf_empty h : Cache.wf h Cache.empty.
Proof. split; [intros ticket l (e & He & _)|intros t1 t2 l (e & He & _)]; inversion He. Qed.

Lemma add_edges_dependents ticket prereqs :
  forall c, Forall2 (fun e e' => exists k, Cache.dependents e'
                                           = Cache.dependents e ++ replicate k ticket)
                    c (Cache.add_edges ticket prereqs c).
Proof.
  set (R := fun e e' => _).
  induction prereqs as [|p ps IH]; intros c; simpl.
  - apply Forall2_same_length_lookup_2; [done|]. intros i x y ? ?. simplify_eq.
    exists 0%nat. by rewrite app_nil_r.
  - apply (Forall2_trans R R R) with (k := alter (Cache.add_dependent ticket) p c);
      [|  |apply IH].
    { intros x y z [k1 Hk1] [k2 Hk2]. exists (k1 + k2)%nat.
      by rewrite Hk2, Hk1, <-app_assoc, replicate_add. }
    apply Forall2_same_length_lookup_2; [by rewrite length_alter|].
    intros i x y Hx Hy. destruct (decide (p = i)) as [->|Hne].
    + rewrite list_lookup_alter_eq, Hx in Hy. simplify_eq/=. by exists 1%nat.
    + rewrite list_lookup_alter_ne in Hy by done. simplify_eq.
      exists 0%nat. by rewrite app_nil_r.
Qed.

Lemma make_ticket_dag c prereqs ticket c' :
  Cache.dag c -> Cache.make_ticket c prereqs = Cache.Ok (ticket, c') -> Cache.dag c'.
Proof.
  intros Hd. unfold Cache.make_ticket. destruct (forallb _ _); [|done]. intros [= <- <-].
  pose proof (add_edges_dependents (length c) prereqs c) as HF.
  pose proof (Forall2_length _ _ _ HF) as Hlen.
  intros i e' He'. rewrite length_app, <-Hlen. simpl.
  destruct (decide (i < length c)%nat) as [Hlt|Hge].
  - rewrite lookup_app_l in He' by lia.
    destruct (Forall2_lookup_r _ _ _ _ _ HF He') as (e & He & k & ->).
    apply Forall_app. split.
    + eapply Forall_impl; [by eapply Hd|]. intros d ?; simpl in *. lia.
    + apply Forall_forall. intros d ->%elem_of_replicate_inv. lia.
  - rewrite lookup_app_r in He' by lia.
    destruct (i - _)%nat; simplify_eq/=. constructor.
Qed.

Lemma step_dag o h c :
  Cache.dag c -> Cache.dag (Cache.step (h, c) o).2.
Proof.
  intros Hd. destruct o as [prereqs|ticket v|ticket v|ticket|ticket]; cbn [Cache.step fst snd].
  - destruct (Cache.make_ticket c prereqs) as [[tk c1]|] eqn:Hm; [|done].
    by eapply make_ticket_dag.
  - destruct (c !! ticket) as [e|] eqn:He.
    + rewrite (set_Ok _ _ _ _ _ He). simpl. eapply edges_dag; [|done].
      symmetry. by eapply edges_insert.
    + unfold Cache.set. by rewrite He.
  - destruct (c !! ticket) as [e|] eqn:He.
    + rewrite (swap_Ok _ _ _ _ _ He). simpl. eapply edges_dag; [|done].
      symmetry. by eapply edges_insert.
    + unfold Cache.swap. by rewrite He.
  - done.
  - unfold Cache.invalidate. destruct (Cache.known c ticket); [|done]. simpl.
    eapply invalidated_dag; [|done]. apply invalidate_recursively_invalidated.
Qed.

Lemma run_invariants ops :
  forall h c, Cache.dag c -> Cache.wf h c ->
              Cache.dag (Cache.run ops (h, c)).2 /\
              Cache.wf (Cache.run ops (h, c)).1 (Cache.run ops (h, c)).2.
Proof.
  induction ops as [|o ops IH]; intros h c Hd Hwf; [done|].
  unfold Cache.run. simpl. fold (Cache.run ops (Cache.step (h, c) o)).
  pose proof (step_dag o h _ Hd) as Hd'.
  destruct (Cache.step (h, c) o) as [h' c'] eqn:Hs.
  apply IH; [done|]. by apply (step_spec _ _ _ _ _ Hs).
Qed.

Lemma clone_invariants h c :
  Cache.dag c -> Cache.wf h c ->
  Cache.dag (Cache.clone h c).1 /\ Cache.wf (Cache.clone h c).2 (Cache.clone h c).1.
Proof.
  intros Hd Hwf. unfold Cache.clone.
  destruct (clone_entries_spec c h (fun ticket l => wf_held_lt h c ticket l Hwf))
    as (Hn & Hf & Hobs & Hh & Hinj).
  split.
  - eapply edges_dag; [|done]. unfold Cache.observe, Cache.edges in *.
    apply (f_equal (fmap snd)) in Hobs. by rewrite <-!list_fmap_compose in Hobs.
  - split; [|done]. intros ticket l ?%Hh. lia.
Qed.
End cache_invariants.

(** *** The state monad *)

Lemma bind_Done {S A B} (m : M S A) (k : A -> M S B) s b s' :
  bind m k s = Done b s' <-> exists a s1, m s = Done a s1 /\ k a s1 = Done b s'.
Proof.
  unfold bind. destruct (m s) as [a s1| |]; split.
  - eauto.
  - intros (a' & s1' & Hm & Hk). by injection Hm as -> ->.
  - done.
  - intros (a' & s1' & Hm & Hk). done.
  - done.
  - intros (a' & s1' & Hm & Hk). done.
Qed.

Lemma DRAKE_DEMAND_Done {S} (b : bool) (s : S) u s' :
  DRAKE_DEMAND b s = Done u s' <-> b = true /\ s' = s.
Proof.
  unfold DRAKE_DEMAND. destruct b, u; split; try done.
  - intros Hd. by injection Hd as ->.
  - by intros [_ ->].
  - by intros [? _].
Qed.

Lemma vec_at_Some {A} (v : list A) (i : Z) x :
  vec_at v i = Some x <-> 0 <= i /\ v !! Z.to_nat i = Some x.
Proof.
  unfold vec_at. destruct (Z.leb_spec 0 i); split; try done.
  - by intros [_ ?].
  - intros [? _]. lia.
Qed.

Lemma vec_at_in_range {A} (v : list A) (i : Z) :
  0 <= i < Z.of_nat (length v) -> exists x, vec_at v i = Some x.
Proof.
  intros Hi. destruct (lookup_lt_is_Some_2 v (Z.to_nat i)) as [x Hx]; [lia|].
  exists x. apply vec_at_Some. split; [lia|done].
Qed.

Lemma vec_at_vec_set_eq {A} (v : list A) (i : Z) x :
  0 <= i < Z.of_nat (length v) -> vec_at (vec_set i x v) i = Some x.
Proof.
  intros Hi. unfold vec_at, vec_set. destruct (Z.leb_spec 0 i); [|lia].
  apply list_lookup_insert_eq. lia.
Qed.

Lemma vec_at_vec_set_ne {A} (v : list A) (i j : Z) x :
  i <> j -> vec_at (vec_set i x v) j = vec_at v j.
Proof.
  intros Hne. unfold vec_at, vec_set.
  destruct (Z.leb_spec 0 i), (Z.leb_spec 0 j); try done.
  apply list_lookup_insert_ne. lia.
Qed.

Lemma length_vec_set {A} (v : list A) (i : Z) x : length (vec_set i x v) = length v.
Proof. unfold vec_set. destruct (0 <=? i); [apply length_insert|done]. Qed.

(** *** The diagram context *)

Section diagram_facts.
Context {T : Type} `{Scalar T} {V : Type}.
Context {C : Type} `{ops : Virtual.Context T V C}.
Implicit Types (d : DiagramContext.t T V C) (index : Z).

Lemma parallel_vec_at d index c :
  DiagramContext.parallel d ->
  vec_at (DiagramContext.contexts_ d) index = Some c ->
  exists o, vec_at (DiagramContext.outputs_ d) index = Some o /\ is_nullptr c = is_nullptr o.
Proof.
  intros Hp [Hi Hc]%vec_at_Some.
  destruct (Forall2_lookup_l _ _ _ _ _ Hp Hc) as (o & Ho & Hn).
  exists o. split; [|done]. by apply vec_at_Some.
Qed.

(** C8. [AddSystem] on a diagram context of [n] subsystems aborts, with
    the diagram context as it was, when the index is outside [0, n) or a
    subsystem is installed there; otherwise it installs the context and
    the output set at the index, the context carrying the back-pointer
    to this diagram context and the index. *)
Theorem AddSystem_spec `{!Virtual.Lawful ops} d index (context : C) (output : SystemOutput V) :
  DiagramContext.parallel d ->
  (index < 0 \/ DiagramContext.num_subsystems d <= index \/ DiagramContext.installed d index ->
   DiagramContext.AddSystem index context output d = Aborted d) /\
  (0 <= index < DiagramContext.num_subsystems d -> ~ DiagramContext.installed d index ->
   exists d',
     DiagramContext.AddSystem index context output d = Done tt d' /\
     DiagramContext.parallel d' /\
     DiagramContext.num_subsystems d' = DiagramContext.num_subsystems d /\
     (exists c, DiagramContext.GetSubsystemContext index d' = Done c d' /\
                c = Virtual.set_parent_and_index (DiagramContext.this d) index context /\
                Virtual.get_parent c = Some (DiagramContext.this d, index)) /\
     DiagramContext.GetSubsystemOutput index d' = Done output d' /\
     (forall j, j <> index ->
                vec_at (DiagramContext.contexts_ d') j = vec_at (DiagramContext.contexts_ d) j /\
                vec_at (DiagramContext.outputs_ d') j = vec_at (DiagramContext.outputs_ d) j) /\
     DiagramContext.with_outputs (DiagramContext.outputs_ d)
       (DiagramContext.with_contexts (DiagramContext.contexts_ d) d') = d).
Proof.
  intros Hp. unfold DiagramContext.AddSystem, bind, gets, DRAKE_DEMAND,
    DiagramContext.contexts_at, DiagramContext.outputs_at, defined, modify.
  unfold DiagramContext.num_subsystems.
  split.
  - intros Hcase.
    destruct (Z.leb_spec 0 index); [|done]. simpl.
    destruct (Z.ltb_spec index (Z.of_nat (length (DiagramContext.contexts_ d)))); [|done].
    destruct Hcase as [?|[?|[c Hc]]]; [lia..|]. by rewrite Hc.
  - intros Hi Hni.
    destruct (Z.leb_spec 0 index); [|lia]. simpl.
    destruct (Z.ltb_spec index (Z.of_nat (length (DiagramContext.contexts_ d)))); [|lia].
    destruct (vec_at_in_range (DiagramContext.contexts_ d) index Hi) as [[c|] Hc];
      [destruct Hni; by exists c|].
    rewrite Hc. simpl.
    destruct (parallel_vec_at _ _ _ Hp Hc) as ([o|] & Ho & Hn); [done|].
    rewrite Ho. simpl. eexists. split; [done|].
    unfold DiagramContext.parallel, DiagramContext.num_subsystems,
      DiagramContext.GetSubsystemContext, DiagramContext.GetSubsystemOutput,
      bind, gets, DRAKE_DEMAND, DiagramContext.contexts_at, DiagramContext.outputs_at,
      defined, DRAKE_DEMAND_nonnull, DiagramContext.num_subsystems.
    unfold DiagramContext.with_outputs, DiagramContext.with_contexts. simpl.
    assert (Hlo : Z.of_nat (length (DiagramContext.outputs_ d))
                  = Z.of_nat (length (DiagramContext.contexts_ d))).
    { by rewrite (Forall2_length _ _ _ Hp). }
    rewrite !length_vec_set.
    destruct (Z.leb_spec 0 index); [|lia].
    destruct (Z.ltb_spec index (Z.of_nat (length (DiagramContext.contexts_ d)))); [|lia].
    simpl. rewrite !vec_at_vec_set_eq by lia.
    split; [|split; [done|split; [|split; [done|split]]]].
    + unfold vec_set. destruct (Z.leb_spec 0 index); [|lia]. by apply Forall2_insert.
    + eexists. split; [done|]. split; [done|].
      apply Virtual.get_parent_set_parent_and_index.
    + intros j Hj. by rewrite !vec_at_vec_set_ne by done.
    + by destruct d.
Qed.
Lemma GetSubsystemOutput_Done d index o :
  0 <= index ->
  vec_at (DiagramContext.outputs_ d) index = Some (Some o) ->
  length (DiagramContext.outputs_ d) = length (DiagramContext.contexts_ d) ->
  DiagramContext.GetSubsystemOutput index d = Done o d.
Proof.
  intros Hi Ho Hlen. unfold DiagramContext.GetSubsystemOutput, bind, gets, DRAKE_DEMAND,
    DiagramContext.outputs_at, defined, DRAKE_DEMAND_nonnull, DiagramContext.num_subsystems.
  pose proof Ho as [_ Hl%lookup_lt_Some]%vec_at_Some.
  destruct (Z.leb_spec 0 index); [|lia].
  destruct (Z.ltb_spec index (Z.of_nat (length (DiagramContext.contexts_ d)))); [|lia].
  simpl. by rewrite Ho.
Qed.

Lemma GetMutableSubsystemContext_Done d index c :
  vec_at (DiagramContext.contexts_ d) index = Some (Some c) ->
  DiagramContext.GetMutableSubsystemContext index d = Done c d.
Proof.
  intros Hc. unfold DiagramContext.GetMutableSubsystemContext, bind, gets, DRAKE_DEMAND,
    DiagramContext.contexts_at, defined, DRAKE_DEMAND_nonnull, DiagramContext.num_subsystems.
  pose proof Hc as [? Hl%lookup_lt_Some]%vec_at_Some.
  destruct (Z.leb_spec 0 index); [|lia].
  destruct (Z.ltb_spec index (Z.of_nat (length (DiagramContext.contexts_ d)))); [|lia].
  simpl. by rewrite Hc.
Qed.

(** C9. [ExportInput] and [ExportOutput] check only that a subsystem
    context is installed at the system index of the identifier.  For an
    installed subsystem they complete whatever the port index: the list
    of exported inputs, respectively outputs, of the result is the
    former list followed by the identifier, so the identifier is the
    exported port with the next index and the port count grows by one,
    and every other member is as before.  For a null slot they abort.
    [Connect] aborts on a port index outside the range of either
    endpoint. *)
Theorem export_checks_installation_only d system_index port_index :
  (forall c,
      vec_at (DiagramContext.contexts_ d) system_index = Some (Some c) ->
      (exists d',
          DiagramContext.ExportInput (system_index, port_index) d = Done tt d' /\
          DiagramContext.input_ids_ d'
          = DiagramContext.input_ids_ d ++ [(system_index, port_index)] /\
          DiagramContext.get_num_input_ports d' = DiagramContext.get_num_input_ports d + 1 /\
          vec_at (DiagramContext.input_ids_ d') (DiagramContext.get_num_input_ports d)
          = Some (system_index, port_index) /\
          DiagramContext.output_ids_ d' = DiagramContext.output_ids_ d /\
          DiagramContext.get_num_output_ports d' = DiagramContext.get_num_output_ports d /\
          DiagramContext.contexts_ d' = DiagramContext.contexts_ d /\
          DiagramContext.outputs_ d' = DiagramContext.outputs_ d /\
          DiagramContext.dependency_graph_ d' = DiagramContext.dependency_graph_ d /\
          DiagramContext.inverse_dependency_graph_ d'
          = DiagramContext.inverse_dependency_graph_ d /\
          DiagramContext.super d' = DiagramContext.super d /\
          DiagramContext.this d' = DiagramContext.this d /\
          DiagramContext.state_ d' = DiagramContext.state_ d) /\
      (exists d',
          DiagramContext.ExportOutput (system_index, port_index) d = Done tt d' /\
          DiagramContext.output_ids_ d'
          = DiagramContext.output_ids_ d ++ [(system_index, port_index)] /\
          DiagramContext.get_num_output_ports d'
          = DiagramContext.get_num_output_ports d + 1 /\
          vec_at (DiagramContext.output_ids_ d') (DiagramContext.get_num_output_ports d)
          = Some (system_index, port_index) /\
          DiagramContext.input_ids_ d' = DiagramContext.input_ids_ d /\
          DiagramContext.get_num_input_ports d' = DiagramContext.get_num_input_ports d /\
          DiagramContext.contexts_ d' = DiagramContext.contexts_ d /\
          DiagramContext.outputs_ d' = DiagramContext.outputs_ d /\
          DiagramContext.dependency_graph_ d' = DiagramContext.dependency_graph_ d /\
          DiagramContext.inverse_dependency_graph_ d'
          = DiagramContext.inverse_dependency_graph_ d /\
          DiagramContext.super d' = DiagramContext.super d /\
          DiagramContext.this d' = DiagramContext.this d /\
          DiagramContext.state_ d' = DiagramContext.state_ d)) /\
  (vec_at (DiagramContext.contexts_ d) system_index = Some None ->
   DiagramContext.ExportInput (system_index, port_index) d = Aborted d /\
   DiagramContext.ExportOutput (system_index, port_index) d = Aborted d) /\
  (forall o other,
      0 <= system_index ->
      vec_at (DiagramContext.outputs_ d) system_index = Some (Some o) ->
      length (DiagramContext.outputs_ d) = length (DiagramContext.contexts_ d) ->
      port_index < 0 \/ get_num_ports o <= port_index ->
      DiagramContext.Connect (system_index, port_index) other d = Aborted d) /\
  (forall c o src,
      0 <= src.1 ->
      vec_at (DiagramContext.outputs_ d) src.1 = Some (Some o) ->
      length (DiagramContext.outputs_ d) = length (DiagramContext.contexts_ d) ->
      0 <= src.2 < get_num_ports o ->
      vec_at (DiagramContext.contexts_ d) system_index = Some (Some c) ->
      port_index < 0 \/ Virtual.get_num_input_ports c <= port_index ->
      DiagramContext.Connect src (system_index, port_index) d = Aborted d).
Proof.
  split; [|split; [|split]].
  - intros c Hc. split.
    + eexists. split.
      { unfold DiagramContext.ExportInput, bind, DiagramContext.contexts_at, defined,
          DRAKE_DEMAND, modify. simpl. rewrite Hc. simpl. reflexivity. }
      unfold DiagramContext.get_num_input_ports, DiagramContext.get_num_output_ports. simpl.
      split; [reflexivity|].
      split; [rewrite length_app; simpl; lia|].
      split; [|repeat split; reflexivity].
      apply vec_at_Some. split; [lia|]. rewrite Nat2Z.id.
      rewrite lookup_app_r by lia. by rewrite Nat.sub_diag.
    + eexists. split.
      { unfold DiagramContext.ExportOutput, bind, DiagramContext.contexts_at, defined,
          DRAKE_DEMAND, modify. simpl. rewrite Hc. simpl. reflexivity. }
      unfold DiagramContext.get_num_input_ports, DiagramContext.get_num_output_ports. simpl.
      split; [reflexivity|].
      split; [rewrite length_app; simpl; lia|].
      split; [|repeat split; reflexivity].
      apply vec_at_Some. split; [lia|]. rewrite Nat2Z.id.
      rewrite lookup_app_r by lia. by rewrite Nat.sub_diag.
  - intros Hc.
    unfold DiagramContext.ExportInput, DiagramContext.ExportOutput, bind,
      DiagramContext.contexts_at, defined, DRAKE_DEMAND, modify.
    simpl. by rewrite Hc.
  - intros o other Hi Ho Hlen Hp. unfold DiagramContext.Connect.
    unfold bind at 1. simpl. rewrite (GetSubsystemOutput_Done _ _ _ Hi Ho Hlen).
    unfold bind, DRAKE_DEMAND.
    destruct (Z.leb_spec 0 port_index); [|done].
    destruct (Z.ltb_spec port_index (get_num_ports o)); [lia|done].
  - intros c o src Hi Ho Hlen Hs Hc Hp. unfold DiagramContext.Connect.
    unfold bind at 1. rewrite (GetSubsystemOutput_Done _ _ _ Hi Ho Hlen).
    unfold bind at 1, DRAKE_DEMAND at 1.
    destruct (Z.leb_spec 0 src.2); [|lia].
    unfold bind at 1, DRAKE_DEMAND at 1.
    destruct (Z.ltb_spec src.2 (get_num_ports o)); [|lia].
    unfold bind at 1, gets at 1. unfold bind at 1. simpl.
    rewrite (GetMutableSubsystemContext_Done _ _ _ Hc).
    unfold bind, DRAKE_DEMAND.
    destruct (Z.leb_spec 0 port_index); [|done].
    destruct (Z.ltb_spec port_index (Virtual.get_num_input_ports c)); [lia|done].
Qed.

Lemma DRAKE_DEMAND_nonnull_Done {S A} (p : option A) (s : S) a s' :
  DRAKE_DEMAND_nonnull p s = Done a s' <-> p = Some a /\ s' = s.
Proof.
  unfold DRAKE_DEMAND_nonnull. destruct p; split; try done.
  - intros Hd. by injection Hd as -> ->.
  - by intros [[= ->] ->].
  - by intros [? _].
Qed.

Lemma defined_Done {S A} (p : option A) (s : S) a s' :
  defined p s = Done a s' <-> p = Some a /\ s' = s.
Proof.
  unfold defined. destruct p; split; try done.
  - intros Hd. by injection Hd as -> ->.
  - by intros [[= ->] ->].
  - by intros [? _].
Qed.

Lemma GetSubsystemOutput_inv d index o d' :
  DiagramContext.GetSubsystemOutput index d = Done o d' ->
  d' = d /\ vec_at (DiagramContext.outputs_ d) index = Some (Some o).
Proof.
  unfold DiagramContext.GetSubsystemOutput, DiagramContext.outputs_at.
  intros (n & s1 & [= <- <-] & (u & s2 & [_ ->]%DRAKE_DEMAND_Done
            & (p & s3 & [Hp ->]%defined_Done & [-> ->]%DRAKE_DEMAND_nonnull_Done)%bind_Done
         )%bind_Done)%bind_Done.
  done.
Qed.

Lemma GetMutableSubsystemContext_inv d index c d' :
  DiagramContext.GetMutableSubsystemContext index d = Done c d' ->
  d' = d /\ vec_at (DiagramContext.contexts_ d) index = Some (Some c).
Proof.
  unfold DiagramContext.GetMutableSubsystemContext, DiagramContext.contexts_at.
  intros (n & s1 & [= <- <-] & (u & s2 & [_ ->]%DRAKE_DEMAND_Done
            & (p & s3 & [Hp ->]%defined_Done & [-> ->]%DRAKE_DEMAND_nonnull_Done)%bind_Done
         )%bind_Done)%bind_Done.
  done.
Qed.

Lemma call_subsystem_inv {A} d index (m : M C A) a d' :
  DiagramContext.call_subsystem index m d = Done a d' ->
  exists c c', vec_at (DiagramContext.contexts_ d) index = Some (Some c) /\
               m c = Done a c' /\
               d' = DiagramContext.with_contexts
                      (vec_set index (Some c') (DiagramContext.contexts_ d)) d.
Proof.
  unfold DiagramContext.call_subsystem.
  destruct (vec_at _ _) as [[c|]|] eqn:Hc; try done.
  destruct (m c) as [a' c'| |] eqn:Hm; try done.
  intros [= <- <-]. by exists c, c'.
Qed.

(** What a completed [Connect] has done. *)
Lemma Connect_inv src dest d d' :
  DiagramContext.Connect src dest d = Done tt d' ->
  exists o c c',
    vec_at (DiagramContext.outputs_ d) src.1 = Some (Some o) /\
    0 <= src.2 < get_num_ports o /\
    vec_at (DiagramContext.contexts_ d) dest.1 = Some (Some c) /\
    0 <= dest.2 < Virtual.get_num_input_ports c /\
    Virtual.SetInputPort dest.2
      (DependentInputPort (mkOutputPortPtr (DiagramContext.this d) src.1 src.2)) c
    = Done tt c' /\
    d' = DiagramContext.with_inverse_dependency_graph
           (<[src := default [] (DiagramContext.inverse_dependency_graph_ d !! src) ++ [dest]]>
              (DiagramContext.inverse_dependency_graph_ d))
           (DiagramContext.with_dependency_graph
              (<[dest := src]> (DiagramContext.dependency_graph_ d))
              (DiagramContext.with_contexts
                 (vec_set dest.1 (Some c') (DiagramContext.contexts_ d)) d)).
Proof.
  unfold DiagramContext.Connect.
  intros (o & s1 & [-> Ho]%GetSubsystemOutput_inv & Hk)%bind_Done.
  apply bind_Done in Hk as (u1 & s2 & [H1 ->]%DRAKE_DEMAND_Done & Hk).
  apply bind_Done in Hk as (u2 & s3 & [H2 ->]%DRAKE_DEMAND_Done & Hk).
  apply bind_Done in Hk as (self & s4 & [= <- <-] & Hk).
  apply bind_Done in Hk as (c & s5 & [-> Hc]%GetMutableSubsystemContext_inv & Hk).
  apply bind_Done in Hk as (u3 & s6 & [H3 ->]%DRAKE_DEMAND_Done & Hk).
  apply bind_Done in Hk as (u4 & s7 & [H4 ->]%DRAKE_DEMAND_Done & Hk).
  apply bind_Done in Hk as (u5 & s8 & (c0 & c' & Hc0 & Hm & ->)%call_subsystem_inv & Hk).
  apply bind_Done in Hk as (u6 & s9 & [= <- <-] & [= <-]).
  rewrite Hc in Hc0. injection Hc0 as <-. destruct u5.
  exists o, c, c'. repeat split; try done; lia.
Qed.

Lemma GetSubsystemContext_Done d index c :
  vec_at (DiagramContext.contexts_ d) index = Some (Some c) ->
  DiagramContext.GetSubsystemContext index d = Done c d.
Proof. apply GetMutableSubsystemContext_Done. Qed.

(** C10. After two completed [Connect] calls to the same destination
    from different sources, [dependency_graph_] maps the destination to
    the second source only, [inverse_dependency_graph_] lists it under
    both sources, and so the two graphs are not transposes of each
    other. *)
Theorem reconnect_breaks_transpose d d1 d2 (s1 s2 dest : PortIdentifier) :
  s1 <> s2 ->
  DiagramContext.Connect s1 dest d = Done tt d1 ->
  DiagramContext.Connect s2 dest d1 = Done tt d2 ->
  DiagramContext.dependency_graph_ d2 !! dest = Some s2 /\
  dest ∈ default [] (DiagramContext.inverse_dependency_graph_ d2 !! s1) /\
  dest ∈ default [] (DiagramContext.inverse_dependency_graph_ d2 !! s2) /\
  ~ DiagramContext.transposed d2.
Proof.
  intros Hne (o1 & c1 & c1' & _ & _ & _ & _ & _ & ->)%Connect_inv
             (o2 & c2 & c2' & _ & _ & _ & _ & _ & ->)%Connect_inv.
  simpl.
  assert (Hd : <[dest:=s2]> (<[dest:=s1]> (DiagramContext.dependency_graph_ d)) !! dest
               = Some s2) by apply lookup_insert_eq.
  set (inv1 := <[s1 := _]> (DiagramContext.inverse_dependency_graph_ d)) in *.
  assert (H1 : dest ∈ default [] (<[s2 := default [] (inv1 !! s2) ++ [dest]]> inv1 !! s1)).
  { rewrite lookup_insert_ne by done. unfold inv1. rewrite lookup_insert_eq. simpl.
    apply elem_of_app. right. by left. }
  split; [done|]. split; [done|]. split.
  - rewrite lookup_insert_eq. simpl. apply elem_of_app. right. by left.
  - intros Ht. apply Ht in H1. simpl in H1. congruence.
Qed.

Lemma set_time_contexts d time_sec index :
  vec_at (DiagramContext.contexts_ (DiagramContext.set_time time_sec d)) index
  = option_map (option_map (Virtual.set_time time_sec))
               (vec_at (DiagramContext.contexts_ d) index).
Proof.
  unfold DiagramContext.set_time, vec_at. simpl.
  destruct (0 <=? index); [|done].
  rewrite list_lookup_fmap.
  destruct (DiagramContext.contexts_ d !! Z.to_nat index) as [[c|]|]; done.
Qed.

Lemma set_time_get_time d time_sec :
  DiagramContext.get_time (DiagramContext.set_time time_sec d) = time_sec.
Proof. done. Qed.

Lemma set_time_num_subsystems d time_sec :
  DiagramContext.num_subsystems (DiagramContext.set_time time_sec d)
  = DiagramContext.num_subsystems d.
Proof.
  unfold DiagramContext.num_subsystems, DiagramContext.set_time. simpl.
  by rewrite length_map.
Qed.

(** C2. After [set_time] on a diagram context whose subsystems are all
    installed, the diagram context reports the new time and so does the
    subsystem context at every index. *)
Theorem set_time_propagates `{!Virtual.Lawful ops} d (time_sec : T) :
  DiagramContext.all_installed d ->
  DiagramContext.get_time (DiagramContext.set_time time_sec d) = time_sec /\
  forall index,
    0 <= index < DiagramContext.num_subsystems d ->
    exists c,
      DiagramContext.GetSubsystemContext index (DiagramContext.set_time time_sec d)
      = Done c (DiagramContext.set_time time_sec d) /\
      Virtual.get_time c = time_sec.
Proof.
  intros Hall. split; [done|]. intros index Hi.
  destruct (vec_at_in_range (DiagramContext.contexts_ d) index Hi) as [c Hc].
  destruct c as [c|].
  2:{ apply vec_at_Some in Hc as [_ Hc]. unfold DiagramContext.all_installed in Hall.
      rewrite Forall_lookup in Hall. by specialize (Hall _ _ Hc). }
  exists (Virtual.set_time time_sec c). split; [|apply Virtual.get_time_set_time].
  apply GetSubsystemContext_Done. by rewrite set_time_contexts, Hc.
Qed.

(** The body of [PropagateInvalidOutputs] is empty: the call completes
    and the diagram context is as it was. *)
Lemma PropagateInvalidOutputs_noop d system_index port_index :
  DiagramContext.PropagateInvalidOutputs system_index port_index d = Done tt d.
Proof. done. Qed.

End diagram_facts.


#[global] Instance Context_lawful {T} `{Scalar T} {V} :
  Virtual.Lawful (Context.virtual (T := T) (V := V)).
Proof. split; done. Qed.

#[global] Instance DiagramContext_lawful {T} `{Scalar T} {V} {C}
  `{ops : Virtual.Context T V C} `{!Virtual.Lawful ops} :
  Virtual.Lawful (DiagramContext.virtual (C := C)).
Proof. split; done. Qed.

Section clone_facts.
Context {T : Type} `{Scalar T} {V : Type}.
Context {C : Type} `{ops : Virtual.Context T V C}.
Implicit Types (d clone : DiagramContext.t T V C) (index : Z) (m : Mem V).

Lemma run_on_inv {S X A} (x : X) (k : M X A) (s : S) r s' :
  run_on x k s = Done r s' -> k x = Done r.1 r.2 /\ s' = s.
Proof.
  unfold run_on. destruct (k x) as [a x'| |]; [|done..].
  intros Hd. by injection Hd as <- <-.
Qed.

Lemma AddSystem_inv d index (context : C) (output : SystemOutput V) u d' :
  DiagramContext.AddSystem index context output d = Done u d' ->
  DiagramContext.wiring d' = DiagramContext.wiring d /\
  length (DiagramContext.contexts_ d') = length (DiagramContext.contexts_ d).
Proof.
  unfold DiagramContext.AddSystem, DiagramContext.contexts_at, DiagramContext.outputs_at.
  intros (n & s1 & [= <- <-] & Hk)%bind_Done.
  apply bind_Done in Hk as (u1 & s2 & [_ ->]%DRAKE_DEMAND_Done & Hk).
  apply bind_Done in Hk as (c & s3 & [_ ->]%defined_Done & Hk).
  apply bind_Done in Hk as (u2 & s4 & [_ ->]%DRAKE_DEMAND_Done & Hk).
  apply bind_Done in Hk as (o & s5 & [_ ->]%defined_Done & Hk).
  apply bind_Done in Hk as (u3 & s6 & [_ ->]%DRAKE_DEMAND_Done & Hk).
  apply bind_Done in Hk as (self & s7 & [= <- <-] & Hk).
  apply bind_Done in Hk as (u4 & s8 & [= <- <-] & [= <- <-]).
  split; [reflexivity|]. simpl. apply length_vec_set.
Qed.

Lemma map_M_length {S A B} (f : A -> M S B) (l : list A) :
  forall s bs s', map_M f l s = Done bs s' -> length bs = length l.
Proof.
  induction l as [|a l IH]; intros s bs s'; simpl.
  - by intros [= <- <-].
  - intros (b & s1 & _ & (bs' & s2 & Hl%IH & [= <- <-])%bind_Done)%bind_Done.
    simpl. by rewrite Hl.
Qed.

Lemma map_M_state {S A B} (f : A -> M S B) (l : list A) :
  (forall a s b s', f a s = Done b s' -> s' = s) ->
  forall s bs s', map_M f l s = Done bs s' -> s' = s.
Proof.
  intros Hf. induction l as [|a l IH]; intros s bs s'; simpl.
  - intros Hr. by injection Hr.
  - intros (b & s1 & ->%Hf & (bs' & s2 & ->%IH & Hr)%bind_Done)%bind_Done.
    by injection Hr.
Qed.

Lemma MakeState_inv d u d' :
  DiagramContext.MakeState d = Done u d' ->
  DiagramContext.wiring d' = DiagramContext.wiring d /\
  length (DiagramContext.contexts_ d') = length (DiagramContext.contexts_ d).
Proof.
  unfold DiagramContext.MakeState.
  intros (cs & s1 & [= <- <-] & Hk)%bind_Done.
  apply bind_Done in Hk as (cs' & s2 & Hm & [= <- <-]).
  assert (s2 = d) as ->.
  { eapply map_M_state; [|exact Hm]. intros a s b s'.
    intros (c' & s0 & [_ ->]%defined_Done & Hr)%bind_Done. by injection Hr. }
  split; [reflexivity|]. simpl. by eapply map_M_length.
Qed.

Lemma ExportInput_inv d id u d' :
  DiagramContext.ExportInput id d = Done u d' ->
  d' = DiagramContext.with_input_ids (DiagramContext.input_ids_ d ++ [id]) d.
Proof.
  unfold DiagramContext.ExportInput, DiagramContext.contexts_at.
  intros (c & s1 & [_ ->]%defined_Done & Hk)%bind_Done.
  apply bind_Done in Hk as (u1 & s2 & [_ ->]%DRAKE_DEMAND_Done & [= <- <-]).
  done.
Qed.

Lemma clone_subsystems_inv env d indices :
  forall clone m clone' m',
    fold_M (DiagramContext.clone_subsystem env d) clone indices m = Done clone' m' ->
    DiagramContext.wiring clone' = DiagramContext.wiring clone /\
    length (DiagramContext.contexts_ clone') = length (DiagramContext.contexts_ clone).
Proof.
  induction indices as [|i indices IH]; intros clone m clone' m'; simpl.
  - by intros [= <- <-].
  - intros (clone1 & m1 & Hs & [Hw Hl]%IH)%bind_Done.
    rewrite Hw, Hl. clear Hw Hl IH.
    unfold DiagramContext.clone_subsystem in Hs.
    apply bind_Done in Hs as (c & s1 & _ & Hs).
    apply bind_Done in Hs as (c1 & s2 & _ & Hs).
    apply bind_Done in Hs as (o & s3 & _ & Hs).
    apply bind_Done in Hs as (o1 & s4 & _ & Hs).
    apply bind_Done in Hs as (c' & s5 & _ & Hs).
    apply bind_Done in Hs as (r & s6 & [Ha _]%run_on_inv & [= <-]).
    by apply AddSystem_inv in Ha.
Qed.

Lemma foldl_insert_lookup {K A} `{Countable K} (l : list (K * A)) :
  forall (g : gmap K A) k,
    NoDup l.*1 ->
    foldl (fun g x => <[x.1 := x.2]> g) g l !! k
    = match (list_to_map l : gmap K A) !! k with Some v => Some v | None => g !! k end.
Proof.
  induction l as [|x l IH]; intros g k Hnd; simpl.
  - by rewrite lookup_empty.
  - apply NoDup_cons in Hnd as [Hx Hnd]. rewrite IH by done.
    destruct (decide (x.1 = k)) as [<-|Hne].
    + rewrite (not_elem_of_list_to_map_1 l (x.1)) by done.
      by rewrite !lookup_insert_eq.
    + by rewrite !lookup_insert_ne by done.
Qed.

Lemma replay_connections_inv connections :
  forall clone m clone' m',
    fold_M (fun clone connection =>
              bind (run_on clone (DiagramContext.Connect connection.2 connection.1))
                   (fun r => ret r.2))
           clone connections m = Done clone' m' ->
    DiagramContext.this clone' = DiagramContext.this clone /\
    DiagramContext.input_ids_ clone' = DiagramContext.input_ids_ clone /\
    DiagramContext.output_ids_ clone' = DiagramContext.output_ids_ clone /\
    length (DiagramContext.contexts_ clone') = length (DiagramContext.contexts_ clone) /\
    DiagramContext.dependency_graph_ clone'
    = foldl (fun g x => <[x.1 := x.2]> g) (DiagramContext.dependency_graph_ clone) connections.
Proof.
  induction connections as [|x l IH]; intros clone m clone' m'; simpl.
  - by intros [= <- <-].
  - intros (clone1 & m1 & Hs & (Ht & Hi & Ho & Hl & Hg)%IH)%bind_Done.
    rewrite Ht, Hi, Ho, Hl, Hg. clear Ht Hi Ho Hl Hg IH.
    apply bind_Done in Hs as (r & s1 & [Hc _]%run_on_inv & [= <-]).
    destruct r as [[] d1]. simpl in *.
    apply Connect_inv in Hc as (o & c & c' & _ & _ & _ & _ & _ & ->).
    simpl. by rewrite length_vec_set.
Qed.

Lemma replay_inputs_inv ids :
  forall clone m clone' m',
    fold_M (fun clone id =>
              bind (run_on clone (DiagramContext.ExportInput id)) (fun r => ret r.2))
           clone ids m = Done clone' m' ->
    clone' = DiagramContext.with_input_ids (DiagramContext.input_ids_ clone ++ ids) clone.
Proof.
  induction ids as [|id ids IH]; intros clone m clone' m'; simpl.
  - intros [= <- <-]. rewrite app_nil_r. by destruct clone.
  - intros (clone1 & m1 & Hs & ->%IH)%bind_Done.
    apply bind_Done in Hs as (r & s1 & [Hc _]%run_on_inv & [= <-]).
    apply ExportInput_inv in Hc. rewrite Hc. simpl. by rewrite <-app_assoc.
Qed.

Lemma connections_graph d :
  foldl (fun g x => <[x.1 := x.2]> g) ∅ (DiagramContext.connections d)
  = DiagramContext.dependency_graph_ d.
Proof.
  unfold DiagramContext.connections.
  set (l := merge_sort _ _).
  assert (Hp : l ≡ₚ map_to_list (DiagramContext.dependency_graph_ d))
    by apply merge_sort_Permutation.
  assert (Hnd : NoDup l.*1).
  { rewrite Hp. apply NoDup_fst_map_to_list. }
  apply map_eq. intros k. rewrite foldl_insert_lookup by done.
  rewrite lookup_empty.
  rewrite (list_to_map_proper l (map_to_list (DiagramContext.dependency_graph_ d)))
    by done.
  rewrite list_to_map_to_list. by destruct (_ !! k).
Qed.

(** Whenever [DoClone] completes, the clone is a new object with as many
    subsystems, the connections and the exported inputs of the original,
    and no exported output. *)
Lemma DoClone_inv env d m clone m' :
  DiagramContext.DoClone env d m = Done clone m' ->
  DiagramContext.this clone = next_object m /\
  DiagramContext.num_subsystems clone = DiagramContext.num_subsystems d /\
  DiagramContext.dependency_graph_ clone = DiagramContext.dependency_graph_ d /\
  DiagramContext.input_ids_ clone = DiagramContext.input_ids_ d /\
  DiagramContext.get_num_input_ports clone = DiagramContext.get_num_input_ports d /\
  DiagramContext.output_ids_ clone = [] /\
  DiagramContext.get_num_output_ports clone = 0.
Proof.
  unfold DiagramContext.DoClone.
  intros (self & m1 & [= <- <-] & Hk)%bind_Done.
  apply bind_Done in Hk as (clone1 & m2 & [Hw1 Hl1]%clone_subsystems_inv & Hk).
  apply bind_Done in Hk as (r & m3 & [[Hw2 Hl2]%MakeState_inv _]%run_on_inv & Hk).
  apply bind_Done in Hk as (clone3 & m4 & (Ht & Hi & Ho & Hl3 & Hg)%replay_connections_inv & Hk).
  apply bind_Done in Hk as (clone4 & m5 & ->%replay_inputs_inv & [= <-]).
  rewrite Hw1 in Hw2. unfold DiagramContext.wiring in Hw2. simpl in Hw2.
  injection Hw2 as Ht2 Hi2 Ho2 Hg2 Hv2.
  rewrite Ht2 in Ht. rewrite Hi2 in Hi. rewrite Ho2 in Ho. rewrite Hg2 in Hg.
  unfold DiagramContext.get_num_input_ports, DiagramContext.get_num_output_ports,
    DiagramContext.num_subsystems. simpl.
  rewrite Hi, Ho, Hg, Ht, Hl3, Hl2, Hl1. simpl.
  rewrite connections_graph, length_replicate.
  repeat split; try done. unfold DiagramContext.num_subsystems. lia.
Qed.
End clone_facts.

Section invariant_facts.
Context {T : Type} `{Scalar T} {V : Type}.
Context {C : Type} `{ops : Virtual.Context T V C}.
Implicit Types (d : DiagramContext.t T V C) (index : Z).

(** The constructor establishes the class invariant and [Connect] keeps
    it; the other operations, [AddSystem] apart, do not write the slots
    of [contexts_] or [outputs_]. *)
Lemma create_parallel self n :
  DiagramContext.parallel (DiagramContext.create self n : DiagramContext.t T V C).
Proof.
  unfold DiagramContext.parallel. simpl.
  induction (Z.to_nat n) as [|k IH]; simpl; [constructor|by constructor].
Qed.

Lemma create_num_subsystems self n :
  0 <= n ->
  DiagramContext.num_subsystems (DiagramContext.create self n : DiagramContext.t T V C) = n.
Proof.
  intros Hn. unfold DiagramContext.num_subsystems. simpl. rewrite length_replicate. lia.
Qed.

Lemma Connect_parallel src dest d d' :
  DiagramContext.parallel d ->
  DiagramContext.Connect src dest d = Done tt d' ->
  DiagramContext.parallel d'.
Proof.
  intros Hp (o & c & c' & _ & _ & Hc & _ & _ & ->)%Connect_inv.
  unfold DiagramContext.parallel in *. simpl.
  apply vec_at_Some in Hc as [Hi Hc]. unfold vec_set.
  destruct (Z.leb_spec 0 dest.1); [|lia].
  rewrite <-(list_insert_id (DiagramContext.outputs_ d) (Z.to_nat dest.1)
               (default None (DiagramContext.outputs_ d !! Z.to_nat dest.1))).
  - apply Forall2_insert; [done|].
    destruct (Forall2_lookup_l _ _ _ _ _ Hp Hc) as (o' & -> & Hn). done.
  - destruct (Forall2_lookup_l _ _ _ _ _ Hp Hc) as (o' & -> & Hn). done.
Qed.
Lemma ExportInput_parallel id d d' :
  DiagramContext.parallel d ->
  DiagramContext.ExportInput id d = Done tt d' ->
  DiagramContext.parallel d'.
Proof. intros Hp ->%ExportInput_inv. exact Hp. Qed.

Lemma set_time_parallel time_sec d :
  DiagramContext.parallel d -> DiagramContext.parallel (DiagramContext.set_time time_sec d).
Proof.
  unfold DiagramContext.parallel, DiagramContext.set_time. simpl.
  induction 1 as [|c o cs os Hco _ IH]; simpl; [constructor|].
  constructor; [by destruct c|exact IH].
Qed.
End invariant_facts.

(** *** The properties at concrete caches and contexts *)

Lemma fixture_wf : Cache.wf (Cache.heap_ Scenario.fixture) (Cache.cache_ Scenario.fixture).
Proof.
  split.
  - intros ticket l (e & He & Hv).
    destruct ticket as [|[|[|ticket]]]; vm_compute in He; simplify_eq/=; lia.
  - intros t1 t2 l (e1 & He1 & Hv1) (e2 & He2 & Hv2).
    destruct t1 as [|[|[|t1]]]; vm_compute in He1; simplify_eq/=;
      destruct t2 as [|[|[|t2]]]; vm_compute in He2; simplify_eq/=; done.
Defined.

Lemma invalidation_is_recursive_witness :
  Cache.dag Cache.empty /\
  exists f c1,
    Cache.SetUp Scenario.heap0 Cache.empty 0 1 2 = Cache.Ok f /\
    Cache.invalidate (Cache.cache_ f) (Cache.ticket1_ f) = Cache.Ok c1 /\
    Cache.get_value (Cache.heap_ f) c1 (Cache.ticket0_ f) = Cache.Ok (Some 0) /\
    Cache.get c1 (Cache.ticket1_ f) = Cache.Ok None /\
    Cache.reach (Cache.cache_ f) (Cache.ticket1_ f) (Cache.ticket2_ f) /\
    (forall ticket, Cache.reach (Cache.cache_ f) (Cache.ticket1_ f) ticket ->
                    Cache.get c1 ticket = Cache.Ok None) /\
    exists p h2 c2 c3,
      Cache.set (Cache.heap_ f) c1 (Cache.ticket2_ f) 76 = Cache.Ok (p, h2, c2) /\
      Cache.get_value h2 c2 (Cache.ticket2_ f) = Cache.Ok (Some 76) /\
      Cache.invalidate c2 (Cache.ticket1_ f) = Cache.Ok c3 /\
      Cache.get c3 (Cache.ticket2_ f) = Cache.Ok None.
Proof.
  assert (Hd : Cache.dag Cache.empty) by (intros ticket e He; inversion He).
  split; [exact Hd|].
  exact (invalidation_is_recursive Scenario.heap0 Cache.empty 0 1 2 76 Hd).
Defined.

Lemma clone_independence_witness :
  Cache.wf (Cache.heap_ Scenario.fixture) (Cache.cache_ Scenario.fixture) /\
  let h := Cache.heap_ Scenario.fixture in
  let c := Cache.cache_ Scenario.fixture in
  Cache.observe (Cache.clone h c).2 (Cache.clone h c).1 = Cache.observe h c /\
  Cache.observe (Cache.clone h c).2 c = Cache.observe h c /\
  (forall ops,
      Cache.observe (Cache.run ops ((Cache.clone h c).2, (Cache.clone h c).1)).1 c
      = Cache.observe h c) /\
  (forall ops,
      Cache.observe (Cache.run ops ((Cache.clone h c).2, c)).1 (Cache.clone h c).1
      = Cache.observe h c).
Proof.
  split; [exact fixture_wf|].
  exact (clone_independence _ _ fixture_wf).
Defined.

Lemma invalidation_is_not_deletion_witness :
  let h := Cache.heap_ Scenario.fixture in
  let c := Cache.cache_ Scenario.fixture in
  let ops := [Cache.OpInvalidate 0%nat; Cache.OpSet 2%nat 76; Cache.OpSwap 1%nat 7;
              Cache.OpMakeTicket [1%nat]] in
  Cache.wf h c /\
  Cache.get c 1%nat = Cache.Ok (Some 1%nat) /\
  Cache.deref h 1%nat = Some 1 /\
  Forall (fun o => ~ Cache.sets_ticket 1%nat o) ops /\
  exists c1,
    Cache.invalidate c 1%nat = Cache.Ok c1 /\
    Cache.get c1 1%nat = Cache.Ok None /\
    Cache.deref h 1%nat = Some 1 /\
    Cache.deref (Cache.run ops (h, c1)).1 1%nat = Some 1.
Proof.
  intros h c ops.
  assert (Hg : Cache.get c 1%nat = Cache.Ok (Some 1%nat)) by (vm_compute; reflexivity).
  assert (Hv : Cache.deref h 1%nat = Some 1) by (vm_compute; reflexivity).
  assert (Ho : Forall (fun o => ~ Cache.sets_ticket 1%nat o) ops).
  { repeat constructor; simpl; intros ?; lia. }
  split; [exact fixture_wf|]. split; [exact Hg|]. split; [exact Hv|]. split; [exact Ho|].
  exact (invalidation_is_not_deletion h c 1%nat 1%nat 1 ops fixture_wf Hg Hv Ho).
Defined.

Lemma set_time_propagates_witness :
  DiagramContext.all_installed Scenario.nested /\
  DiagramContext.get_time (DiagramContext.set_time 7 Scenario.nested) = 7 /\
  forall index,
    0 <= index < DiagramContext.num_subsystems Scenario.nested ->
    exists c,
      DiagramContext.GetSubsystemContext index (DiagramContext.set_time 7 Scenario.nested)
      = Done c (DiagramContext.set_time 7 Scenario.nested) /\
      Virtual.get_time c = 7.
Proof.
  assert (Ha : DiagramContext.all_installed Scenario.nested).
  { unfold DiagramContext.all_installed. vm_compute. repeat constructor. }
  split; [exact Ha|].
  exact (set_time_propagates Scenario.nested 7 Ha).
Defined.

Lemma AddSystem_spec_witness :
  let d : DiagramContext.t Z Z (Context.t Z Z) := DiagramContext.create 7%nat 2 in
  DiagramContext.parallel d /\
  (1 < 0 \/ DiagramContext.num_subsystems d <= 1 \/ DiagramContext.installed d 1 ->
   DiagramContext.AddSystem 1 Scenario.leaf Scenario.outputs d = Aborted d) /\
  (0 <= 1 < DiagramContext.num_subsystems d -> ~ DiagramContext.installed d 1 ->
   exists d',
     DiagramContext.AddSystem 1 Scenario.leaf Scenario.outputs d = Done tt d' /\
     DiagramContext.parallel d' /\
     DiagramContext.num_subsystems d' = DiagramContext.num_subsystems d /\
     (exists c, DiagramContext.GetSubsystemContext 1 d' = Done c d' /\
                c = Virtual.set_parent_and_index (DiagramContext.this d) 1 Scenario.leaf /\
                Virtual.get_parent c = Some (DiagramContext.this d, 1)) /\
     DiagramContext.GetSubsystemOutput 1 d' = Done Scenario.outputs d' /\
     (forall j, j <> 1 ->
                vec_at (DiagramContext.contexts_ d') j = vec_at (DiagramContext.contexts_ d) j /\
                vec_at (DiagramContext.outputs_ d') j = vec_at (DiagramContext.outputs_ d) j) /\
     DiagramContext.with_outputs (DiagramContext.outputs_ d)
       (DiagramContext.with_contexts (DiagramContext.contexts_ d) d') = d).
Proof.
  intros d.
  assert (Hp : DiagramContext.parallel d).
  { unfold DiagramContext.parallel. vm_compute. repeat constructor. }
  split; [exact Hp|].
  exact (AddSystem_spec d 1 Scenario.leaf Scenario.outputs Hp).
Defined.

Lemma export_checks_installation_only_witness :
  vec_at (DiagramContext.contexts_ Scenario.exported) 1 = Some (Some
    (Context.set_parent_and_index 7%nat 1
       (Context.with_inputs
          [Some (DependentInputPort (mkOutputPortPtr 7%nat 0 1)); None] Scenario.leaf))) /\
  Context.get_num_input_ports Scenario.leaf = 2 /\
  get_num_ports Scenario.outputs = 2 /\
  (exists d',
      DiagramContext.ExportInput (1, 99) Scenario.exported = Done tt d' /\
      DiagramContext.input_ids_ d' = [(0, 0); (1, 99)] /\
      DiagramContext.get_num_input_ports d' = 2 /\
      vec_at (DiagramContext.input_ids_ d') 1 = Some (1, 99)) /\
  (exists d',
      DiagramContext.ExportOutput (1, 99) Scenario.exported = Done tt d' /\
      DiagramContext.output_ids_ d' = [(1, 1); (1, 99)] /\
      DiagramContext.get_num_output_ports d' = 2 /\
      vec_at (DiagramContext.output_ids_ d') 1 = Some (1, 99)).
Proof.
  assert (Hc : vec_at (DiagramContext.contexts_ Scenario.exported) 1 = Some (Some
    (Context.set_parent_and_index 7%nat 1
       (Context.with_inputs
          [Some (DependentInputPort (mkOutputPortPtr 7%nat 0 1)); None] Scenario.leaf))))
    by (vm_compute; reflexivity).
  split; [exact Hc|]. split; [reflexivity|]. split; [reflexivity|].
  destruct (proj1 (export_checks_installation_only Scenario.exported 1 99) _ Hc)
    as [(d1 & He1 & Hi1 & Hn1 & Hv1 & _) (d2 & He2 & Hi2 & Hn2 & Hv2 & _)].
  split.
  - exists d1. split; [exact He1|]. split; [exact Hi1|]. split; [exact Hn1|exact Hv1].
  - exists d2. split; [exact He2|]. split; [exact Hi2|]. split; [exact Hn2|exact Hv2].
Defined.

Lemma reconnect_breaks_transpose_witness :
  let d := Scenario.inner 7%nat in
  let d1 := match DiagramContext.Connect (0, 0) (1, 0) d with Done _ x => x | _ => d end in
  let d2 := match DiagramContext.Connect (0, 1) (1, 0) d1 with Done _ x => x | _ => d1 end in
  ((0, 0) : Z * Z) <> (0, 1) /\
  DiagramContext.Connect (0, 0) (1, 0) d = Done tt d1 /\
  DiagramContext.Connect (0, 1) (1, 0) d1 = Done tt d2 /\
  DiagramContext.dependency_graph_ d2 !! (1, 0) = Some (0, 1) /\
  (1, 0) ∈ default [] (DiagramContext.inverse_dependency_graph_ d2 !! (0, 0)) /\
  (1, 0) ∈ default [] (DiagramContext.inverse_dependency_graph_ d2 !! (0, 1)) /\
  ~ DiagramContext.transposed d2.
Proof.
  intros d d1 d2.
  assert (Hne : ((0, 0) : Z * Z) <> (0, 1)) by discriminate.
  assert (H1 : DiagramContext.Connect (0, 0) (1, 0) d = Done tt d1)
    by (vm_compute; reflexivity).
  assert (H2 : DiagramContext.Connect (0, 1) (1, 0) d1 = Done tt d2)
    by (vm_compute; reflexivity).
  split; [exact Hne|]. split; [exact H1|]. split; [exact H2|].
  exact (reconnect_breaks_transpose d d1 d2 (0, 0) (0, 1) (1, 0) Hne H1 H2).
Defined.

(** C3. In a diagram context where output 0 of subsystem 0 feeds input 0
    of a subsystem that holds a valid cache entry depending on that input,
    [PropagateInvalidOutputs] for that output completes and leaves the
    diagram context as it was: the consumer is listed under the output,
    its entry is still valid after the call, and only invalidating its
    input would make it absent. *)
Theorem PropagateInvalidOutputs_leaves_consumers_valid :
  exists consumer p,
    Scenario.build_wired (DiagramContext.create 7%nat 2) = Done tt Scenario.wired /\
    DiagramContext.inverse_dependency_graph_ Scenario.wired !! (0, 0) = Some [(1, 0)] /\
    DiagramContext.PropagateInvalidOutputs 0 0 Scenario.wired = Done tt Scenario.wired /\
    vec_at (DiagramContext.contexts_ Scenario.wired) 1 = Some (Some consumer) /\
    vec_at (Context.input_tickets_ consumer) 0 = Some 2%nat /\
    Cache.reach (Context.cache_ consumer) 2%nat Scenario.user_ticket /\
    Cache.get (Context.cache_ consumer) Scenario.user_ticket = Cache.Ok (Some p) /\
    Cache.get (Context.cache_ (Context.InvalidateInputPort 0 consumer)) Scenario.user_ticket
    = Cache.Ok None.
Proof.
  eexists _, _.
  split; [vm_compute; reflexivity|].
  split; [vm_compute; reflexivity|].
  split; [reflexivity|].
  split; [vm_compute; reflexivity|].
  split; [vm_compute; reflexivity|].
  split; [|split; vm_compute; reflexivity].
  eapply Cache.reach_step; [|apply Cache.reach_refl]. vm_compute. by left.
Qed.

(** C4. Cloning the diagram context with one exported input, one exported
    output and one connection completes; the clone has the connection and
    the exported input of the original, its dependent input port refers to
    the output set of the clone, but it has no exported output, whereas
    the original has one. *)
Theorem DoClone_drops_exported_outputs :
  exists clone m consumer,
    Scenario.build_exported (DiagramContext.create 7%nat 2) = Done tt Scenario.exported /\
    DiagramContext.DoClone (fun _ => None) Scenario.exported Scenario.mem0 = Done clone m /\
    DiagramContext.num_subsystems clone = DiagramContext.num_subsystems Scenario.exported /\
    DiagramContext.dependency_graph_ clone = DiagramContext.dependency_graph_ Scenario.exported /\
    DiagramContext.input_ids_ clone = DiagramContext.input_ids_ Scenario.exported /\
    vec_at (DiagramContext.contexts_ clone) 1 = Some (Some consumer) /\
    vec_at (Context.inputs_ consumer) 0
    = Some (Some (DependentInputPort (mkOutputPortPtr (DiagramContext.this clone) 0 1))) /\
    DiagramContext.this clone <> DiagramContext.this Scenario.exported /\
    DiagramContext.get_num_output_ports Scenario.exported = 1 /\
    DiagramContext.get_num_output_ports clone = 0.
Proof.
  eexists _, _, _.
  split; [vm_compute; reflexivity|].
  split; [vm_compute; reflexivity|].
  split; [vm_compute; reflexivity|].
  split; [vm_compute; reflexivity|].
  split; [vm_compute; reflexivity|].
  split; [vm_compute; reflexivity|].
  split; [vm_compute; reflexivity|].
  split; [vm_compute; lia|].
  split; vm_compute; reflexivity.
Qed.

(** *** The tests of [cache_test.cc] on the fixture *)

Example test_InvalidationIsRecursive :
  let f := Scenario.fixture in
  exists c1,
    Cache.invalidate (Cache.cache_ f) 1%nat = Cache.Ok c1 /\
    Cache.get_value (Cache.heap_ f) c1 0%nat = Cache.Ok (Some 0) /\
    Cache.get c1 1%nat = Cache.Ok None /\
    Cache.get c1 2%nat = Cache.Ok None.
Proof. eexists. repeat split; vm_compute; reflexivity. Qed.

Example test_InvalidationDoesNotStopOnNullptr :
  let f := Scenario.fixture in
  exists c1 r c3,
    Cache.invalidate (Cache.cache_ f) 1%nat = Cache.Ok c1 /\
    Cache.set (Cache.heap_ f) c1 2%nat 76 = Cache.Ok r /\
    Cache.invalidate r.2 1%nat = Cache.Ok c3 /\
    Cache.get c3 2%nat = Cache.Ok None.
Proof. eexists _, _, _. repeat split; vm_compute; reflexivity. Qed.

Example test_Clone :
  let f := Scenario.fixture in
  let clone := Cache.clone (Cache.heap_ f) (Cache.cache_ f) in
  Cache.get_value clone.2 clone.1 0%nat = Cache.Ok (Some 0) /\
  Cache.get_value clone.2 clone.1 1%nat = Cache.Ok (Some 1) /\
  Cache.get_value clone.2 clone.1 2%nat = Cache.Ok (Some 2) /\
  exists c1,
    Cache.invalidate clone.1 0%nat = Cache.Ok c1 /\
    Cache.get c1 0%nat = Cache.Ok None /\
    Cache.get c1 1%nat = Cache.Ok None /\
    Cache.get c1 2%nat = Cache.Ok None /\
    Cache.get_value clone.2 (Cache.cache_ f) 0%nat = Cache.Ok (Some 0) /\
    Cache.get_value clone.2 (Cache.cache_ f) 1%nat = Cache.Ok (Some 1) /\
    Cache.get_value clone.2 (Cache.cache_ f) 2%nat = Cache.Ok (Some 2).
Proof.
  intros f clone. split; [vm_compute; reflexivity|]. split; [vm_compute; reflexivity|].
  split; [vm_compute; reflexivity|]. eexists. repeat split; vm_compute; reflexivity.
Qed.

Example test_SwapReturnsAndSetsValue :
  let f := Scenario.fixture in
  exists ticket c1 r1 p r2,
    Cache.make_ticket (Cache.cache_ f) [] = Cache.Ok (ticket, c1) /\
    Cache.set (Cache.heap_ f) c1 ticket 42 = Cache.Ok r1 /\
    Cache.swap r1.1.2 r1.2 ticket 43 = Cache.Ok (Some p, r2.1, r2.2) /\
    Cache.deref r2.1 p = Some 42 /\
    Cache.get_value r2.1 r2.2 ticket = Cache.Ok (Some 43).
Proof.
  eexists _, _, _, _, (_, _). repeat split; vm_compute; reflexivity.
Qed.


(** *** Further properties of the diagram context *)

Section accessor_facts.
Context {T : Type} `{Scalar T} {V : Type}.
Context {C : Type} `{ops : Virtual.Context T V C}.
Implicit Types (d : DiagramContext.t T V C) (index : Z).

Lemma vec_at_out_of_range {A} (v : list A) (i : Z) :
  i < 0 \/ Z.of_nat (length v) <= i -> vec_at v i = None.
Proof.
  intros Hi. unfold vec_at. destruct (Z.leb_spec 0 i); [|done].
  apply lookup_ge_None. lia.
Qed.

Lemma GetSubsystemContext_eq d index :
  DiagramContext.GetSubsystemContext index d
  = match vec_at (DiagramContext.contexts_ d) index with
    | Some (Some c) => Done c d
    | _ => Aborted d
    end.
Proof.
  unfold DiagramContext.GetSubsystemContext, bind, gets, DRAKE_DEMAND,
    DiagramContext.contexts_at, defined, DRAKE_DEMAND_nonnull, DiagramContext.num_subsystems.
  destruct (Z.leb_spec 0 index); simpl.
  - destruct (Z.ltb_spec index (Z.of_nat (length (DiagramContext.contexts_ d)))).
    + destruct (vec_at_in_range (DiagramContext.contexts_ d) index) as [[c|] ->]; [lia|done..].
    + by rewrite vec_at_out_of_range by lia.
  - by rewrite vec_at_out_of_range by lia.
Qed.

Lemma GetSubsystemOutput_eq d index :
  length (DiagramContext.outputs_ d) = length (DiagramContext.contexts_ d) ->
  DiagramContext.GetSubsystemOutput index d
  = match vec_at (DiagramContext.outputs_ d) index with
    | Some (Some o) => Done o d
    | _ => Aborted d
    end.
Proof.
  intros Hlen.
  unfold DiagramContext.GetSubsystemOutput, bind, gets, DRAKE_DEMAND,
    DiagramContext.outputs_at, defined, DRAKE_DEMAND_nonnull, DiagramContext.num_subsystems.
  destruct (Z.leb_spec 0 index); simpl.
  - destruct (Z.ltb_spec index (Z.of_nat (length (DiagramContext.contexts_ d)))).
    + destruct (vec_at_in_range (DiagramContext.outputs_ d) index) as [[c|] ->]; [lia|done..].
    + by rewrite vec_at_out_of_range by lia.
  - by rewrite vec_at_out_of_range by lia.
Qed.

Lemma GetMutableSubsystemContext_eq d index :
  DiagramContext.GetMutableSubsystemContext index d
  = match vec_at (DiagramContext.contexts_ d) index with
    | Some (Some c) => Done c d
    | _ => Aborted d
    end.
Proof. apply GetSubsystemContext_eq. Qed.

(** X1. In a diagram context whose two vectors have the same size, as
    [num_subsystems] asserts, [GetSubsystemContext] and
    [GetMutableSubsystemContext] never read out of bounds: they return the
    context installed at the index and abort for every other index, in
    range or not, and they leave the diagram context as it is. *)
Theorem GetSubsystemContext_checked d index :
  length (DiagramContext.outputs_ d) = length (DiagramContext.contexts_ d) ->
  DiagramContext.GetSubsystemContext index d
  = match vec_at (DiagramContext.contexts_ d) index with
    | Some (Some c) => Done c d
    | _ => Aborted d
    end /\
  DiagramContext.GetMutableSubsystemContext index d
  = DiagramContext.GetSubsystemContext index d.
Proof. intros _. split; [apply GetSubsystemContext_eq|done]. Qed.

(** X2. When [outputs_] is as long as [contexts_], [GetSubsystemOutput]
    never reads out of bounds either: it returns the output set installed
    at the index and aborts for every other index. *)
Theorem GetSubsystemOutput_checked d index :
  length (DiagramContext.outputs_ d) = length (DiagramContext.contexts_ d) ->
  DiagramContext.GetSubsystemOutput index d
  = match vec_at (DiagramContext.outputs_ d) index with
    | Some (Some o) => Done o d
    | _ => Aborted d
    end.
Proof. apply GetSubsystemOutput_eq. Qed.

Lemma vec_at_replicate_None {A} (n : nat) (i : Z) :
  0 <= i < Z.of_nat n -> vec_at (replicate n (@None A)) i = Some None.
Proof.
  intros Hi. apply vec_at_Some. split; [lia|]. apply lookup_replicate_2. lia.
Qed.

(** X3. A diagram context constructed for [n >= 0] subsystems has [n]
    free slots and no exported port: every accessor aborts, exporting a
    port of any slot in range aborts, and [AddSystem] completes at every
    index in range. *)
Theorem create_empty self n :
  0 <= n ->
  let d : DiagramContext.t T V C := DiagramContext.create self n in
  DiagramContext.num_subsystems d = n /\
  DiagramContext.get_num_input_ports d = 0 /\
  DiagramContext.get_num_output_ports d = 0 /\
  (forall index, DiagramContext.GetSubsystemContext index d = Aborted d /\
                 DiagramContext.GetSubsystemOutput index d = Aborted d) /\
  (forall index port_index,
      0 <= index < n ->
      DiagramContext.ExportInput (index, port_index) d = Aborted d /\
      DiagramContext.ExportOutput (index, port_index) d = Aborted d) /\
  (forall index context output,
      0 <= index < n ->
      exists d', DiagramContext.AddSystem index context output d = Done tt d' /\
                 DiagramContext.GetSubsystemContext index d'
                 = Done (Virtual.set_parent_and_index self index context) d').
Proof.
  intros Hn d.
  assert (Hnum : DiagramContext.num_subsystems d = n) by (by apply create_num_subsystems).
  assert (Hslot : forall index, 0 <= index < n ->
            vec_at (DiagramContext.contexts_ d) index = Some None /\
            vec_at (DiagramContext.outputs_ d) index = Some None).
  { intros index Hi. split; apply vec_at_replicate_None; lia. }
  assert (Hnone : forall index,
            (forall c, vec_at (DiagramContext.contexts_ d) index <> Some (Some c)) /\
            (forall o, vec_at (DiagramContext.outputs_ d) index <> Some (Some o))).
  { intros index. destruct (decide (0 <= index < n)) as [Hi|Hi].
    - destruct (Hslot index Hi) as [-> ->]. done.
    - unfold d. simpl. rewrite !vec_at_out_of_range by (rewrite length_replicate; lia). done. }
  split; [done|]. split; [done|]. split; [done|]. split; [|split].
  - intros index. destruct (Hnone index) as [Hc Ho].
    rewrite (GetSubsystemContext_eq d index).
    rewrite GetSubsystemOutput_eq by (unfold d; simpl; by rewrite !length_replicate).
    split.
    + destruct (vec_at (DiagramContext.contexts_ d) index) as [[c|]|]; [by destruct (Hc c)|done..].
    + destruct (vec_at (DiagramContext.outputs_ d) index) as [[o|]|]; [by destruct (Ho o)|done..].
  - intros index port_index Hi. destruct (Hslot index Hi) as [Hc _].
    unfold DiagramContext.ExportInput, DiagramContext.ExportOutput, bind,
      DiagramContext.contexts_at, defined, DRAKE_DEMAND. simpl fst. by rewrite Hc.
  - intros index context output Hi. destruct (Hslot index Hi) as [Hc Ho].
    unfold DiagramContext.AddSystem, bind, gets, DRAKE_DEMAND,
      DiagramContext.contexts_at, DiagramContext.outputs_at, defined, modify.
    rewrite Hnum.
    destruct (Z.leb_spec 0 index); [|lia]. destruct (Z.ltb_spec index n); [|lia].
    simpl andb. cbv iota. rewrite Hc. simpl is_nullptr. cbv iota. rewrite Ho.
    simpl is_nullptr. cbv iota. eexists. split; [done|].
    rewrite (GetSubsystemContext_eq _ index). simpl.
    rewrite vec_at_vec_set_eq; [done|]. rewrite length_replicate. lia.
Qed.

(** X4. [ExportInput] and [ExportOutput] do not check the system index
    against the number of subsystems: outside the range they read
    [contexts_] out of bounds, which is undefined behaviour, where
    [AddSystem] and the accessors abort. *)
Theorem export_out_of_range_undefined d system_index port_index :
  system_index < 0 \/ DiagramContext.num_subsystems d <= system_index ->
  DiagramContext.ExportInput (system_index, port_index) d = Undefined /\
  DiagramContext.ExportOutput (system_index, port_index) d = Undefined /\
  (forall context output,
      DiagramContext.AddSystem system_index context output d = Aborted d) /\
  DiagramContext.GetSubsystemContext system_index d = Aborted d.
Proof.
  intros Hi. unfold DiagramContext.num_subsystems in Hi.
  pose proof (vec_at_out_of_range (DiagramContext.contexts_ d) system_index Hi) as Hc.
  split; [|split; [|split]].
  - unfold DiagramContext.ExportInput, bind, DiagramContext.contexts_at, defined.
    simpl fst. by rewrite Hc.
  - unfold DiagramContext.ExportOutput, bind, DiagramContext.contexts_at, defined.
    simpl fst. by rewrite Hc.
  - intros context output.
    unfold DiagramContext.AddSystem, bind, gets, DRAKE_DEMAND, DiagramContext.num_subsystems.
    destruct (Z.leb_spec 0 system_index); [|done].
    destruct (Z.ltb_spec system_index (Z.of_nat (length (DiagramContext.contexts_ d))));
      [lia|done].
  - rewrite (GetSubsystemContext_eq d system_index). by rewrite Hc.
Qed.
End accessor_facts.

Section wiring_facts.
Context {T : Type} `{Scalar T} {V : Type}.
Context {C : Type} `{ops : Virtual.Context T V C}.
Implicit Types (d : DiagramContext.t T V C) (index : Z).

Lemma ExportInput_installed d id d' :
  DiagramContext.ExportInput id d = Done tt d' -> DiagramContext.installed d id.1.
Proof.
  unfold DiagramContext.ExportInput, DiagramContext.contexts_at.
  intros (c & s1 & [Hc ->]%defined_Done & Hk)%bind_Done.
  apply bind_Done in Hk as (u1 & s2 & [Hn ->]%DRAKE_DEMAND_Done & _).
  destruct c as [c|]; [by exists c|done].
Qed.

Lemma vec_at_app_l {A} (v w : list A) (i : Z) x :
  vec_at v i = Some x -> vec_at (v ++ w) i = Some x.
Proof.
  intros [Hi Hx]%vec_at_Some. apply vec_at_Some. split; [done|].
  by apply lookup_app_l_Some.
Qed.

Lemma vec_at_app_length {A} (v : list A) x :
  vec_at (v ++ [x]) (Z.of_nat (length v)) = Some x.
Proof.
  apply vec_at_Some. split; [lia|]. rewrite Nat2Z.id. apply lookup_app_0.
Qed.

(** X5. A completed [ExportInput] appends: the identifier becomes the
    diagram input with the next index, the inputs exported before keep
    their indices, and the exported outputs, the subsystems, the output
    sets and the graphs are as before. *)
Theorem ExportInput_appends d id d' :
  DiagramContext.ExportInput id d = Done tt d' ->
  DiagramContext.get_num_input_ports d' = DiagramContext.get_num_input_ports d + 1 /\
  vec_at (DiagramContext.input_ids_ d') (DiagramContext.get_num_input_ports d) = Some id /\
  (forall k x, vec_at (DiagramContext.input_ids_ d) k = Some x ->
               vec_at (DiagramContext.input_ids_ d') k = Some x) /\
  DiagramContext.output_ids_ d' = DiagramContext.output_ids_ d /\
  DiagramContext.contexts_ d' = DiagramContext.contexts_ d /\
  DiagramContext.outputs_ d' = DiagramContext.outputs_ d /\
  DiagramContext.dependency_graph_ d' = DiagramContext.dependency_graph_ d /\
  DiagramContext.inverse_dependency_graph_ d' = DiagramContext.inverse_dependency_graph_ d.
Proof.
  intros ->%ExportInput_inv. unfold DiagramContext.get_num_input_ports. simpl.
  split; [rewrite length_app; simpl; lia|].
  split; [apply vec_at_app_length|].
  split; [intros k x; apply vec_at_app_l|done].
Qed.

Lemma call_subsystem_Done {A} d index (m : M C A) c a c' :
  vec_at (DiagramContext.contexts_ d) index = Some (Some c) ->
  m c = Done a c' ->
  DiagramContext.call_subsystem index m d
  = Done a (DiagramContext.with_contexts
              (vec_set index (Some c') (DiagramContext.contexts_ d)) d).
Proof. intros Hc Hm. unfold DiagramContext.call_subsystem. by rewrite Hc, Hm. Qed.

(** X6. Setting the diagram input that a completed [ExportInput] has just
    added is the same as setting, in the subsystem named by the exported
    identifier, the input port named by it; and [DoSetInputPort] at an
    index that is not a diagram input reads [input_ids_] out of bounds.
    The two vectors are taken to have the same size, as [num_subsystems]
    asserts. *)
Theorem DoSetInputPort_dispatches d id d' (port : InputPort V) :
  length (DiagramContext.outputs_ d) = length (DiagramContext.contexts_ d) ->
  DiagramContext.ExportInput id d = Done tt d' ->
  DiagramContext.DoSetInputPort (DiagramContext.get_num_input_ports d) port d'
  = DiagramContext.call_subsystem id.1 (Virtual.SetInputPort id.2 port) d' /\
  (forall index,
      index < 0 \/ DiagramContext.get_num_input_ports d' <= index ->
      DiagramContext.DoSetInputPort index port d' = Undefined).
Proof.
  intros _ He. pose proof (ExportInput_installed _ _ _ He) as [c Hc].
  apply ExportInput_inv in He as ->.
  split.
  - unfold DiagramContext.DoSetInputPort. unfold bind at 1, defined.
    unfold DiagramContext.get_num_input_ports. simpl DiagramContext.input_ids_.
    rewrite vec_at_app_length.
    unfold bind. by rewrite (GetMutableSubsystemContext_Done _ id.1 c).
  - intros index Hi. unfold DiagramContext.DoSetInputPort, bind, defined.
    by rewrite vec_at_out_of_range.
Qed.

(** X7. [Connect] completes exactly when its source names a port of an
    installed output set, its destination names an input port of an
    installed subsystem context, and the [SetInputPort] of that context
    completes on a dependent port on the source output of this diagram
    context; the destination slot then holds what [SetInputPort] has
    made of the context.  The two vectors are taken to have the same
    size, as [num_subsystems] asserts. *)
Theorem Connect_completes (src dest : PortIdentifier) d :
  length (DiagramContext.outputs_ d) = length (DiagramContext.contexts_ d) ->
  (forall d',
      DiagramContext.Connect src dest d = Done tt d' ->
      exists o c c',
        vec_at (DiagramContext.outputs_ d) src.1 = Some (Some o) /\
        0 <= src.2 < get_num_ports o /\
        vec_at (DiagramContext.contexts_ d) dest.1 = Some (Some c) /\
        0 <= dest.2 < Virtual.get_num_input_ports c /\
        Virtual.SetInputPort dest.2
          (DependentInputPort (mkOutputPortPtr (DiagramContext.this d) src.1 src.2)) c
        = Done tt c' /\
        vec_at (DiagramContext.contexts_ d') dest.1 = Some (Some c')) /\
  (forall o c c',
      vec_at (DiagramContext.outputs_ d) src.1 = Some (Some o) ->
      0 <= src.2 < get_num_ports o ->
      vec_at (DiagramContext.contexts_ d) dest.1 = Some (Some c) ->
      0 <= dest.2 < Virtual.get_num_input_ports c ->
      Virtual.SetInputPort dest.2
        (DependentInputPort (mkOutputPortPtr (DiagramContext.this d) src.1 src.2)) c
      = Done tt c' ->
      exists d', DiagramContext.Connect src dest d = Done tt d').
Proof.
  intros Hlen. split.
  - intros d' (o & c & c' & Ho & Hs & Hc & Hd & Hset & ->)%Connect_inv.
    exists o, c, c'. repeat (split; [done|]). simpl.
    apply vec_at_vec_set_eq. apply vec_at_Some in Hc as [? Hc%lookup_lt_Some]. lia.
  - intros o c c' Ho Hs Hc Hd Hset.
    unfold DiagramContext.Connect. unfold bind at 1.
    rewrite (GetSubsystemOutput_eq d src.1 Hlen), Ho.
    unfold bind at 1, DRAKE_DEMAND at 1. destruct (Z.leb_spec 0 src.2); [|lia].
    unfold bind at 1, DRAKE_DEMAND at 1.
    destruct (Z.ltb_spec src.2 (get_num_ports o)); [|lia].
    unfold bind at 1, gets at 1. unfold bind at 1.
    rewrite GetMutableSubsystemContext_eq, Hc.
    unfold bind at 1, DRAKE_DEMAND at 1. destruct (Z.leb_spec 0 dest.2); [|lia].
    unfold bind at 1, DRAKE_DEMAND at 1.
    destruct (Z.ltb_spec dest.2 (Virtual.get_num_input_ports c)); [|lia].
    unfold bind at 1, DiagramContext.call_subsystem. rewrite Hc, Hset.
    unfold bind, modify. eauto.
Qed.

(** X8. After a completed [Connect], the destination is mapped to the
    source and the source lists the destination last, after the consumers
    it listed before; every other destination and every other source is
    as before. *)
Theorem Connect_graphs (src dest : PortIdentifier) d d' :
  DiagramContext.Connect src dest d = Done tt d' ->
  DiagramContext.dependency_graph_ d' !! dest = Some src /\
  (forall dest' : PortIdentifier,
      dest' <> dest ->
      DiagramContext.dependency_graph_ d' !! dest' = DiagramContext.dependency_graph_ d !! dest') /\
  DiagramContext.inverse_dependency_graph_ d' !! src
  = Some (default [] (DiagramContext.inverse_dependency_graph_ d !! src) ++ [dest]) /\
  (forall src' : PortIdentifier,
      src' <> src ->
      DiagramContext.inverse_dependency_graph_ d' !! src'
      = DiagramContext.inverse_dependency_graph_ d !! src').
Proof.
  intros (o & c & c' & _ & _ & _ & _ & _ & ->)%Connect_inv. simpl.
  split; [apply lookup_insert_eq|].
  split; [intros dest' Hne; by apply lookup_insert_ne|].
  split; [apply lookup_insert_eq|].
  intros src' Hne. by apply lookup_insert_ne.
Qed.

Lemma insert_transposed (dep : gmap PortIdentifier PortIdentifier)
      (inv : gmap PortIdentifier (list PortIdentifier)) (src dest : PortIdentifier) :
  (forall s t : PortIdentifier, t ∈ default [] (inv !! s) <-> dep !! t = Some s) ->
  dep !! dest = None ->
  forall s t : PortIdentifier,
    t ∈ default [] (<[src := default [] (inv !! src) ++ [dest]]> inv !! s)
    <-> <[dest := src]> dep !! t = Some s.
Proof.
  intros Ht Hfresh s t.
  destruct (decide (src = s)) as [<-|Hs].
  - rewrite lookup_insert_eq. simpl. rewrite elem_of_app, list_elem_of_singleton, Ht.
    destruct (decide (dest = t)) as [<-|Hd].
    + rewrite lookup_insert_eq. intuition congruence.
    + rewrite lookup_insert_ne by done. intuition congruence.
  - rewrite lookup_insert_ne by done. rewrite Ht.
    destruct (decide (dest = t)) as [<-|Hd].
    + rewrite lookup_insert_eq, Hfresh. intuition congruence.
    + by rewrite lookup_insert_ne.
Qed.

(** X9. [Connect] to a destination that is not connected yet keeps the two
    graphs transposes of each other. *)
Theorem Connect_keeps_transposed (src dest : PortIdentifier) d d' :
  DiagramContext.transposed d ->
  DiagramContext.dependency_graph_ d !! dest = None ->
  DiagramContext.Connect src dest d = Done tt d' ->
  DiagramContext.transposed d'.
Proof.
  intros Ht Hfresh (o & c & c' & _ & _ & _ & _ & _ & ->)%Connect_inv.
  unfold DiagramContext.transposed. simpl. by apply insert_transposed.
Qed.
End wiring_facts.

Section failure_facts.
Context {T : Type} `{Scalar T} {V : Type}.
Context {C : Type} `{ops : Virtual.Context T V C}.
Implicit Types (d : DiagramContext.t T V C) (index : Z).

(** X10. When [Connect] aborts, neither graph has been written, and the
    cause is one of three: the source does not name a port of an
    installed output set, or the destination does not name an input port
    of an installed subsystem context, the diagram context being as it
    was in both cases, or the [SetInputPort] of the destination context
    has aborted, which is then what the destination slot holds.  The two
    vectors are taken to have the same size, as [num_subsystems]
    asserts. *)
Theorem Connect_aborts (src dest : PortIdentifier) d d' :
  length (DiagramContext.outputs_ d) = length (DiagramContext.contexts_ d) ->
  DiagramContext.Connect src dest d = Aborted d' ->
  DiagramContext.dependency_graph_ d' = DiagramContext.dependency_graph_ d /\
  DiagramContext.inverse_dependency_graph_ d'
  = DiagramContext.inverse_dependency_graph_ d /\
  ((d' = d /\
    forall o, vec_at (DiagramContext.outputs_ d) src.1 = Some (Some o) ->
              ~ (0 <= src.2 < get_num_ports o)) \/
   (d' = d /\
    forall c, vec_at (DiagramContext.contexts_ d) dest.1 = Some (Some c) ->
              ~ (0 <= dest.2 < Virtual.get_num_input_ports c)) \/
   (exists c c',
       vec_at (DiagramContext.contexts_ d) dest.1 = Some (Some c) /\
       0 <= dest.2 < Virtual.get_num_input_ports c /\
       Virtual.SetInputPort dest.2
         (DependentInputPort (mkOutputPortPtr (DiagramContext.this d) src.1 src.2)) c
       = Aborted c' /\
       vec_at (DiagramContext.contexts_ d') dest.1 = Some (Some c'))).
Proof.
  intros Hlen. unfold DiagramContext.Connect. unfold bind at 1.
  rewrite (GetSubsystemOutput_eq d src.1 Hlen).
  destruct (vec_at (DiagramContext.outputs_ d) src.1) as [[o|]|] eqn:Ho;
    [|intros [= <-]; split; [done|]; split; [done|]; left; split; [done|];
      intros o' [=]..].
  unfold bind at 1, DRAKE_DEMAND at 1. destruct (Z.leb_spec 0 src.2).
  2:{ intros [= <-]. split; [done|]. split; [done|]. left. split; [done|].
      intros o' [= <-]. lia. }
  unfold bind at 1, DRAKE_DEMAND at 1. destruct (Z.ltb_spec src.2 (get_num_ports o)).
  2:{ intros [= <-]. split; [done|]. split; [done|]. left. split; [done|].
      intros o' [= <-]. lia. }
  unfold bind at 1, gets at 1. unfold bind at 1.
  rewrite GetMutableSubsystemContext_eq.
  destruct (vec_at (DiagramContext.contexts_ d) dest.1) as [[c|]|] eqn:Hc;
    [|intros [= <-]; split; [done|]; split; [done|]; right; left; split; [done|];
      intros c' [=]..].
  unfold bind at 1, DRAKE_DEMAND at 1. destruct (Z.leb_spec 0 dest.2).
  2:{ intros [= <-]. split; [done|]. split; [done|]. right. left. split; [done|].
      intros c0 [= <-]. lia. }
  unfold bind at 1, DRAKE_DEMAND at 1.
  destruct (Z.ltb_spec dest.2 (Virtual.get_num_input_ports c)).
  2:{ intros [= <-]. split; [done|]. split; [done|]. right. left. split; [done|].
      intros c0 [= <-]. lia. }
  unfold bind at 1, DiagramContext.call_subsystem. rewrite Hc.
  destruct (Virtual.SetInputPort _ _ c) as [u c'|c'|] eqn:Hs; [done| |done].
  intros [= <-]. split; [done|]. split; [done|]. right. right.
  exists c, c'. split; [done|]. split; [lia|]. split; [done|]. simpl.
  apply vec_at_vec_set_eq. apply vec_at_Some in Hc as [? Hc%lookup_lt_Some]. lia.
Qed.

(** X11. With [outputs_] as long as [contexts_], [Connect] reads neither
    vector out of bounds and dereferences no null pointer: if the
    [SetInputPort] of the installed subsystem contexts has defined
    behaviour, so has [Connect], for all port identifiers. *)
Theorem Connect_defined (src dest : PortIdentifier) d :
  length (DiagramContext.outputs_ d) = length (DiagramContext.contexts_ d) ->
  (forall c,
      vec_at (DiagramContext.contexts_ d) dest.1 = Some (Some c) ->
      Virtual.SetInputPort dest.2
        (DependentInputPort (mkOutputPortPtr (DiagramContext.this d) src.1 src.2)) c
      <> Undefined) ->
  DiagramContext.Connect src dest d <> Undefined.
Proof.
  intros Hlen Hdef.
  unfold DiagramContext.Connect. unfold bind at 1.
  rewrite (GetSubsystemOutput_eq d src.1) by done.
  destruct (vec_at (DiagramContext.outputs_ d) src.1) as [[o|]|]; [|done..].
  unfold bind at 1, DRAKE_DEMAND at 1. destruct (0 <=? src.2); [|done].
  unfold bind at 1, DRAKE_DEMAND at 1.
  destruct (src.2 <? get_num_ports o); [|done].
  unfold bind at 1, gets at 1. unfold bind at 1.
  rewrite GetMutableSubsystemContext_eq.
  destruct (vec_at (DiagramContext.contexts_ d) dest.1) as [[c|]|] eqn:Hc; [|done..].
  unfold bind at 1, DRAKE_DEMAND at 1. destruct (0 <=? dest.2); [|done].
  unfold bind at 1, DRAKE_DEMAND at 1.
  destruct (dest.2 <? Virtual.get_num_input_ports c); [|done].
  unfold bind at 1, DiagramContext.call_subsystem. rewrite Hc.
  specialize (Hdef c eq_refl).
  destruct (Virtual.SetInputPort _ _ c) as [u c'|c'|] eqn:Hs; [done|done|done].
Qed.

(** X12. [set_time] may run on a diagram context that is still being
    built: a free slot is skipped and stays free, the subsystem context
    in an installed slot becomes what its own [set_time] makes of it and
    reports the new time, no slot is added or removed, and [outputs_]
    still runs parallel to [contexts_] if it did.  The base object goes
    through [set_time] of [ContextBase], which invalidates what depends
    on the time before it writes the time. *)
Theorem set_time_skips_free_slots `{!Virtual.Lawful ops} d (time_sec : T) index :
  (vec_at (DiagramContext.contexts_ d) index = Some None ->
   vec_at (DiagramContext.contexts_ (DiagramContext.set_time time_sec d)) index = Some None) /\
  (forall c,
      vec_at (DiagramContext.contexts_ d) index = Some (Some c) ->
      vec_at (DiagramContext.contexts_ (DiagramContext.set_time time_sec d)) index
      = Some (Some (Virtual.set_time time_sec c)) /\
      Virtual.get_time (Virtual.set_time time_sec c) = time_sec) /\
  (vec_at (DiagramContext.contexts_ d) index = None ->
   vec_at (DiagramContext.contexts_ (DiagramContext.set_time time_sec d)) index = None) /\
  DiagramContext.super (DiagramContext.set_time time_sec d)
  = Context.with_step_info (Context.mkStepInfo time_sec)
      (Context.InvalidateTime (DiagramContext.super d)) /\
  DiagramContext.get_time (DiagramContext.set_time time_sec d) = time_sec /\
  DiagramContext.num_subsystems (DiagramContext.set_time time_sec d)
  = DiagramContext.num_subsystems d /\
  (DiagramContext.parallel d -> DiagramContext.parallel (DiagramContext.set_time time_sec d)).
Proof.
  rewrite set_time_contexts.
  split; [by intros ->|]. split.
  { intros c ->. split; [done|]. apply Virtual.get_time_set_time. }
  split; [by intros ->|]. split; [done|]. split; [done|].
  split; [apply set_time_num_subsystems|apply set_time_parallel].
Qed.
End failure_facts.

Section makestate_facts.
Context {T : Type} `{Scalar T} {V : Type}.
Context {C : Type} `{ops : Virtual.Context T V C}.
Implicit Types (d clone : DiagramContext.t T V C) (index : Z) (m : Mem V).

Lemma map_M_collect_state (cs : list (option C)) d :
  map_M (fun c : option C =>
           bind (defined c) (fun c' : C => ret (Some (DiagramContext.collect_state c')))) cs d
  = if forallb (fun c => negb (is_nullptr c)) cs
    then Done ((fun c : option C => DiagramContext.collect_state <$> c) <$> cs) d
    else Undefined.
Proof.
  induction cs as [|[c|] cs IH]; simpl; [done| |done].
  unfold bind at 1. simpl. unfold bind at 1. rewrite IH.
  by destruct (forallb _ cs).
Qed.

Lemma MakeState_eq d :
  DiagramContext.MakeState d
  = if forallb (fun c => negb (is_nullptr c)) (DiagramContext.contexts_ d)
    then Done tt (DiagramContext.with_contexts
                    ((fun c : option C => DiagramContext.collect_state <$> c)
                       <$> DiagramContext.contexts_ d) d)
    else Undefined.
Proof.
  unfold DiagramContext.MakeState. unfold bind at 1, gets at 1. unfold bind at 1.
  rewrite map_M_collect_state.
  by destruct (forallb _ _).
Qed.

Lemma all_installed_forallb d :
  DiagramContext.all_installed d <->
  forallb (fun c => negb (is_nullptr c)) (DiagramContext.contexts_ d) = true.
Proof.
  unfold DiagramContext.all_installed. rewrite forallb_forall, Forall_forall.
  split; intros Hall c Hc.
  - apply list_elem_of_In in Hc. rewrite (Hall c Hc). done.
  - apply list_elem_of_In, Hall in Hc. by destruct (is_nullptr c).
Qed.

(** X13. [MakeState] completes exactly when every slot holds a
    subsystem; the slots then still hold subsystems, as many as before,
    and the exported ports and the graphs are as before. *)
Theorem MakeState_completes d :
  (DiagramContext.all_installed d <-> exists d', DiagramContext.MakeState d = Done tt d') /\
  (forall d',
      DiagramContext.MakeState d = Done tt d' ->
      DiagramContext.all_installed d' /\
      DiagramContext.num_subsystems d' = DiagramContext.num_subsystems d /\
      DiagramContext.wiring d' = DiagramContext.wiring d).
Proof.
  rewrite MakeState_eq, all_installed_forallb.
  destruct (forallb _ _) eqn:Hb.
  - split; [split; eauto|]. intros d' [= <-].
    split; [|split; [|done]].
    + apply all_installed_forallb in Hb.
      unfold DiagramContext.all_installed in *. simpl.
      apply Forall_fmap. eapply Forall_impl; [exact Hb|]. by intros [c|].
    + unfold DiagramContext.num_subsystems. simpl. by rewrite length_fmap.
  - split; [|done]. split; [done|]. by intros [d' Hd].
Qed.

(** X14. [MakeState] dereferences every slot of [contexts_] without a
    check: with a free slot its behaviour is undefined, where the
    accessors abort, and in no case does it abort. *)
Theorem MakeState_free_slot d index :
  vec_at (DiagramContext.contexts_ d) index = Some None ->
  DiagramContext.MakeState d = Undefined /\
  DiagramContext.GetSubsystemContext index d = Aborted d.
Proof.
  intros Hn. split.
  - rewrite MakeState_eq. apply vec_at_Some in Hn as [Hi Hc].
    destruct (forallb _ _) eqn:Hb; [|done].
    rewrite forallb_forall in Hb.
    apply list_elem_of_lookup_2, list_elem_of_In, Hb in Hc. done.
  - by rewrite GetSubsystemContext_eq, Hn.
Qed.
End makestate_facts.

Section doclone_facts.
Context {T : Type} `{Scalar T} {V : Type}.
Context {C : Type} `{ops : Virtual.Context T V C}.
Implicit Types (d clone : DiagramContext.t T V C) (index : Z) (m : Mem V).

(** The slots of a diagram context: every slot of [contexts_] is filled,
    and so is every slot of [outputs_]. *)
Lemma AddSystem_Done d index (context : C) (output : SystemOutput V) u d' :
  DiagramContext.AddSystem index context output d = Done u d' ->
  0 <= index < DiagramContext.num_subsystems d /\
  vec_at (DiagramContext.contexts_ d) index = Some None /\
  vec_at (DiagramContext.outputs_ d) index = Some None /\
  d' = DiagramContext.with_outputs
         (vec_set index (Some output) (DiagramContext.outputs_ d))
         (DiagramContext.with_contexts
            (vec_set index
               (Some (Virtual.set_parent_and_index (DiagramContext.this d) index context))
               (DiagramContext.contexts_ d)) d).
Proof.
  unfold DiagramContext.AddSystem, DiagramContext.contexts_at, DiagramContext.outputs_at.
  intros (n & s1 & [= <- <-] & Hk)%bind_Done.
  apply bind_Done in Hk as (u1 & s2 & [Hi ->]%DRAKE_DEMAND_Done & Hk).
  apply bind_Done in Hk as (c & s3 & [Hc ->]%defined_Done & Hk).
  apply bind_Done in Hk as (u2 & s4 & [Hcn ->]%DRAKE_DEMAND_Done & Hk).
  apply bind_Done in Hk as (o & s5 & [Ho ->]%defined_Done & Hk).
  apply bind_Done in Hk as (u3 & s6 & [Hon ->]%DRAKE_DEMAND_Done & Hk).
  apply bind_Done in Hk as (self & s7 & [= <- <-] & Hk).
  apply bind_Done in Hk as (u4 & s8 & [= <- <-] & [= <- <-]).
  destruct c; [done|]. destruct o; [done|].
  split; [lia|done].
Qed.

Lemma clone_subsystem_inv env d clone i m clone' m' :
  DiagramContext.clone_subsystem env d clone i m = Done clone' m' ->
  exists c o c',
    vec_at (DiagramContext.contexts_ d) i = Some (Some c) /\
    vec_at (DiagramContext.outputs_ d) i = Some (Some o) /\
    Virtual.Clone (DiagramContext.resolve env d) c m = Done c' m' /\
    DiagramContext.AddSystem i c' (SystemOutput_Clone o) clone = Done tt clone'.
Proof.
  unfold DiagramContext.clone_subsystem.
  intros (c0 & s1 & [Hc ->]%defined_Done & Hk)%bind_Done.
  apply bind_Done in Hk as (c & s2 & [Hc0 ->]%DRAKE_DEMAND_nonnull_Done & Hk).
  apply bind_Done in Hk as (o0 & s3 & [Ho ->]%defined_Done & Hk).
  apply bind_Done in Hk as (o & s4 & [Ho0 ->]%DRAKE_DEMAND_nonnull_Done & Hk).
  apply bind_Done in Hk as (c' & s5 & Hclone & Hk).
  apply bind_Done in Hk as (r & s6 & [Ha ->]%run_on_inv & [= <- <-]).
  exists c, o, c'. subst. destruct r as [[] r]. done.
Qed.

Lemma vec_at_length {A} (v : list A) (i : Z) x :
  vec_at v i = Some x -> 0 <= i < Z.of_nat (length v).
Proof. intros [Hi Hx%lookup_lt_Some]%vec_at_Some. lia. Qed.

Lemma clone_subsystems_slots env d indices :
  NoDup indices ->
  forall clone m clone' m',
    fold_M (DiagramContext.clone_subsystem env d) clone indices m = Done clone' m' ->
    (forall i, i ∈ indices ->
       exists c o c',
         vec_at (DiagramContext.contexts_ d) i = Some (Some c) /\
         vec_at (DiagramContext.outputs_ d) i = Some (Some o) /\
         vec_at (DiagramContext.contexts_ clone') i = Some (Some c') /\
         vec_at (DiagramContext.outputs_ clone') i = Some (Some (SystemOutput_Clone o))) /\
    (forall i, i ∉ indices ->
       vec_at (DiagramContext.contexts_ clone') i = vec_at (DiagramContext.contexts_ clone) i /\
       vec_at (DiagramContext.outputs_ clone') i = vec_at (DiagramContext.outputs_ clone) i) /\
    length (DiagramContext.outputs_ clone') = length (DiagramContext.outputs_ clone) /\
    DiagramContext.state_ clone' = DiagramContext.state_ clone.
Proof.
  induction 1 as [|a l Ha Hnd IH]; intros clone m clone' m'; simpl.
  - intros [= <- <-]. split; [by intros i ?%elem_of_nil|done].
  - intros (clone1 & m1 & Hs & Hf)%bind_Done.
    apply IH in Hf as (Hin & Hout & Hlen & Hst). clear IH.
    apply clone_subsystem_inv in Hs as (c & o & c' & Hc & Ho & _ & Hadd).
    apply AddSystem_Done in Hadd as (Hi & Hcn & Hon & ->). simpl in *.
    split; [|split; [|split]].
    + intros i [->|Hi']%elem_of_cons; [|by apply Hin].
      destruct (Hout a Ha) as [Hc1 Ho1].
      exists c, o. eexists. split; [done|]. split; [done|].
      rewrite Hc1, Ho1.
      rewrite !vec_at_vec_set_eq by (eapply vec_at_length; eassumption). done.
    + intros i [Hne Hi']%not_elem_of_cons. destruct (Hout i Hi') as [-> ->].
      by rewrite !vec_at_vec_set_ne.
    + by rewrite Hlen, length_vec_set.
    + done.
Qed.

Lemma Connect_slots src dest d d' :
  DiagramContext.Connect src dest d = Done tt d' ->
  DiagramContext.outputs_ d' = DiagramContext.outputs_ d /\
  DiagramContext.state_ d' = DiagramContext.state_ d /\
  (DiagramContext.all_installed d -> DiagramContext.all_installed d').
Proof.
  intros (o & c & c' & _ & _ & _ & _ & _ & ->)%Connect_inv. simpl.
  split; [done|]. split; [done|].
  unfold DiagramContext.all_installed, vec_set. simpl. intros Hall.
  destruct (0 <=? dest.1); [|done]. by apply Forall_insert.
Qed.

Lemma replay_connections_slots connections :
  forall clone m clone' m',
    fold_M (fun clone connection =>
              bind (run_on clone (DiagramContext.Connect connection.2 connection.1))
                   (fun r => ret r.2))
           clone connections m = Done clone' m' ->
    DiagramContext.outputs_ clone' = DiagramContext.outputs_ clone /\
    DiagramContext.state_ clone' = DiagramContext.state_ clone /\
    (DiagramContext.all_installed clone -> DiagramContext.all_installed clone').
Proof.
  induction connections as [|x l IH]; intros clone m clone' m'; simpl.
  - by intros [= <- <-].
  - intros (clone1 & m1 & Hs & (Ho & Hst & Hall)%IH)%bind_Done.
    apply bind_Done in Hs as (r & s1 & [Hc _]%run_on_inv & [= <-]).
    destruct r as [[] d1]. simpl in *.
    apply Connect_slots in Hc as (Ho1 & Hst1 & Hall1).
    rewrite Ho, Hst, Ho1, Hst1. auto.
Qed.

Lemma replay_connections_transposed connections :
  NoDup connections.*1 ->
  forall clone m clone' m',
    (forall x, x ∈ connections -> DiagramContext.dependency_graph_ clone !! x.1 = None) ->
    DiagramContext.transposed clone ->
    fold_M (fun clone connection =>
              bind (run_on clone (DiagramContext.Connect connection.2 connection.1))
                   (fun r => ret r.2))
           clone connections m = Done clone' m' ->
    DiagramContext.transposed clone'.
Proof.
  induction connections as [|x l IH]; intros Hnd clone m clone' m' Hfresh Ht; simpl.
  - by intros [= <- <-].
  - apply NoDup_cons in Hnd as [Hx Hnd].
    intros (clone1 & m1 & Hs & Hf)%bind_Done.
    apply bind_Done in Hs as (r & s1 & [Hc _]%run_on_inv & [= <-]).
    destruct r as [[] d1]. simpl in *.
    apply Connect_inv in Hc as (o & c & c' & _ & _ & _ & _ & _ & ->).
    eapply (IH Hnd); [| |exact Hf].
    + intros y Hy. simpl. rewrite lookup_insert_ne.
      * apply Hfresh. by right.
      * intros Heq. apply Hx. rewrite Heq. apply list_elem_of_fmap. by exists y.
    + unfold DiagramContext.transposed. simpl. apply insert_transposed; [exact Ht|].
      apply Hfresh. by left.
Qed.

Lemma connections_NoDup d : NoDup (DiagramContext.connections d).*1.
Proof.
  unfold DiagramContext.connections.
  rewrite (merge_sort_Permutation _ (map_to_list (DiagramContext.dependency_graph_ d))).
  apply NoDup_fst_map_to_list.
Qed.

(** The stages of [DoClone], put together. *)
Lemma DoClone_stages env d m clone m' :
  DiagramContext.DoClone env d m = Done clone m' ->
  DiagramContext.all_installed clone /\
  DiagramContext.transposed clone /\
  length (DiagramContext.outputs_ clone) = length (DiagramContext.contexts_ d) /\
  forall index,
    0 <= index < DiagramContext.num_subsystems d ->
    exists c o,
      vec_at (DiagramContext.contexts_ d) index = Some (Some c) /\
      vec_at (DiagramContext.outputs_ d) index = Some (Some o) /\
      vec_at (DiagramContext.outputs_ clone) index = Some (Some (SystemOutput_Clone o)).
Proof.
  unfold DiagramContext.DoClone.
  intros (self & m1 & [= <- <-] & Hk)%bind_Done.
  apply bind_Done in Hk as (clone1 & m2 & Hfold & Hk).
  pose proof Hfold as [Hw1 Hl1]%clone_subsystems_inv.
  apply clone_subsystems_slots in Hfold as (Hin & _ & Hlo & _); [|apply NoDup_seqZ].
  apply bind_Done in Hk as (r & m3 & [Hms _]%run_on_inv & Hk).
  rewrite MakeState_eq in Hms.
  destruct (forallb _ _) eqn:Hb; [|done]. destruct r as [[] clone2].
  injection Hms as <-. simpl in Hk.
  apply bind_Done in Hk as (clone3 & m4 & Hconn & Hk).
  apply bind_Done in Hk as (clone4 & m5 & ->%replay_inputs_inv & [= <-]).
  pose proof Hconn as (Ho3 & Hst3 & Hall3)%replay_connections_slots.
  apply replay_connections_transposed in Hconn; [|apply connections_NoDup| |].
  2:{ intros x _. simpl. unfold DiagramContext.wiring in Hw1. simpl in Hw1.
      injection Hw1 as _ _ _ -> _. apply lookup_empty. }
  2:{ unfold DiagramContext.transposed. simpl.
      unfold DiagramContext.wiring in Hw1. simpl in Hw1.
      injection Hw1 as _ _ _ -> ->. intros src dest.
      rewrite !lookup_empty. simpl. split; [by intros ?%elem_of_nil|done]. }
  simpl in *.
  assert (Hn : DiagramContext.num_subsystems clone1 = DiagramContext.num_subsystems d).
  { unfold DiagramContext.num_subsystems. rewrite Hl1. simpl. rewrite length_replicate.
    unfold DiagramContext.num_subsystems. lia. }
  split.
  { apply Hall3. unfold DiagramContext.all_installed. simpl.
    apply Forall_fmap. apply all_installed_forallb in Hb.
    eapply Forall_impl; [exact Hb|]. by intros [c|]. }
  split; [exact Hconn|].
  split.
  { rewrite Ho3. simpl. rewrite Hlo, length_replicate.
    unfold DiagramContext.num_subsystems. lia. }
  intros index Hi.
  destruct (Hin index) as (c & o & c' & Hc & Ho & _ & Ho').
  { apply elem_of_seqZ. lia. }
  exists c, o. rewrite Ho3. done.
Qed.

(** X15. Whenever [DoClone] completes, the clone is a new object with as
    many subsystems as the original, all of them installed, with the
    connections and the exported inputs of the original and no exported
    output; its [outputs_] runs parallel to its [contexts_], and its two
    graphs are transposes of each other, whatever the inverse graph of
    the original is. *)
Theorem DoClone_structure env d m clone m' :
  DiagramContext.DoClone env d m = Done clone m' ->
  DiagramContext.this clone = next_object m /\
  DiagramContext.num_subsystems clone = DiagramContext.num_subsystems d /\
  DiagramContext.dependency_graph_ clone = DiagramContext.dependency_graph_ d /\
  DiagramContext.input_ids_ clone = DiagramContext.input_ids_ d /\
  DiagramContext.output_ids_ clone = [] /\
  DiagramContext.all_installed clone /\
  DiagramContext.parallel clone /\
  DiagramContext.transposed clone.
Proof.
  intros Hd.
  pose proof Hd as (Ht & Hn & Hg & Hi & _ & Ho & _)%DoClone_inv.
  apply DoClone_stages in Hd as (Hall & Htr & Hlen & Hslots).
  repeat (split; [done|]). split; [|done].
  unfold DiagramContext.parallel, DiagramContext.all_installed in *.
  apply Forall2_same_length_lookup. split.
  - unfold DiagramContext.num_subsystems in Hn. lia.
  - intros i c o Hc Ho'.
    rewrite Forall_lookup in Hall. rewrite (Hall i c Hc).
    destruct (Hslots (Z.of_nat i)) as (c0 & o0 & _ & _ & Ho0).
    { apply lookup_lt_Some in Hc. unfold DiagramContext.num_subsystems in *. lia. }
    apply vec_at_Some in Ho0 as [_ Ho0]. rewrite Nat2Z.id in Ho0.
    rewrite Ho' in Ho0. by injection Ho0 as ->.
Qed.

(** X16. [DoClone] completes only for a diagram context with a subsystem
    and an output set in every slot, and the clone then holds a copy of
    each output set at the same index. *)
Theorem DoClone_copies_every_subsystem env d m clone m' index :
  DiagramContext.DoClone env d m = Done clone m' ->
  0 <= index < DiagramContext.num_subsystems d ->
  exists c o,
    vec_at (DiagramContext.contexts_ d) index = Some (Some c) /\
    vec_at (DiagramContext.outputs_ d) index = Some (Some o) /\
    vec_at (DiagramContext.outputs_ clone) index = Some (Some (SystemOutput_Clone o)) /\
    DiagramContext.installed clone index.
Proof.
  intros Hd Hi.
  pose proof Hd as (_ & Hn & _)%DoClone_inv.
  apply DoClone_stages in Hd as (Hall & _ & _ & Hslots).
  destruct (Hslots index Hi) as (c & o & Hc & Ho & Ho').
  exists c, o. repeat (split; [done|]).
  unfold DiagramContext.installed, DiagramContext.all_installed in *.
  destruct (vec_at_in_range (DiagramContext.contexts_ clone) index) as [x Hx].
  { unfold DiagramContext.num_subsystems in *. lia. }
  rewrite Hx. pose proof Hx as [_ Hx']%vec_at_Some.
  rewrite Forall_lookup in Hall. apply Hall in Hx'. destruct x; [eauto|done].
Qed.
End doclone_facts.

Section port_facts.
Context {T : Type} `{Scalar T} {V : Type}.
Context {C : Type} `{ops : Virtual.Context T V C}.
Context `{obs : Observers.Context C} `{eva : Observers.Evaluation C}.
Context `{inp : Inputs.Context V C}.
Implicit Types (d clone : DiagramContext.t T V C) (index : Z) (armed : bool).

Lemma vec_set_twice {A} (v : list A) (i : Z) x y :
  vec_set i y (vec_set i x v) = vec_set i y v.
Proof. unfold vec_set. destruct (0 <=? i); [apply list_insert_insert_eq|done]. Qed.

Lemma vec_at_vec_set_Some {A} (v : list A) (i : Z) x y :
  vec_at v i = Some x -> vec_at (vec_set i y v) i = Some y.
Proof. intros Hx. apply vec_at_vec_set_eq. by eapply vec_at_length. Qed.

Lemma in_range_false (i n : Z) : ~ (0 <= i < n) -> (0 <=? i) && (i <? n) = false.
Proof. intros Hi. destruct (Z.leb_spec 0 i), (Z.ltb_spec i n); try done. lia. Qed.

Lemma in_range_true (i n : Z) : 0 <= i < n -> (0 <=? i) && (i <? n) = true.
Proof. intros Hi. destruct (Z.leb_spec 0 i), (Z.ltb_spec i n); try done; lia. Qed.

Lemma output_port_out_of_range {A} armed (k : Z -> M C A) d port_index :
  ~ (0 <= port_index < DiagramContext.get_num_output_ports d) ->
  bind (gets DiagramContext.get_num_output_ports)
       (fun n => bind (DRAKE_ASSERT armed ((0 <=? port_index) && (port_index <? n)))
                      (fun _ => bind (DiagramContextPorts.output_ids_at port_index)
                                     (fun id => DiagramContext.call_subsystem id.1 (k id.2)))) d
  = if armed then Aborted d else Undefined.
Proof.
  intros Hi. unfold bind at 1, gets. unfold bind at 1, DRAKE_ASSERT.
  rewrite in_range_false by done. destruct armed; [done|]. simpl.
  unfold bind, DiagramContextPorts.output_ids_at, defined.
  rewrite vec_at_out_of_range; [done|]. unfold DiagramContext.get_num_output_ports in Hi. lia.
Qed.

Lemma output_port_in_range {A} armed (k : Z -> M C A) d port_index id :
  vec_at (DiagramContext.output_ids_ d) port_index = Some id ->
  bind (gets DiagramContext.get_num_output_ports)
       (fun n => bind (DRAKE_ASSERT armed ((0 <=? port_index) && (port_index <? n)))
                      (fun _ => bind (DiagramContextPorts.output_ids_at port_index)
                                     (fun id => DiagramContext.call_subsystem id.1 (k id.2)))) d
  = DiagramContext.call_subsystem id.1 (k id.2) d.
Proof.
  intros Hid. unfold bind at 1, gets. unfold bind at 1, DRAKE_ASSERT.
  rewrite in_range_true by (by eapply vec_at_length). 
  assert (Hd : (if armed then DRAKE_DEMAND true else ret tt) d = Done tt d) by by destruct armed.
  rewrite Hd. unfold bind, DiagramContextPorts.output_ids_at, defined. by rewrite Hid.
Qed.

(** X17. The range check of [MarkOutputPortFresh] and [IsOutputPortFresh]
    is a [DRAKE_ASSERT]: at an index that is not an exported output port
    they abort, the diagram context unchanged, in a build with armed
    assertions, and read [output_ids_] out of bounds otherwise. *)
Theorem output_port_freshness_out_of_range d port_index :
  ~ (0 <= port_index < DiagramContext.get_num_output_ports d) ->
  DiagramContextPorts.MarkOutputPortFresh true port_index d = Aborted d /\
  DiagramContextPorts.IsOutputPortFresh true port_index d = Aborted d /\
  DiagramContextPorts.MarkOutputPortFresh false port_index d = Undefined /\
  DiagramContextPorts.IsOutputPortFresh false port_index d = Undefined.
Proof.
  intros Hi. unfold DiagramContextPorts.MarkOutputPortFresh,
    DiagramContextPorts.IsOutputPortFresh.
  by rewrite !output_port_out_of_range.
Qed.


Lemma evaluation_eq {A} armed (k : M C A) d index :
  bind (gets DiagramContext.num_subsystems)
       (fun n => bind (DRAKE_ASSERT armed ((0 <=? index) && (index <? n)))
                      (fun _ => bind (DiagramContext.GetSubsystemContext index)
                                     (fun _ => DiagramContext.call_subsystem index k))) d
  = match vec_at (DiagramContext.contexts_ d) index with
    | Some (Some c) => DiagramContext.call_subsystem index k d
    | _ => Aborted d
    end.
Proof.
  unfold bind at 1, gets. unfold bind at 1, DRAKE_ASSERT.
  destruct (decide (0 <= index < DiagramContext.num_subsystems d)) as [Hi|Hi].
  - rewrite in_range_true by done.
    assert (Hd : (if armed then DRAKE_DEMAND true else ret tt) d = Done tt d)
      by by destruct armed.
    rewrite Hd. unfold bind. rewrite GetSubsystemContext_eq.
    by destruct (vec_at (DiagramContext.contexts_ d) index) as [[c|]|].
  - rewrite in_range_false by done.
    rewrite vec_at_out_of_range by (unfold DiagramContext.num_subsystems in Hi; lia).
    destruct armed; [done|]. simpl. unfold bind. rewrite GetSubsystemContext_eq.
    by rewrite vec_at_out_of_range by (unfold DiagramContext.num_subsystems in Hi; lia).
Qed.

(** X19. [IsEvaluationFresh] and [MarkEvaluationFresh] abort, the diagram
    context unchanged, at an index that is out of range or at a free
    slot, and they do so with or without armed assertions: the
    [DRAKE_DEMAND]s of [GetSubsystemContext] cover the assertion. *)
Theorem evaluation_freshness_checked armed d index :
  ~ DiagramContext.installed d index ->
  DiagramContextPorts.IsEvaluationFresh armed index d = Aborted d /\
  DiagramContextPorts.MarkEvaluationFresh armed index d = Aborted d.
Proof.
  intros Hn. unfold DiagramContextPorts.IsEvaluationFresh,
    DiagramContextPorts.MarkEvaluationFresh.
  rewrite !evaluation_eq.
  destruct (vec_at (DiagramContext.contexts_ d) index) as [[c|]|] eqn:Hc; [|done..].
  destruct Hn. by exists c.
Qed.

Lemma GetInputPort_eq armed d index :
  DiagramContextPorts.GetInputPort armed index d
  = match vec_at (DiagramContext.input_ids_ d) index with
    | Some id =>
        match vec_at (DiagramContext.contexts_ d) id.1 with
        | Some (Some c) => DiagramContext.call_subsystem id.1 (Inputs.GetInputPort id.2) d
        | _ => Aborted d
        end
    | None => if armed then Aborted d else Undefined
    end.
Proof.
  unfold DiagramContextPorts.GetInputPort.
  unfold bind at 1, gets. unfold bind at 1, DRAKE_ASSERT.
  destruct (vec_at (DiagramContext.input_ids_ d) index) as [id|] eqn:Hid.
  - rewrite in_range_true by (by eapply vec_at_length).
    assert (Hd : (if armed then DRAKE_DEMAND true else ret tt) d = Done tt d)
      by by destruct armed.
    rewrite Hd. unfold bind at 1, DiagramContextPorts.input_ids_at, defined. rewrite Hid.
    unfold bind. rewrite GetSubsystemContext_eq.
    by destruct (vec_at (DiagramContext.contexts_ d) id.1) as [[c|]|].
  - assert (Hi : ~ (0 <= index < DiagramContext.get_num_input_ports d)).
    { intros Hi. destruct (vec_at_in_range (DiagramContext.input_ids_ d) index) as [x Hx];
        [done|congruence]. }
    rewrite in_range_false by done. destruct armed; [done|]. simpl.
    unfold bind, DiagramContextPorts.input_ids_at, defined. by rewrite Hid.
Qed.

(** X21. [GetInputPort] checks its index by [DRAKE_ASSERT] only: at an
    index that is not an exported input it aborts, the diagram context
    unchanged, with armed assertions, and reads [input_ids_] out of bounds
    otherwise. *)
Theorem GetInputPort_out_of_range armed d index :
  ~ (0 <= index < DiagramContext.get_num_input_ports d) ->
  DiagramContextPorts.GetInputPort armed index d
  = if armed then Aborted d else Undefined.
Proof.
  intros Hi. rewrite GetInputPort_eq. rewrite vec_at_out_of_range; [done|].
  unfold DiagramContext.get_num_input_ports in Hi. lia.
Qed.

(** X22. An input port set through the diagram context is read back
    through it: if the subsystem whose input was exported at [index]
    accepts the port and returns it from its own [GetInputPort], then
    [DoSetInputPort] at [index] completes, the slot of that subsystem
    holds what its [SetInputPort] has made of it, and [GetInputPort] at
    [index] returns that port afterwards.  The two vectors are taken to
    have the same size, as [num_subsystems] asserts. *)
Theorem set_then_get_input_port armed d index id (port : InputPort V) c c' :
  length (DiagramContext.outputs_ d) = length (DiagramContext.contexts_ d) ->
  vec_at (DiagramContext.input_ids_ d) index = Some id ->
  vec_at (DiagramContext.contexts_ d) id.1 = Some (Some c) ->
  Virtual.SetInputPort id.2 port c = Done tt c' ->
  Inputs.GetInputPort id.2 c' = Done (Some port) c' ->
  exists d',
    DiagramContext.DoSetInputPort index port d = Done tt d' /\
    vec_at (DiagramContext.contexts_ d') id.1 = Some (Some c') /\
    DiagramContextPorts.GetInputPort armed index d' = Done (Some port) d'.
Proof.
  intros _ Hid Hc Hset Hget.
  set (d' := DiagramContext.with_contexts
               (vec_set id.1 (Some c') (DiagramContext.contexts_ d)) d).
  assert (Hc' : vec_at (DiagramContext.contexts_ d') id.1 = Some (Some c'))
    by (simpl; by eapply vec_at_vec_set_Some).
  exists d'. split; [|split; [done|]].
  - unfold DiagramContext.DoSetInputPort. unfold bind at 1, defined. rewrite Hid.
    unfold bind. rewrite GetMutableSubsystemContext_eq, Hc.
    by apply (call_subsystem_Done d id.1 _ c tt c').
  - rewrite GetInputPort_eq. simpl DiagramContext.input_ids_. rewrite Hid, Hc'.
    rewrite (call_subsystem_Done d' id.1 _ c' (Some port) c') by done.
    unfold d'. simpl. by rewrite vec_set_twice.
Qed.

(** X23. No exported output port of a clone can be marked or queried:
    whenever [DoClone] completes, [MarkOutputPortFresh] and
    [IsOutputPortFresh] on the clone abort at every index with armed
    assertions and read out of bounds without, whatever output ports the
    original exports. *)
Theorem clone_has_no_output_port env d (m : Mem V) clone m' port_index :
  DiagramContext.DoClone env d m = Done clone m' ->
  DiagramContextPorts.MarkOutputPortFresh true port_index clone = Aborted clone /\
  DiagramContextPorts.IsOutputPortFresh true port_index clone = Aborted clone /\
  DiagramContextPorts.MarkOutputPortFresh false port_index clone = Undefined /\
  DiagramContextPorts.IsOutputPortFresh false port_index clone = Undefined.
Proof.
  intros (_ & _ & _ & _ & _ & _ & Hn)%DoClone_inv.
  unfold DiagramContextPorts.MarkOutputPortFresh, DiagramContextPorts.IsOutputPortFresh.
  rewrite !output_port_out_of_range by (rewrite Hn; lia). done.
Qed.

Lemma ExportOutput_inv d id u d' :
  DiagramContext.ExportOutput id d = Done u d' ->
  DiagramContext.installed d id.1 /\
  d' = DiagramContext.with_output_ids (DiagramContext.output_ids_ d ++ [id]) d.
Proof.
  unfold DiagramContext.ExportOutput, DiagramContext.contexts_at.
  intros (c & s1 & [Hc ->]%defined_Done & Hk)%bind_Done.
  apply bind_Done in Hk as (u1 & s2 & [Hn ->]%DRAKE_DEMAND_Done & [= <- <-]).
  split; [|done]. destruct c as [c|]; [by exists c|done].
Qed.

(** X24. A completed [ExportOutput] appends: the identifier becomes the
    diagram output with the next index, the outputs exported before keep
    their indices, nothing else changes, and the freshness of the new
    diagram output is from then on that of the exported port of the
    exported subsystem. *)
Theorem ExportOutput_appends armed d id d' :
  DiagramContext.ExportOutput id d = Done tt d' ->
  DiagramContext.get_num_output_ports d' = DiagramContext.get_num_output_ports d + 1 /\
  vec_at (DiagramContext.output_ids_ d') (DiagramContext.get_num_output_ports d) = Some id /\
  (forall k x, vec_at (DiagramContext.output_ids_ d) k = Some x ->
               vec_at (DiagramContext.output_ids_ d') k = Some x) /\
  d' = DiagramContext.with_output_ids (DiagramContext.output_ids_ d') d /\
  DiagramContextPorts.IsOutputPortFresh armed (DiagramContext.get_num_output_ports d) d'
  = DiagramContext.call_subsystem id.1 (Observers.IsOutputPortFresh id.2) d' /\
  DiagramContextPorts.MarkOutputPortFresh armed (DiagramContext.get_num_output_ports d) d'
  = DiagramContext.call_subsystem id.1 (Observers.MarkOutputPortFresh id.2) d'.
Proof.
  intros [_ ->]%ExportOutput_inv.
  assert (Hid : vec_at (DiagramContext.output_ids_ d ++ [id])
                  (DiagramContext.get_num_output_ports d) = Some id)
    by apply vec_at_app_length.
  unfold DiagramContext.get_num_output_ports at 1. simpl.
  split; [rewrite length_app; simpl; unfold DiagramContext.get_num_output_ports; lia|].
  split; [exact Hid|].
  split; [intros k x; apply vec_at_app_l|].
  split; [done|].
  unfold DiagramContextPorts.IsOutputPortFresh, DiagramContextPorts.MarkOutputPortFresh.
  split; by apply output_port_in_range.
Qed.
End port_facts.

(** *** The further properties at concrete diagram contexts *)

Lemma exported_lengths :
  length (DiagramContext.outputs_ Scenario.exported)
  = length (DiagramContext.contexts_ Scenario.exported).
Proof. reflexivity. Defined.

Lemma GetSubsystemContext_checked_witness :
  length (DiagramContext.outputs_ Scenario.exported)
  = length (DiagramContext.contexts_ Scenario.exported) /\
  DiagramContext.GetSubsystemContext 2 Scenario.exported
  = match vec_at (DiagramContext.contexts_ Scenario.exported) 2 with
    | Some (Some c) => Done c Scenario.exported
    | _ => Aborted Scenario.exported
    end /\
  DiagramContext.GetMutableSubsystemContext 2 Scenario.exported
  = DiagramContext.GetSubsystemContext 2 Scenario.exported.
Proof.
  split; [exact exported_lengths|].
  exact (GetSubsystemContext_checked Scenario.exported 2 exported_lengths).
Defined.

Lemma GetSubsystemOutput_checked_witness :
  length (DiagramContext.outputs_ Scenario.exported)
  = length (DiagramContext.contexts_ Scenario.exported) /\
  DiagramContext.GetSubsystemOutput 1 Scenario.exported
  = match vec_at (DiagramContext.outputs_ Scenario.exported) 1 with
    | Some (Some o) => Done o Scenario.exported
    | _ => Aborted Scenario.exported
    end.
Proof.
  split; [exact exported_lengths|].
  exact (GetSubsystemOutput_checked Scenario.exported 1 exported_lengths).
Defined.

Lemma create_empty_witness :
  0 <= 2 /\
  DiagramContext.num_subsystems
    (DiagramContext.create 7%nat 2 : DiagramContext.t Z Z (Context.t Z Z)) = 2 /\
  DiagramContext.ExportInput (1, 0)
    (DiagramContext.create 7%nat 2 : DiagramContext.t Z Z (Context.t Z Z))
  = Aborted (DiagramContext.create 7%nat 2).
Proof.
  assert (Hn : 0 <= 2) by lia. split; [exact Hn|].
  destruct (create_empty (T := Z) (V := Z) (C := Context.t Z Z) 7%nat 2 Hn)
    as (Hnum & _ & _ & _ & Hexp & _).
  split; [exact Hnum|]. apply (Hexp 1 0). lia.
Defined.

Lemma export_out_of_range_undefined_witness :
  (2 < 0 \/ DiagramContext.num_subsystems Scenario.exported <= 2) /\
  DiagramContext.ExportInput (2, 0) Scenario.exported = Undefined /\
  DiagramContext.ExportOutput (2, 0) Scenario.exported = Undefined /\
  (forall context output,
      DiagramContext.AddSystem 2 context output Scenario.exported = Aborted Scenario.exported) /\
  DiagramContext.GetSubsystemContext 2 Scenario.exported = Aborted Scenario.exported.
Proof.
  assert (Hi : 2 < 0 \/ DiagramContext.num_subsystems Scenario.exported <= 2)
    by (right; vm_compute; discriminate).
  split; [exact Hi|].
  exact (export_out_of_range_undefined Scenario.exported 2 0 Hi).
Defined.

Lemma ExportInput_appends_witness :
  let d' := state_of Scenario.exported (DiagramContext.ExportInput (1, 1) Scenario.exported) in
  DiagramContext.ExportInput (1, 1) Scenario.exported = Done tt d' /\
  DiagramContext.get_num_input_ports d' = 2 /\
  vec_at (DiagramContext.input_ids_ d') 1 = Some (1, 1).
Proof.
  intros d'.
  assert (He : DiagramContext.ExportInput (1, 1) Scenario.exported = Done tt d')
    by (vm_compute; reflexivity).
  split; [exact He|].
  destruct (ExportInput_appends Scenario.exported (1, 1) d' He) as (Hn & Hid & _).
  split; [exact Hn|exact Hid].
Defined.

Lemma DoSetInputPort_dispatches_witness :
  let d' := state_of Scenario.exported (DiagramContext.ExportInput (1, 1) Scenario.exported) in
  length (DiagramContext.outputs_ Scenario.exported)
  = length (DiagramContext.contexts_ Scenario.exported) /\
  DiagramContext.ExportInput (1, 1) Scenario.exported = Done tt d' /\
  DiagramContext.DoSetInputPort 1 (FreestandingInputPort 42) d'
  = DiagramContext.call_subsystem 1 (Virtual.SetInputPort 1 (FreestandingInputPort 42)) d' /\
  DiagramContext.DoSetInputPort 2 (FreestandingInputPort 42) d' = Undefined.
Proof.
  intros d'.
  assert (He : DiagramContext.ExportInput (1, 1) Scenario.exported = Done tt d')
    by (vm_compute; reflexivity).
  split; [exact exported_lengths|]. split; [exact He|].
  destruct (DoSetInputPort_dispatches Scenario.exported (1, 1) d' (FreestandingInputPort 42)
              exported_lengths He) as [Hd Hu].
  split; [exact Hd|]. apply Hu. right. vm_compute. discriminate.
Defined.


Lemma Connect_graphs_witness :
  let d' := state_of Scenario.exported
              (DiagramContext.Connect (1, 0) (0, 1) Scenario.exported) in
  DiagramContext.Connect (1, 0) (0, 1) Scenario.exported = Done tt d' /\
  DiagramContext.dependency_graph_ d' !! (0, 1) = Some (1, 0) /\
  DiagramContext.inverse_dependency_graph_ d' !! (1, 0)
  = Some (default [] (DiagramContext.inverse_dependency_graph_ Scenario.exported !! (1, 0))
          ++ [(0, 1)]).
Proof.
  intros d'.
  assert (Hc : DiagramContext.Connect (1, 0) (0, 1) Scenario.exported = Done tt d')
    by (vm_compute; reflexivity).
  split; [exact Hc|].
  destruct (Connect_graphs (1, 0) (0, 1) Scenario.exported d' Hc) as (Hd & _ & Hi & _).
  split; [exact Hd|exact Hi].
Defined.

Lemma Connect_keeps_transposed_witness :
  let d := Scenario.inner 7%nat in
  let d' := state_of d (DiagramContext.Connect (0, 0) (1, 0) d) in
  DiagramContext.transposed d /\
  DiagramContext.dependency_graph_ d !! (1, 0) = None /\
  DiagramContext.Connect (0, 0) (1, 0) d = Done tt d' /\
  DiagramContext.transposed d'.
Proof.
  intros d d'.
  assert (Ht : DiagramContext.transposed d).
  { intros src dest. simpl. rewrite !lookup_empty. simpl.
    split; [by intros ?%elem_of_nil|done]. }
  assert (Hf : DiagramContext.dependency_graph_ d !! (1, 0) = None) by reflexivity.
  assert (Hc : DiagramContext.Connect (0, 0) (1, 0) d = Done tt d')
    by (vm_compute; reflexivity).
  split; [exact Ht|]. split; [exact Hf|]. split; [exact Hc|].
  exact (Connect_keeps_transposed (0, 0) (1, 0) d d' Ht Hf Hc).
Defined.


Lemma Connect_defined_witness :
  length (DiagramContext.outputs_ Scenario.exported)
  = length (DiagramContext.contexts_ Scenario.exported) /\
  (forall c,
      vec_at (DiagramContext.contexts_ Scenario.exported) 1 = Some (Some c) ->
      Virtual.SetInputPort 0 (DependentInputPort (mkOutputPortPtr 7%nat 0 1)) c <> Undefined) /\
  DiagramContext.Connect (0, 1) (1, 0) Scenario.exported <> Undefined.
Proof.
  assert (Hd : forall c,
             vec_at (DiagramContext.contexts_ Scenario.exported) 1 = Some (Some c) ->
             Virtual.SetInputPort 0 (DependentInputPort (mkOutputPortPtr 7%nat 0 1)) c
             <> Undefined).
  { intros c Hc. vm_compute in Hc. injection Hc as <-. vm_compute. discriminate. }
  split; [exact exported_lengths|]. split; [exact Hd|].
  exact (Connect_defined (0, 1) (1, 0) Scenario.exported exported_lengths Hd).
Defined.





Lemma DoClone_copies_every_subsystem_witness :
  let r := DiagramContext.DoClone (fun _ => None) Scenario.exported Scenario.mem0 in
  let clone := value_of Scenario.exported r in
  let m' := state_of Scenario.mem0 r in
  r = Done clone m' /\
  0 <= 1 < DiagramContext.num_subsystems Scenario.exported /\
  exists c o,
    vec_at (DiagramContext.contexts_ Scenario.exported) 1 = Some (Some c) /\
    vec_at (DiagramContext.outputs_ Scenario.exported) 1 = Some (Some o) /\
    vec_at (DiagramContext.outputs_ clone) 1 = Some (Some (SystemOutput_Clone o)) /\
    DiagramContext.installed clone 1.
Proof.
  intros r clone m'.
  assert (Hd : r = Done clone m') by (vm_compute; reflexivity).
  assert (Hi : 0 <= 1 < DiagramContext.num_subsystems Scenario.exported)
    by (vm_compute; split; [discriminate|reflexivity]).
  split; [exact Hd|]. split; [exact Hi|].
  exact (DoClone_copies_every_subsystem (fun _ => None) Scenario.exported Scenario.mem0
           clone m' 1 Hd Hi).
Defined.

Lemma Connect_completes_witness :
  let d := Scenario.exported in
  let c := value_of Scenario.leaf (DiagramContext.GetSubsystemContext 0 d) in
  let port := DependentInputPort (mkOutputPortPtr 7%nat 1 0) in
  let c' := state_of c (Virtual.SetInputPort 1 port c) in
  length (DiagramContext.outputs_ d) = length (DiagramContext.contexts_ d) /\
  vec_at (DiagramContext.outputs_ d) 1 = Some (Some Scenario.outputs) /\
  0 <= 0 < get_num_ports Scenario.outputs /\
  vec_at (DiagramContext.contexts_ d) 0 = Some (Some c) /\
  0 <= 1 < Virtual.get_num_input_ports c /\
  Virtual.SetInputPort 1 port c = Done tt c' /\
  exists d', DiagramContext.Connect (1, 0) (0, 1) d = Done tt d'.
Proof.
  intros d c port c'.
  assert (Ho : vec_at (DiagramContext.outputs_ d) (1, 0).1 = Some (Some Scenario.outputs))
    by reflexivity.
  assert (Hs : 0 <= (1, 0).2 < get_num_ports Scenario.outputs)
    by (vm_compute; split; [discriminate|reflexivity]).
  assert (Hc : vec_at (DiagramContext.contexts_ d) (0, 1).1 = Some (Some c))
    by (vm_compute; reflexivity).
  assert (Hd : 0 <= (0, 1).2 < Virtual.get_num_input_ports c)
    by (vm_compute; split; [discriminate|reflexivity]).
  assert (Hset : Virtual.SetInputPort (0, 1).2
                   (DependentInputPort
                      (mkOutputPortPtr (DiagramContext.this d) (1, 0).1 (1, 0).2)) c
                 = Done tt c') by (vm_compute; reflexivity).
  split; [exact exported_lengths|]. split; [exact Ho|]. split; [exact Hs|].
  split; [exact Hc|]. split; [exact Hd|]. split; [exact Hset|].
  exact (proj2 (Connect_completes (1, 0) (0, 1) d exported_lengths) _ _ _ Ho Hs Hc Hd Hset).
Defined.

Lemma Connect_aborts_witness :
  let d := Construction.outer in
  let d' := state_of d (DiagramContext.Connect (0, 0) (1, 0) d) in
  length (DiagramContext.outputs_ d) = length (DiagramContext.contexts_ d) /\
  DiagramContext.Connect (0, 0) (1, 0) d = Aborted d' /\
  DiagramContext.dependency_graph_ d' = DiagramContext.dependency_graph_ d /\
  DiagramContext.inverse_dependency_graph_ d' = DiagramContext.inverse_dependency_graph_ d /\
  exists c c',
    vec_at (DiagramContext.contexts_ d) 1 = Some (Some c) /\
    0 <= 0 < Virtual.get_num_input_ports c /\
    Virtual.SetInputPort 0 (DependentInputPort (mkOutputPortPtr 7%nat 0 0)) c = Aborted c' /\
    vec_at (DiagramContext.contexts_ d') 1 = Some (Some c').
Proof.
  intros d d'.
  assert (Hl : length (DiagramContext.outputs_ d) = length (DiagramContext.contexts_ d))
    by reflexivity.
  assert (Ha : DiagramContext.Connect (0, 0) (1, 0) d = Aborted d')
    by (vm_compute; reflexivity).
  split; [exact Hl|]. split; [exact Ha|].
  destruct (Connect_aborts (0, 0) (1, 0) d d' Hl Ha) as (Hg & Hi & Hcause).
  split; [exact Hg|]. split; [exact Hi|].
  destruct Hcause as [[_ Hsrc]|[[_ Hdst]|Hset]].
  - exfalso. apply (Hsrc Scenario.outputs); [reflexivity|].
    vm_compute. split; [discriminate|reflexivity].
  - exfalso.
    apply (Hdst (DiagramContext.set_parent_and_index 7%nat 1 Construction.misexported));
      [vm_compute; reflexivity|].
    vm_compute. split; [discriminate|reflexivity].
  - exact Hset.
Defined.

Lemma set_time_skips_free_slots_witness :
  vec_at (DiagramContext.contexts_ Construction.partial) 1 = Some None /\
  vec_at (DiagramContext.contexts_ (DiagramContext.set_time 5 Construction.partial)) 1
  = Some None /\
  DiagramContext.get_time (DiagramContext.set_time 5 Construction.partial) = 5 /\
  DiagramContext.num_subsystems (DiagramContext.set_time 5 Construction.partial)
  = DiagramContext.num_subsystems Construction.partial.
Proof.
  assert (Hn : vec_at (DiagramContext.contexts_ Construction.partial) 1 = Some None)
    by reflexivity.
  split; [exact Hn|].
  destruct (set_time_skips_free_slots Construction.partial 5 1)
    as (Hfree & _ & _ & _ & Ht & Hnum & _).
  split; [exact (Hfree Hn)|]. split; [exact Ht|exact Hnum].
Defined.

Lemma MakeState_completes_witness :
  DiagramContext.all_installed Scenario.exported /\
  exists d', DiagramContext.MakeState Scenario.exported = Done tt d'.
Proof.
  assert (Hall : DiagramContext.all_installed Scenario.exported)
    by (unfold DiagramContext.all_installed; vm_compute; repeat constructor).
  split; [exact Hall|].
  exact (proj1 (proj1 (MakeState_completes Scenario.exported)) Hall).
Defined.

Lemma MakeState_free_slot_witness :
  vec_at (DiagramContext.contexts_ Construction.partial) 1 = Some None /\
  DiagramContext.MakeState Construction.partial = Undefined /\
  DiagramContext.GetSubsystemContext 1 Construction.partial = Aborted Construction.partial.
Proof.
  assert (Hn : vec_at (DiagramContext.contexts_ Construction.partial) 1 = Some None)
    by reflexivity.
  split; [exact Hn|].
  exact (MakeState_free_slot Construction.partial 1 Hn).
Defined.

Lemma DoClone_structure_witness :
  let r := DiagramContext.DoClone (fun _ => None) Scenario.exported Scenario.mem0 in
  let clone := value_of Scenario.exported r in
  let m' := state_of Scenario.mem0 r in
  r = Done clone m' /\
  DiagramContext.this clone = next_object Scenario.mem0 /\
  DiagramContext.num_subsystems clone = DiagramContext.num_subsystems Scenario.exported /\
  DiagramContext.dependency_graph_ clone = DiagramContext.dependency_graph_ Scenario.exported /\
  DiagramContext.input_ids_ clone = DiagramContext.input_ids_ Scenario.exported /\
  DiagramContext.output_ids_ clone = [] /\
  DiagramContext.all_installed clone /\
  DiagramContext.parallel clone /\
  DiagramContext.transposed clone.
Proof.
  intros r clone m'.
  assert (Hd : r = Done clone m') by (vm_compute; reflexivity).
  split; [exact Hd|].
  exact (DoClone_structure (fun _ => None) Scenario.exported Scenario.mem0 clone m' Hd).
Defined.

Lemma output_port_freshness_out_of_range_witness :
  ~ (0 <= 1 < DiagramContext.get_num_output_ports Nested.exported) /\
  DiagramContextPorts.MarkOutputPortFresh true 1 Nested.exported
  = Aborted Nested.exported /\
  DiagramContextPorts.IsOutputPortFresh true 1 Nested.exported
  = Aborted Nested.exported /\
  DiagramContextPorts.MarkOutputPortFresh false 1 Nested.exported = Undefined /\
  DiagramContextPorts.IsOutputPortFresh false 1 Nested.exported = Undefined.
Proof.
  assert (Hi : ~ (0 <= 1 < DiagramContext.get_num_output_ports Nested.exported)).
  { intros [_ Hlt]. vm_compute in Hlt. discriminate. }
  split; [exact Hi|].
  exact (output_port_freshness_out_of_range Nested.exported 1 Hi).
Defined.


Lemma evaluation_freshness_checked_witness :
  ~ DiagramContext.installed Nested.hollow 1 /\
  DiagramContextPorts.IsEvaluationFresh false 1 Nested.hollow = Aborted Nested.hollow /\
  DiagramContextPorts.MarkEvaluationFresh false 1 Nested.hollow = Aborted Nested.hollow.
Proof.
  assert (Hn : ~ DiagramContext.installed Nested.hollow 1).
  { intros [c Hc]. vm_compute in Hc. discriminate. }
  split; [exact Hn|].
  exact (evaluation_freshness_checked false Nested.hollow 1 Hn).
Defined.

Lemma GetInputPort_out_of_range_witness :
  ~ (0 <= 3 < DiagramContext.get_num_input_ports Scenario.exported) /\
  DiagramContextPorts.GetInputPort true 3 Scenario.exported = Aborted Scenario.exported /\
  DiagramContextPorts.GetInputPort false 3 Scenario.exported = Undefined.
Proof.
  assert (Hi : ~ (0 <= 3 < DiagramContext.get_num_input_ports Scenario.exported)).
  { intros [_ Hlt]. vm_compute in Hlt. discriminate. }
  split; [exact Hi|].
  split.
  - exact (GetInputPort_out_of_range true Scenario.exported 3 Hi).
  - exact (GetInputPort_out_of_range false Scenario.exported 3 Hi).
Defined.

Lemma set_then_get_input_port_witness :
  let d := Scenario.exported in
  let port := FreestandingInputPort 42 in
  let c := value_of Scenario.leaf (DiagramContext.GetSubsystemContext 0 d) in
  let c' := state_of c (Virtual.SetInputPort 0 port c) in
  length (DiagramContext.outputs_ d) = length (DiagramContext.contexts_ d) /\
  vec_at (DiagramContext.input_ids_ d) 0 = Some (0, 0) /\
  vec_at (DiagramContext.contexts_ d) 0 = Some (Some c) /\
  Virtual.SetInputPort 0 port c = Done tt c' /\
  Inputs.GetInputPort 0 c' = Done (Some port) c' /\
  DiagramContextPorts.GetInputPort true 0 d = Done None d /\
  exists d',
    DiagramContext.DoSetInputPort 0 port d = Done tt d' /\
    vec_at (DiagramContext.contexts_ d') 0 = Some (Some c') /\
    DiagramContextPorts.GetInputPort true 0 d' = Done (Some port) d'.
Proof.
  intros d port c c'.
  assert (Hid : vec_at (DiagramContext.input_ids_ d) 0 = Some (0, 0)) by reflexivity.
  assert (Hc : vec_at (DiagramContext.contexts_ d) (0, 0).1 = Some (Some c))
    by (vm_compute; reflexivity).
  assert (Hs : Virtual.SetInputPort (0, 0).2 port c = Done tt c')
    by (vm_compute; reflexivity).
  assert (Hg : Inputs.GetInputPort (0, 0).2 c' = Done (Some port) c')
    by (vm_compute; reflexivity).
  split; [exact exported_lengths|].
  split; [exact Hid|]. split; [exact Hc|]. split; [exact Hs|]. split; [exact Hg|].
  split; [vm_compute; reflexivity|].
  exact (set_then_get_input_port true d 0 (0, 0) port c c' exported_lengths Hid Hc Hs Hg).
Defined.

Lemma clone_has_no_output_port_witness :
  let r := DiagramContext.DoClone (fun _ => None) Nested.exported Scenario.mem0 in
  let clone := value_of Nested.exported r in
  let m' := state_of Scenario.mem0 r in
  r = Done clone m' /\
  DiagramContext.get_num_output_ports Nested.exported = 1 /\
  DiagramContextPorts.MarkOutputPortFresh true 0 clone = Aborted clone /\
  DiagramContextPorts.IsOutputPortFresh true 0 clone = Aborted clone /\
  DiagramContextPorts.MarkOutputPortFresh false 0 clone = Undefined /\
  DiagramContextPorts.IsOutputPortFresh false 0 clone = Undefined.
Proof.
  intros r clone m'.
  assert (Hd : r = Done clone m') by (vm_compute; reflexivity).
  split; [exact Hd|]. split; [reflexivity|].
  exact (clone_has_no_output_port (fun _ => None) Nested.exported Scenario.mem0
           clone m' 0 Hd).
Defined.

Lemma ExportOutput_appends_witness :
  let d := Nested.exported in
  let d' := state_of d (DiagramContext.ExportOutput (0, 0) d) in
  DiagramContext.ExportOutput (0, 0) d = Done tt d' /\
  DiagramContext.get_num_output_ports d' = DiagramContext.get_num_output_ports d + 1 /\
  vec_at (DiagramContext.output_ids_ d') 1 = Some (0, 0) /\
  DiagramContextPorts.IsOutputPortFresh true 1 d'
  = DiagramContext.call_subsystem 0 (Observers.IsOutputPortFresh 0) d'.
Proof.
  intros d d'.
  assert (He : DiagramContext.ExportOutput (0, 0) d = Done tt d') by (vm_compute; reflexivity).
  split; [exact He|].
  destruct (ExportOutput_appends true d (0, 0) d' He) as (Hn & Hid & _ & _ & Hf & _).
  split; [exact Hn|]. split; [exact Hid|exact Hf].
Defined.
